(** * RAIL C++ SDK: the reflective command dispatcher and the manifest generator

    A shallow embedding of [RailSDK-Cpp/src/dispatcher.cpp],
    [RailSDK-Cpp/src/instance_registry.cpp] and
    [RailSDK-Cpp/src/manifest_generator.cpp], and the properties of
    [DispatchCommand], [JsonToVariant] and [GenerateManifest] stated in the
    specification.  The connection to the bridge of [RailSDK-Cpp/src/rail.cpp]
    and the custom dispatchers of the converted projects (the two Notepad++
    integrations and the Doom agent) follow, with properties of their own.

    The sources sit on two third-party libraries, nlohmann::json and RTTR.
    Their data is modelled here ([Json.json], [Rttr.variant], the reflection
    catalog of a [Rttr.world]); the JSON grammar is modelled by an executable
    parser, which tells a text that is not JSON from one with a number
    that is not finite: the library throws exceptions of different types
    on them.  What depends on the C++ implementation (the text of [what()]
    messages, every floating-point conversion) is a field of [Platform], over
    which the theorems quantify; that a number is finite is decided here,
    for the [double] of IEEE 754. *)

From Stdlib Require Import ZArith String Ascii List Lia Permutation.
From Stdlib Require Import DecimalString DecimalPos.
From stdpp Require Import base option list gmap strings.

Set Warnings "-register-all".

(** ** Text *)

Module Text.

(** The double quote, which a string literal of this file cannot hold. *)
Definition dquote : ascii := "034"%char.

(** The C++ string literals of the sources are written with a backquote
    where the source has an (escaped) double quote; [cxx] restores it. *)
Fixpoint cxx (s : string) : string :=
  match s with
  | EmptyString => EmptyString
  | String c r => String (if Ascii.eqb c "`" then dquote else c) (cxx r)
  end.

Definition code (c : ascii) : N := N_of_ascii c.

Definition in_range (lo hi : N) (c : ascii) : bool :=
  ((lo <=? code c) && (code c <=? hi))%N.

Definition is_digit (c : ascii) : bool := in_range 48 57 c.

Definition digit_value (c : ascii) : Z := (Z.of_N (code c) - 48)%Z.

(** [std::string::rfind(char)]: the index of the last occurrence, [None]
    for [npos]. *)
Fixpoint rfind (c : ascii) (s : string) : option nat :=
  match s with
  | EmptyString => None
  | String a r =>
      match rfind c r with
      | Some i => Some (S i)
      | None => if Ascii.eqb a c then Some 0 else None
      end
  end.

(** [s.substr(0, n)] *)
Fixpoint substr_to (s : string) (n : nat) : string :=
  match n, s with
  | S n', String a r => String a (substr_to r n')
  | _, _ => EmptyString
  end.

(** [s.substr(pos)], for [pos <= s.size()] *)
Fixpoint substr_from (s : string) (pos : nat) : string :=
  match pos, s with
  | S p, String _ r => substr_from r p
  | _, _ => s
  end.

(** Decimal text of an integer, as [std::to_string(int)] and the JSON
    serializer write it. *)
Definition of_Z (n : Z) : string := NilZero.string_of_int (Z.to_int n).

Definition hex_digit (n : N) : ascii :=
  if (n <? 10)%N then ascii_of_N (48 + n) else ascii_of_N (87 + n).

(** Four lower-case hexadecimal digits: [std::hex << std::setw(4) <<
    std::setfill('0')] and the serializer's [\u%04x], for [n < 65536]. *)
Definition hex4 (n : N) : string :=
  String (hex_digit (n / 4096 mod 16))
    (String (hex_digit (n / 256 mod 16))
       (String (hex_digit (n / 16 mod 16))
          (String (hex_digit (n mod 16)) EmptyString))).

(** Well-formed UTF-8 (Unicode, table 3-7): the first byte [a] of a
    sequence with the bytes that follow it, by length. *)
Definition utf8_seq2 (a b : ascii) : bool :=
  in_range 194 223 a && in_range 128 191 b.

Definition utf8_seq3 (a b c : ascii) : bool :=
  in_range 224 239 a
  && (if in_range 224 224 a then in_range 160 191 b
      else if in_range 237 237 a then in_range 128 159 b
      else in_range 128 191 b)
  && in_range 128 191 c.

Definition utf8_seq4 (a b c d : ascii) : bool :=
  in_range 240 244 a
  && (if in_range 240 240 a then in_range 144 191 b
      else if in_range 244 244 a then in_range 128 143 b
      else in_range 128 191 b)
  && in_range 128 191 c && in_range 128 191 d.

(** The byte strings nlohmann's serializer accepts. *)
Fixpoint utf8_valid (s : string) : bool :=
  match s with
  | EmptyString => true
  | String a r =>
      if in_range 0 127 a then utf8_valid r
      else match r with
      | String b r1 =>
          if utf8_seq2 a b then utf8_valid r1
          else match r1 with
          | String c r2 =>
              if utf8_seq3 a b c then utf8_valid r2
              else match r2 with
              | String d r3 => utf8_seq4 a b c d && utf8_valid r3
              | EmptyString => false
              end
          | EmptyString => false
          end
      | EmptyString => false
      end
  end.

End Text.

Import Text.

(** ** Control flow of a C++ function body: exceptions and early returns *)

Module Cxx.

(** The exceptions the handlers of [DispatchCommand] tell apart. *)
Inductive exception : Type :=
| parse_error (what : string)     (* nlohmann::json::parse_error *)
| std_exception (what : string)   (* any other std::exception *)
| unknown_exception.              (* an object that is no std::exception *)

(** A statement either falls through with a value, executes [return r]
    (the function returns a [std::string]) or throws. *)
Inductive outcome (A : Type) : Type :=
| Normal (a : A)
| Return (r : string)
| Throw (e : exception).
Global Arguments Normal {A} a.
Global Arguments Return {A} r.
Global Arguments Throw {A} e.

Definition bind {A B : Type} (f : A -> outcome B) (m : outcome A) : outcome B :=
  match m with
  | Normal a => f a
  | Return r => Return r
  | Throw e => Throw e
  end.

Global Instance outcome_ret : MRet outcome := fun _ a => Normal a.
Global Instance outcome_bind : MBind outcome := fun _ _ f m => bind f m.

(** A call of a function that returns or throws. *)
Definition call {A : Type} (r : exception + A) : outcome A :=
  match r with
  | inl e => Throw e
  | inr a => Normal a
  end.

Definition is_Normal {A : Type} (m : outcome A) : bool :=
  match m with Normal _ => true | _ => false end.

End Cxx.

Import Cxx.

(** ** What the C++ implementation decides

    The text of library exceptions and every floating-point conversion.  A
    [float] or [double] is held as its IEEE bit pattern; a JSON number with a
    fraction or an exponent is held as its lexeme (see [Json.json]). *)

Class Platform : Type := {
  (** [what()] of the [json::parse_error] raised on an input text *)
  what_parse_error : string -> string;
  (** [what()] of the [json::type_error] (316) raised when serializing a
      string that is not UTF-8 *)
  what_invalid_utf8 : string -> string;
  (** [what()] of [std::invalid_argument] and [std::out_of_range], by the
      name of the <string> function that throws *)
  what_invalid_argument : string -> string;
  what_out_of_range : string -> string;
  (** [std::stof], [std::stod] *)
  stof : string -> exception + Z;
  stod : string -> exception + Z;
  (** [get<float>()], [get<double>()] on a JSON number *)
  float_of_lexeme : string -> Z;
  double_of_lexeme : string -> Z;
  float_of_integer : Z -> Z;
  double_of_integer : Z -> Z;
  (** the serializer on a floating-point number *)
  dump_lexeme : string -> string;
  (** [rttr::variant::to_string] on a [float] and on a [double] *)
  float_to_string : Z -> string;
  double_to_string : Z -> string
}.

(** ** <string>: std::stoi *)

Module Std.

Definition INT_MIN : Z := (-2147483648)%Z.
Definition INT_MAX : Z := 2147483647%Z.

(** [isspace] in the C locale *)
Definition isspace (c : ascii) : bool :=
  in_range 32 32 c || in_range 9 13 c.

Fixpoint skip_space (s : string) : string :=
  match s with
  | String c r => if isspace c then skip_space r else s
  | EmptyString => s
  end.

(** The value of the longest prefix of decimal digits, [acc] being the
    value of the digits read so far. *)
Fixpoint digits (acc : Z) (s : string) : Z :=
  match s with
  | String c r => if is_digit c then digits (10 * acc + digit_value c)%Z r else acc
  | EmptyString => acc
  end.

(** What [strtol(s, &end, 10)] converts: optional white space, an optional
    sign, then at least one digit; [None] when no conversion is performed.
    The value is not yet bounded. *)
Definition strtol (s : string) : option Z :=
  let s1 := skip_space s in
  let '(negative, s2) :=
    match s1 with
    | String "-" r => (true, r)
    | String "+" r => (false, r)
    | _ => (false, s1)
    end in
  match s2 with
  | String c _ =>
      if is_digit c
      then Some (if negative : bool then (- digits 0 s2)%Z else digits 0 s2)
      else None
  | EmptyString => None
  end.

(** [std::stoi(s)]: [std::invalid_argument] when no conversion can be
    performed, [std::out_of_range] when the value does not fit an [int]. *)
Definition stoi `{Platform} (s : string) : outcome Z :=
  match strtol s with
  | None => Throw (std_exception (what_invalid_argument "stoi"))
  | Some v =>
      if ((INT_MIN <=? v) && (v <=? INT_MAX))%Z then Normal v
      else Throw (std_exception (what_out_of_range "stoi"))
  end.

End Std.

(** ** nlohmann::json *)

Module Json.

(** A JSON value.  An object is a [std::map]: its members are kept sorted
    by key, one member per key ([set_member]).  [number_float] keeps the
    lexeme of the number; its conversions belong to the [Platform]. *)
Inductive json : Type :=
| Null
| Boolean (b : bool)
| NumberInteger (n : Z)
| NumberUnsigned (n : Z)
| NumberFloat (lexeme : string)
| Str (s : string)
| Array (elements : list json)
| Object (members : list (string * json)).

Definition is_null (j : json) : bool :=
  match j with Null => true | _ => false end.
Definition is_boolean (j : json) : bool :=
  match j with Boolean _ => true | _ => false end.
Definition is_number_integer (j : json) : bool :=
  match j with NumberInteger _ | NumberUnsigned _ => true | _ => false end.
Definition is_number_float (j : json) : bool :=
  match j with NumberFloat _ => true | _ => false end.
Definition is_number (j : json) : bool :=
  is_number_integer j || is_number_float j.
Definition is_string (j : json) : bool :=
  match j with Str _ => true | _ => false end.
Definition is_array (j : json) : bool :=
  match j with Array _ => true | _ => false end.
Definition is_object (j : json) : bool :=
  match j with Object _ => true | _ => false end.

Definition type_name (j : json) : string :=
  match j with
  | Null => "null"
  | Boolean _ => "boolean"
  | NumberInteger _ | NumberUnsigned _ | NumberFloat _ => "number"
  | Str _ => "string"
  | Array _ => "array"
  | Object _ => "object"
  end.

Fixpoint find_member (key : string) (members : list (string * json)) : option json :=
  match members with
  | [] => None
  | (k, v) :: rest => if String.eqb key k then Some v else find_member key rest
  end.

(** [m[key] = v] on the underlying [std::map] *)
Fixpoint set_member (key : string) (v : json) (members : list (string * json))
  : list (string * json) :=
  match members with
  | [] => [(key, v)]
  | (k, w) :: rest =>
      match String.compare key k with
      | Lt => (key, v) :: members
      | Eq => (key, v) :: rest
      | Gt => (k, w) :: set_member key v rest
      end
  end.

Fixpoint erase_member (key : string) (members : list (string * json))
  : list (string * json) :=
  match members with
  | [] => []
  | (k, w) :: rest =>
      if String.eqb key k then erase_member key rest else (k, w) :: erase_member key rest
  end.

(** [j.contains(key)]: false on anything but an object *)
Definition contains (j : json) (key : string) : bool :=
  match j with
  | Object members => bool_decide (is_Some (find_member key members))
  | _ => false
  end.

(** [j[key]], which the sources only evaluate under [j.contains(key)] *)
Definition at_key (j : json) (key : string) : json :=
  match j with
  | Object members => default Null (find_member key members)
  | _ => Null
  end.

(** [j.size()] *)
Definition size (j : json) : nat :=
  match j with
  | Null => 0
  | Array elements => length elements
  | Object members => length members
  | _ => 1
  end.

(** [j[i]] on a const array, which the sources only evaluate under
    [i < j.size()] *)
Definition at_index (j : json) (i : nat) : json :=
  match j with
  | Array elements => default Null (elements !! i)
  | _ => Null
  end.

(** [j.get<std::string>()], also the implicit conversion to
    [std::string]: [type_error] 302 on anything but a string. *)
Definition get_string (j : json) : outcome string :=
  match j with
  | Str s => Normal s
  | _ => Throw (std_exception
           ("[json.exception.type_error.302] type must be string, but is " +:+ type_name j))
  end.

(** The conversion of a 64-bit integer to [int] keeps the low 32 bits. *)
Definition to_int (n : Z) : Z := ((n + 2147483648) mod 4294967296 - 2147483648)%Z.

(** [j.get<int>()] on an integer number *)
Definition get_int (j : json) : Z :=
  match j with
  | NumberInteger n | NumberUnsigned n => to_int n
  | _ => 0%Z
  end.

(** [j.get<bool>()] on a boolean *)
Definition get_bool (j : json) : bool :=
  match j with Boolean b => b | _ => false end.

(** [j.get<float>()] and [j.get<double>()] on a number *)
Definition get_float `{Platform} (j : json) : Z :=
  match j with
  | NumberInteger n | NumberUnsigned n => float_of_integer n
  | NumberFloat lexeme => float_of_lexeme lexeme
  | _ => 0%Z
  end.

Definition get_double `{Platform} (j : json) : Z :=
  match j with
  | NumberInteger n | NumberUnsigned n => double_of_integer n
  | NumberFloat lexeme => double_of_lexeme lexeme
  | _ => 0%Z
  end.

End Json.

(** ** JSON text: [json::parse] and [json::dump] *)

Module JsonText.
Import Json.

(** *** The lexer *)

Definition is_ws (c : ascii) : bool :=
  in_range 32 32 c || in_range 9 10 c || in_range 13 13 c.

Fixpoint skip_ws (s : string) : string :=
  match s with
  | String c r => if is_ws c then skip_ws r else s
  | EmptyString => s
  end.

(** The longest prefix of digits, and what follows it. *)
Fixpoint take_digits (s : string) : string * string :=
  match s with
  | String c r =>
      if is_digit c then let '(ds, rest) := take_digits r in (String c ds, rest)
      else (EmptyString, s)
  | EmptyString => (EmptyString, s)
  end.

Definition is_empty (s : string) : bool :=
  match s with EmptyString => true | _ => false end.

(** The integer part of a number: [0], or digits that start with [1-9]. *)
Definition scan_int_part (s : string) : option (string * string) :=
  match s with
  | String c r =>
      if Ascii.eqb c "0" then Some ("0", r)
      else if in_range 49 57 c then Some (take_digits s)
      else None
  | EmptyString => None
  end.

(** An optional fraction: [.] and at least one digit. *)
Definition scan_fraction (s : string) : option (string * string) :=
  match s with
  | String c r =>
      if Ascii.eqb c "." then
        let '(ds, rest) := take_digits r in
        if is_empty ds then None else Some (String c ds, rest)
      else Some (EmptyString, s)
  | EmptyString => Some (EmptyString, s)
  end.

(** An optional exponent: [e] or [E], an optional sign, at least one digit. *)
Definition scan_exponent (s : string) : option (string * string) :=
  match s with
  | String c r =>
      if Ascii.eqb c "e" || Ascii.eqb c "E" then
        let '(sign, r1) :=
          match r with
          | String g r' =>
              if Ascii.eqb g "+" || Ascii.eqb g "-"
              then (String g EmptyString, r') else (EmptyString, r)
          | EmptyString => (EmptyString, r)
          end in
        let '(ds, rest) := take_digits r1 in
        if is_empty ds then None else Some (String c (sign +:+ ds), rest)
      else Some (EmptyString, s)
  | EmptyString => Some (EmptyString, s)
  end.

(** What reading comes to: a value, a text that is not JSON, or a number
    whose value is not finite, with its token. *)
Inductive reading (A : Type) : Type :=
| Read (a : A)
| Malformed
| Overflow (token : string).
Global Arguments Read {A} a.
Global Arguments Malformed {A}.
Global Arguments Overflow {A} token.

Global Instance reading_ret : MRet reading := fun _ a => Read a.
Global Instance reading_bind : MBind reading := fun _ _ f m =>
  match m with
  | Read a => f a
  | Malformed => Malformed
  | Overflow token => Overflow token
  end.

(** what a scanner of the lexer found *)
Definition scanned {A : Type} (found : option A) : reading A :=
  match found with
  | Some a => Read a
  | None => Malformed
  end.

(** the value read, if one was *)
Definition value_of {A : Type} (r : reading A) : option A :=
  match r with
  | Read a => Some a
  | _ => None
  end.

(** The exponent of [ep], an [e] or [E], an optional sign and digits. *)
Definition exponent_value (ep : string) : Z :=
  match ep with
  | String _ (String g ds) =>
      if Ascii.eqb g "-" then (- Std.digits 0 ds)%Z
      else if Ascii.eqb g "+" then Std.digits 0 ds
      else Std.digits 0 (String g ds)
  | _ => 0%Z
  end.

(** [!std::isfinite(std::strtod(lexeme))] on the number with the integer
    part [ip], the fraction [fp] and the exponent [ep]: for a [double]
    of IEEE 754 and rounding to nearest, its magnitude m * 10^e is at
    least 2^1024 - 2^970, half a unit beyond the largest [double].  The
    power is only computed where it decides. *)
Definition not_finite (ip fp ep : string) : bool :=
  let fd := match fp with String _ ds => ds | EmptyString => EmptyString end in
  let m := Std.digits 0 (ip +:+ fd) in
  let e := (exponent_value ep - Z.of_nat (String.length fd))%Z in
  let l := Z.of_nat (String.length (ip +:+ fd)) in
  (if m =? 0 then false
   else if l + e <=? 308 then false
   else if 310 <=? e then true
   else if 0 <=? e then 2 ^ 1024 - 2 ^ 970 <=? m * 10 ^ e
   else (2 ^ 1024 - 2 ^ 970) * 10 ^ (- e) <=? m)%Z.

(** A number.  Without fraction and exponent it is stored as an unsigned
    or a signed 64-bit integer when it fits one, and as a floating-point
    number otherwise; a floating-point number whose value is not finite
    is no value: the parser throws [out_of_range] 406 on its token. *)
Definition scan_number (s : string) : reading (json * string) :=
  let '(negative, s1) :=
    match s with
    | String c r => if Ascii.eqb c "-" then (true, r) else (false, s)
    | EmptyString => (false, s)
    end in
  '(ip, s2) ← scanned (scan_int_part s1);
  '(fp, s3) ← scanned (scan_fraction s2);
  '(ep, s4) ← scanned (scan_exponent s3);
  let lexeme := (if negative then "-" else "") +:+ ip +:+ fp +:+ ep in
  let v := Std.digits 0 ip in
  let float :=
    if not_finite ip fp ep then Overflow lexeme else Read (NumberFloat lexeme, s4) in
  if is_empty fp && is_empty ep then
    if negative then
      if (v <=? 9223372036854775808)%Z then Read (NumberInteger (- v)%Z, s4)
      else float
    else
      if (v <=? 18446744073709551615)%Z then Read (NumberUnsigned v, s4)
      else float
  else float.

Definition hex_value (c : ascii) : option N :=
  if in_range 48 57 c then Some (code c - 48)%N
  else if in_range 65 70 c then Some (code c - 55)%N
  else if in_range 97 102 c then Some (code c - 87)%N
  else None.

Definition hex4_value (a b c d : ascii) : option N :=
  x ← hex_value a; y ← hex_value b; z ← hex_value c; w ← hex_value d;
  Some (x * 4096 + y * 256 + z * 16 + w)%N.

(** The UTF-8 encoding of a code point below 0x110000. *)
Definition utf8_encode (cp : N) : string :=
  let byte (n : N) (r : string) := String (ascii_of_N n) r in
  (if cp <? 128 then byte cp EmptyString
   else if cp <? 2048 then
     byte (192 + cp / 64) (byte (128 + cp mod 64) EmptyString)
   else if cp <? 65536 then
     byte (224 + cp / 4096)
       (byte (128 + cp / 64 mod 64) (byte (128 + cp mod 64) EmptyString))
   else
     byte (240 + cp / 262144)
       (byte (128 + cp / 4096 mod 64)
          (byte (128 + cp / 64 mod 64) (byte (128 + cp mod 64) EmptyString))))%N.

Definition simple_escape (c : ascii) : option ascii :=
  if Ascii.eqb c dquote then Some dquote
  else if Ascii.eqb c "\" then Some "\"%char
  else if Ascii.eqb c "/" then Some "/"%char
  else if Ascii.eqb c "b" then Some "008"%char
  else if Ascii.eqb c "f" then Some "012"%char
  else if Ascii.eqb c "n" then Some "010"%char
  else if Ascii.eqb c "r" then Some "013"%char
  else if Ascii.eqb c "t" then Some "009"%char
  else None.

Definition prepend (p : string) (r : option (string * string)) : option (string * string) :=
  '(s, rest) ← r; Some (p +:+ s, rest).

Definition is_escaped_u (a b : ascii) : bool :=
  Ascii.eqb a "\" && Ascii.eqb b "u".

(** A string, after its opening quote: its content (escapes decoded) and
    what follows the closing quote.  Control characters, ill-formed UTF-8
    and lone surrogates are refused. *)
Fixpoint scan_string (s : string) : option (string * string) :=
  match s with
  | EmptyString => None
  | String a r =>
      if Ascii.eqb a dquote then Some (EmptyString, r)
      else if Ascii.eqb a "\" then
        match r with
        | String e r1 =>
            match simple_escape e with
            | Some c => prepend (String c EmptyString) (scan_string r1)
            | None =>
                match r1 with
                | String h1 (String h2 (String h3 (String h4 r2))) =>
                    if Ascii.eqb e "u" then
                      match hex4_value h1 h2 h3 h4 with
                      | Some cp =>
                          if ((55296 <=? cp) && (cp <=? 56319))%N then
                            match r2 with
                            | String b1 (String b2 (String l1 (String l2 (String l3 (String l4 r3))))) =>
                                if is_escaped_u b1 b2 then
                                  match hex4_value l1 l2 l3 l4 with
                                  | Some lo =>
                                      if ((56320 <=? lo) && (lo <=? 57343))%N
                                      then prepend
                                             (utf8_encode (65536 + (cp - 55296) * 1024 + (lo - 56320))%N)
                                             (scan_string r3)
                                      else None
                                  | None => None
                                  end
                                else None
                            | _ => None
                            end
                          else if ((56320 <=? cp) && (cp <=? 57343))%N then None
                          else prepend (utf8_encode cp) (scan_string r2)
                      | None => None
                      end
                    else None
                | _ => None
                end
            end
        | EmptyString => None
        end
      else if in_range 0 31 a then None
      else if in_range 32 127 a then prepend (String a EmptyString) (scan_string r)
      else
        match r with
        | String b r1 =>
            if utf8_seq2 a b
            then prepend (String a (String b EmptyString)) (scan_string r1)
            else
              match r1 with
              | String c r2 =>
                  if utf8_seq3 a b c
                  then prepend (String a (String b (String c EmptyString))) (scan_string r2)
                  else
                    match r2 with
                    | String d r3 =>
                        if utf8_seq4 a b c d
                        then prepend (String a (String b (String c (String d EmptyString))))
                               (scan_string r3)
                        else None
                    | EmptyString => None
                    end
              | EmptyString => None
              end
        | EmptyString => None
        end
  end.

(** [s] without the prefix [p], when it starts with it. *)
Fixpoint strip_prefix (p s : string) : option string :=
  match p, s with
  | EmptyString, _ => Some s
  | String a p', String b s' => if Ascii.eqb a b then strip_prefix p' s' else None
  | String _ _, EmptyString => None
  end.

(** *** The parser

    [fuel] bounds the nesting; [read_text] gives more than any text of
    its length can use.  Reading stops at the first token that is not
    JSON or at the first number whose value is not finite, whichever
    comes first. *)
Fixpoint read_value (fuel : nat) (s : string) : reading (json * string) :=
  match fuel with
  | O => Malformed
  | S fuel =>
      match skip_ws s with
      | EmptyString => Malformed
      | String c r =>
          if Ascii.eqb c "{" then
            match skip_ws r with
            | String d r' =>
                if Ascii.eqb d "}" then Read (Object [], r')
                else '(members, rest) ← read_members fuel [] r; Read (Object members, rest)
            | EmptyString => Malformed
            end
          else if Ascii.eqb c "[" then
            match skip_ws r with
            | String d r' =>
                if Ascii.eqb d "]" then Read (Array [], r')
                else '(elements, rest) ← read_elements fuel r; Read (Array elements, rest)
            | EmptyString => Malformed
            end
          else if Ascii.eqb c dquote then
            '(str, rest) ← scanned (scan_string r); Read (Str str, rest)
          else if Ascii.eqb c "t" then
            rest ← scanned (strip_prefix "rue" r); Read (Boolean true, rest)
          else if Ascii.eqb c "f" then
            rest ← scanned (strip_prefix "alse" r); Read (Boolean false, rest)
          else if Ascii.eqb c "n" then
            rest ← scanned (strip_prefix "ull" r); Read (Null, rest)
          else scan_number (String c r)
      end
  end

(** the elements of an array, after [[], up to and including []] *)
with read_elements (fuel : nat) (s : string) : reading (list json * string) :=
  match fuel with
  | O => Malformed
  | S fuel =>
      '(v, rest) ← read_value fuel s;
      match skip_ws rest with
      | String c r =>
          if Ascii.eqb c "," then
            '(vs, rest') ← read_elements fuel r; Read (v :: vs, rest')
          else if Ascii.eqb c "]" then Read ([v], r)
          else Malformed
      | EmptyString => Malformed
      end
  end

(** the members of an object, after [{], up to and including [}]; a key
    given twice keeps its last value *)
with read_members (fuel : nat) (acc : list (string * json)) (s : string)
  : reading (list (string * json) * string) :=
  match fuel with
  | O => Malformed
  | S fuel =>
      match skip_ws s with
      | String q r =>
          if Ascii.eqb q dquote then
            '(key, rest) ← scanned (scan_string r);
            match skip_ws rest with
            | String c r1 =>
                if Ascii.eqb c ":" then
                  '(v, rest1) ← read_value fuel r1;
                  let acc' := set_member key v acc in
                  match skip_ws rest1 with
                  | String d r2 =>
                      if Ascii.eqb d "," then read_members fuel acc' r2
                      else if Ascii.eqb d "}" then Read (acc', r2)
                      else Malformed
                  | EmptyString => Malformed
                  end
                else Malformed
            | EmptyString => Malformed
            end
          else Malformed
      | EmptyString => Malformed
      end
  end.

(** The value read in front of [rest], if one is. *)
Definition parse_value (fuel : nat) (s : string) : option (json * string) :=
  value_of (read_value fuel s).

(** A byte-order mark is skipped; a text that starts with its first byte
    only is refused. *)
Definition skip_bom (s : string) : option string :=
  match s with
  | String a r =>
      if in_range 239 239 a then
        match r with
        | String b (String c r') =>
            if in_range 187 187 b && in_range 191 191 c then Some r' else None
        | _ => None
        end
      else Some s
  | EmptyString => Some s
  end.

(** The lexer takes the end of the text, and a NUL, for the end of the
    input. *)
Definition end_of_input (s : string) : bool :=
  match s with
  | EmptyString => true
  | String c _ => Ascii.eqb c "000"
  end.

(** One JSON value, white space around it and then the end of the
    input. *)
Definition read_text (text : string) : reading json :=
  s ← scanned (skip_bom text);
  '(j, rest) ← read_value (2 * String.length s + 2) s;
  if end_of_input (skip_ws rest) then Read j else Malformed.

(** The value [json::parse(text)] returns, if it returns. *)
Definition parse_text (text : string) : option json :=
  value_of (read_text text).

(** [json::parse(text)]: the value, a [json::parse_error], or the
    [json::out_of_range] 406 of a number that is not finite, which is no
    [parse_error]. *)
Definition parse `{Platform} (text : string) : outcome json :=
  match read_text text with
  | Read j => Normal j
  | Malformed => Throw (parse_error (what_parse_error text))
  | Overflow token =>
      Throw (std_exception
               ("[json.exception.out_of_range.406] number overflow parsing '"
                +:+ token +:+ "'"))
  end.

(** *** The serializer ([dump()] with its default arguments) *)

Definition escape_char (c : ascii) : string :=
  if Ascii.eqb c "008" then "\b"
  else if Ascii.eqb c "009" then "\t"
  else if Ascii.eqb c "010" then "\n"
  else if Ascii.eqb c "012" then "\f"
  else if Ascii.eqb c "013" then "\r"
  else if Ascii.eqb c dquote then String "\" (String dquote EmptyString)
  else if Ascii.eqb c "\" then "\\"
  else if in_range 0 31 c then "\u" +:+ hex4 (code c)
  else String c EmptyString.

Fixpoint escape (s : string) : string :=
  match s with
  | EmptyString => EmptyString
  | String c r => escape_char c +:+ escape r
  end.

(** A string between quotes; [type_error] 316 when it is not UTF-8. *)
Definition dump_string `{Platform} (s : string) : outcome string :=
  if utf8_valid s
  then Normal (String dquote (escape s) +:+ String dquote EmptyString)
  else Throw (std_exception (what_invalid_utf8 s)).

Fixpoint dump `{Platform} (j : json) : outcome string :=
  match j with
  | Null => Normal "null"
  | Boolean b => Normal (if b then "true" else "false")
  | NumberInteger n | NumberUnsigned n => Normal (of_Z n)
  | NumberFloat lexeme => Normal (dump_lexeme lexeme)
  | Str s => dump_string s
  | Array elements =>
      let fix items (l : list json) : outcome string :=
        match l with
        | [] => Normal ""
        | [x] => dump x
        | x :: rest => a ← dump x; b ← items rest; Normal (a +:+ "," +:+ b)
        end in
      body ← items elements; Normal ("[" +:+ body +:+ "]")
  | Object members =>
      let member (k : string) (v : json) : outcome string :=
        a ← dump_string k; b ← dump v; Normal (a +:+ ":" +:+ b) in
      let fix items (l : list (string * json)) : outcome string :=
        match l with
        | [] => Normal ""
        | [(k, v)] => member k v
        | (k, v) :: rest => a ← member k v; b ← items rest; Normal (a +:+ "," +:+ b)
        end in
      body ← items members; Normal ("{" +:+ body +:+ "}")
  end.

End JsonText.

(** ** RTTR: types, variants and the reflection catalog *)

Module Rttr.

(** [rttr::type]: the types the dispatcher names ([type::get<int>()] and
    so on), any other registered type by an identifier, and the invalid
    type. *)
Inductive type : Type :=
| t_invalid
| t_void
| t_bool
| t_int
| t_float
| t_double
| t_string
| t_other (id : nat).

Global Instance type_eq_dec : EqDecision type.
Proof. solve_decision. Defined.

(** [rttr::variant].  [invalid] is the default-constructed variant, which
    [method::invoke] returns when the call could not be performed.  A
    successful call of a method that returns [void] yields [void_value],
    a variant of type [void]: RTTR documents that [is_valid()] is true
    for it, no data being stored.  A [float] or [double] is its bit
    pattern; anything that is not of a basic type is an [object_value],
    a handle on application data together with its type. *)
Inductive variant : Type :=
| invalid
| void_value
| bool_value (b : bool)
| int_value (n : Z)
| float_value (bits : Z)
| double_value (bits : Z)
| string_value (s : string)
| object_value (id : nat) (handle : nat).

Definition is_valid (v : variant) : bool :=
  match v with invalid => false | _ => true end.

Definition get_type (v : variant) : type :=
  match v with
  | invalid => t_invalid
  | void_value => t_void
  | bool_value _ => t_bool
  | int_value _ => t_int
  | float_value _ => t_float
  | double_value _ => t_double
  | string_value _ => t_string
  | object_value id _ => t_other id
  end.

(** [rttr::parameter_info] *)
Record parameter_info : Type := {
  param_name : string;
  param_type : type
}.

(** [rttr::method].  [invoke] stands for the call through RTTR into the
    application, on the application's current state: it yields the
    variant RTTR returns, or the exception the application code throws. *)
Record method : Type := {
  method_name : string;
  parameter_infos : list parameter_info;
  return_type : type;
  get_metadata : string -> variant;
  invoke : variant -> list variant -> exception + variant
}.

(** The reflection catalog, populated by static registration, and the
    conversions registered with it. *)
Record world : Type := {
  (** [type::get_types()], in the order RTTR yields them *)
  get_types : list type;
  get_name : type -> string;
  is_class : type -> bool;
  is_pointer : type -> bool;
  is_wrapper : type -> bool;
  get_raw_type : type -> type;
  get_wrapped_type : type -> type;
  (** [variant::extract_wrapped_value()] *)
  extract_wrapped_value : variant -> variant;
  (** [t.get_methods()] *)
  get_methods : type -> list method;
  (** [t.get_method(name)], [None] for the invalid method *)
  get_method : type -> string -> option method;
  (** [variant::to_string()] on an object: the registered converter, the
      empty string without one *)
  object_to_string : nat -> nat -> string
}.

(** [rttr::variant::to_string()] *)
Definition to_string `{Platform} (w : world) (v : variant) : string :=
  match v with
  | invalid | void_value => ""
  | bool_value b => if b then "true" else "false"
  | int_value n => of_Z n
  | float_value bits => float_to_string bits
  | double_value bits => double_to_string bits
  | string_value s => s
  | object_value id handle => object_to_string w id handle
  end.

End Rttr.

(** ** instance_registry.cpp

    [_instances], a [std::map<std::string, rttr::variant>]; every operation
    runs under the registry's mutex and is modelled as one atomic step. *)

Module InstanceRegistry.
Import Rttr.

Definition Register (id : string) (instance : variant) (_instances : gmap string variant)
  : gmap string variant :=
  <[id := instance]> _instances.

Definition Get (_instances : gmap string variant) (id : string) : variant :=
  match _instances !! id with
  | Some instance => instance
  | None => invalid
  end.

Definition Unregister (id : string) (_instances : gmap string variant)
  : gmap string variant :=
  delete id _instances.

Definition Contains (_instances : gmap string variant) (id : string) : bool :=
  bool_decide (is_Some (_instances !! id)).

End InstanceRegistry.

(** ** dispatcher.cpp *)

Module Dispatcher.
Import Json JsonText Rttr.

(** [JsonToVariant(jVal, targetType)].  The source tests [targetType]
    against five types in turn; the blocks exclude one another, and a
    block that returns nothing falls through to the final
    [return rttr::variant()]. *)
Definition JsonToVariant `{Platform} (jVal : json) (targetType : type) : outcome variant :=
  match targetType with
  | t_int =>
      if is_number_integer jVal then Normal (int_value (get_int jVal))
      else if is_string jVal then
        s ← get_string jVal; n ← Std.stoi s; Normal (int_value n)
      else Normal invalid
  | t_float =>
      if is_number jVal then Normal (float_value (get_float jVal))
      else if is_string jVal then
        s ← get_string jVal; x ← call (stof s); Normal (float_value x)
      else Normal invalid
  | t_double =>
      if is_number jVal then Normal (double_value (get_double jVal))
      else if is_string jVal then
        s ← get_string jVal; x ← call (stod s); Normal (double_value x)
      else Normal invalid
  | t_bool =>
      if is_boolean jVal then Normal (bool_value (get_bool jVal))
      else if is_string jVal then
        s ← get_string jVal; Normal (bool_value (String.eqb s "true"))
      else Normal invalid
  | t_string =>
      if is_string jVal then s ← get_string jVal; Normal (string_value s)
      else s ← dump jVal; Normal (string_value s)
  | _ => Normal invalid
  end.

Section DispatchCommand.
Context `{Platform}.
(** the reflection catalog and the registry's [_instances] *)
Variable w : world.
Variable _instances : gmap string variant.

(** 1. Validate Command Structure & Context: the context, and the
    method name as refined so far. *)
Definition ResolveContext (cmd : json) (methodNameFull : string)
  : outcome (string * string) :=
  if contains cmd "class" && negb (is_null (at_key cmd "class")) then
    context ← get_string (at_key cmd "class");
    Normal (context, methodNameFull)
  else if contains cmd "context" then
    context ← get_string (at_key cmd "context");
    Normal (context, methodNameFull)
  else
    match rfind "." methodNameFull with
    | Some dotPos =>
        Normal (substr_to methodNameFull dotPos, substr_from methodNameFull (S dotPos))
    | None =>
        Return (cxx "{`error`: `Invalid JSON command structure: missing class or context, and method name '"
                +:+ methodNameFull +:+ cxx "' has no dot separator.`}")
    end.

(** 3. Resolve Method Name (If not already split above) *)
Definition ResolveMethodName (methodName methodNameFull : string) : string :=
  if String.eqb methodName methodNameFull then
    match rfind "." methodName with
    | Some dotPos => substr_from methodName (S dotPos)
    | None => methodName
    end
  else methodName.

(** 4. Unwrap pointers and wrappers: the type to search, and the
    instance to invoke on. *)
Definition Unwrap (instance : variant) : type * variant :=
  let type := get_type instance in
  if is_pointer w type then (get_raw_type w type, instance)
  else if is_wrapper w type then (get_wrapped_type w type, extract_wrapped_value w instance)
  else (type, instance).

(** Steps 1 to 4: from the parsed command to the instance and the
    method. *)
Definition Resolve (cmd : json) : outcome (variant * method) :=
  if negb (contains cmd "method") then
    Return (cxx "{`error`: `Invalid JSON command structure: missing method`}")
  else
    methodNameFull ← get_string (at_key cmd "method");
    '(context, methodName) ← ResolveContext cmd methodNameFull;
    let instance := InstanceRegistry.Get _instances context in
    if negb (is_valid instance) then
      Return (cxx "{`error`: `Instance not found: " +:+ context +:+ cxx "`}")
    else
      let methodName := ResolveMethodName methodName methodNameFull in
      let '(type, instance) := Unwrap instance in
      match get_method w type methodName with
      | None =>
          Return (cxx "{`error`: `Method not found: " +:+ methodName
                  +:+ " on type " +:+ get_name w type +:+ cxx "`}")
      | Some method => Normal (instance, method)
      end.

(** 5. Build Arguments: the positional loop, [i] being the index of
    the first parameter of [paramInfos]. *)
Fixpoint BuildPositional (jArgs : json) (paramInfos : list parameter_info) (i : nat)
    (argsVariants : list variant) : outcome (list variant) :=
  match paramInfos with
  | [] => Normal argsVariants
  | param :: rest =>
      argsVariants ←
        (if bool_decide (i < size jArgs) then
           v ← JsonToVariant (at_index jArgs i) (param_type param);
           Normal (<[i := v]> argsVariants)
         else Normal argsVariants);
      BuildPositional jArgs rest (S i) argsVariants
  end.

(** the named loop *)
Fixpoint BuildNamed (jArgs : json) (paramInfos : list parameter_info) (i : nat)
    (argsVariants : list variant) : outcome (list variant) :=
  match paramInfos with
  | [] => Normal argsVariants
  | param :: rest =>
      let pName := param_name param in
      argsVariants ←
        (if contains jArgs pName then
           v ← JsonToVariant (at_key jArgs pName) (param_type param);
           Normal (<[i := v]> argsVariants)
         else Normal argsVariants);
      BuildNamed jArgs rest (S i) argsVariants
  end.

Definition BuildArguments (cmd : json) (paramInfos : list parameter_info)
  : outcome (list variant) :=
  let argsVariants := replicate (length paramInfos) invalid in
  if contains cmd "args" then
    let jArgs := at_key cmd "args" in
    if is_array jArgs then BuildPositional jArgs paramInfos 0 argsVariants
    else if is_object jArgs then BuildNamed jArgs paramInfos 0 argsVariants
    else Normal argsVariants
  else Normal argsVariants.

(** [argsVariants[i]] *)
Definition arg (argsVariants : list variant) (i : nat) : variant :=
  default invalid (argsVariants !! i).

(** 6. Invoke: one call shape per argument count *)
Definition Invoke (method : method) (instance : variant) (argsVariants : list variant)
  : outcome variant :=
  let a := arg argsVariants in
  match length argsVariants with
  | 0 => call (invoke method instance [])
  | 1 => call (invoke method instance [a 0])
  | 2 => call (invoke method instance [a 0; a 1])
  | 3 => call (invoke method instance [a 0; a 1; a 2])
  | 4 => call (invoke method instance [a 0; a 1; a 2; a 3])
  | 5 => call (invoke method instance [a 0; a 1; a 2; a 3; a 4])
  | 6 => call (invoke method instance [a 0; a 1; a 2; a 3; a 4; a 5])
  | _ => Return (cxx "{`error`: `Too many arguments (max 6 supported)`}")
  end.

(** The test on the result, and 7. Return Result *)
Definition Serialize (method : method) (result : variant) : outcome string :=
  if negb (is_valid result) then
    if bool_decide (return_type method = t_void) then
      Return (cxx "{`result`: `void`}")
    else Return (cxx "{`error`: `Invocation failed (returned invalid variant)`}")
  else
    let resStr := to_string w result in
    let resJson := Object (set_member "result" (Str resStr) []) in
    text ← dump resJson;
    Return text.

(** The [try] block *)
Definition Body (jsonCmd : string) : outcome string :=
  cmd ← parse jsonCmd;
  '(instance, method) ← Resolve cmd;
  argsVariants ← BuildArguments cmd (parameter_infos method);
  result ← Invoke method instance argsVariants;
  Serialize method result.

(** [DispatchCommand(jsonCmd)]: the [try] block and its three handlers *)
Definition DispatchCommand (jsonCmd : string) : string :=
  match Body jsonCmd with
  | Normal r | Return r => r
  | Throw (parse_error what) =>
      cxx "{`error`: `JSON parse error: " +:+ what +:+ cxx "`}"
  | Throw (std_exception what) =>
      cxx "{`error`: `Dispatch exception: " +:+ what +:+ cxx "`}"
  | Throw unknown_exception =>
      cxx "{`error`: `Unknown dispatch error`}"
  end.

End DispatchCommand.

End Dispatcher.

(** ** manifest_generator.cpp *)

Module ManifestGenerator.
Import Rttr.

(** [EscapeJson(s)]: the quote, the backslash and the bytes [0x00] to
    [0x1f] are escaped, every other byte is copied. *)
Definition EscapeChar (c : ascii) : string :=
  if Ascii.eqb c dquote then String "\" (String dquote EmptyString)
  else if Ascii.eqb c "\" then "\\"
  else if in_range 0 31 c then "\u" +:+ hex4 (code c)
  else String c EmptyString.

Fixpoint EscapeJson (s : string) : string :=
  match s with
  | EmptyString => EmptyString
  | String c r => EscapeChar c +:+ EscapeJson r
  end.

Section GenerateManifest.
Context `{Platform}.
Variable w : world.

(** the loop over [params]; [firstParam] is the flag of the source *)
Fixpoint Parameters (firstParam : bool) (params : list parameter_info) : string :=
  match params with
  | [] => ""
  | p :: rest =>
      (if firstParam then "" else ",")
      +:+ "{"
      +:+ cxx "`name`: `" +:+ EscapeJson (param_name p) +:+ cxx "`,"
      +:+ cxx "`type`: `" +:+ EscapeJson (get_name w (param_type p)) +:+ cxx "`"
      +:+ "}"
      +:+ Parameters false rest
  end.

(** what one iteration of the loop over the methods writes after the
    separating comma *)
Definition Function (className : string) (meth : method) : string :=
  let methodName := method_name meth in
  let descVar := get_metadata meth "description" in
  let desc := if is_valid descVar then to_string w descVar else "" in
  "{"
  +:+ cxx "`name`: `" +:+ EscapeJson (className +:+ "." +:+ methodName) +:+ cxx "`,"
  +:+ cxx "`description`: `" +:+ EscapeJson desc +:+ cxx "`,"
  +:+ cxx "`parameters`: ["
  +:+ Parameters true (parameter_infos meth)
  +:+ "]"
  +:+ "}".

(** the loop over the methods of one type: the text written, and
    [firstFunc] after it *)
Fixpoint Methods (className : string) (firstFunc : bool) (meths : list method)
  : string * bool :=
  match meths with
  | [] => (EmptyString, firstFunc)
  | meth :: rest =>
      let '(text, firstFunc') := Methods className false rest in
      ((if firstFunc then "" else ",") +:+ Function className meth +:+ text, firstFunc')
  end.

(** the loop over the types *)
Fixpoint Types (firstFunc : bool) (types : list type) : string :=
  match types with
  | [] => EmptyString
  | t :: rest =>
      if negb (is_class w t) then Types firstFunc rest
      else
        let className := get_name w t in
        let '(text, firstFunc') := Methods className firstFunc (get_methods w t) in
        text +:+ Types firstFunc' rest
  end.

Definition GenerateManifest (appName : string) : string :=
  "{"
  +:+ cxx "`language`: `cpp`,"
  +:+ cxx "`appName`: `" +:+ EscapeJson appName +:+ cxx "`,"
  +:+ cxx "`functions`: ["
  +:+ Types true (get_types w)
  +:+ "]"
  +:+ "}".

End GenerateManifest.

End ManifestGenerator.

(** ** The order system of the SDK's examples

    [examples/RailBinding.cpp] registers the class [OrderManager] of
    [examples/legacy_code/OrderManager.h] with its three methods, and
    [examples/hello_world_rttr.cpp] registers one instance of it, by
    reference, under the name "OrderManager".  [Mixer] is a second class
    with one method of seven parameters. *)

Module Example.
Import Json JsonText Rttr.

Definition OrderManager_id : nat := 0.
Definition OrderManager_ref_id : nat := 1.
Definition Mixer_id : nat := 2.

Definition is_OrderManager (instance : variant) : bool :=
  match instance with
  | object_value id _ => bool_decide (id = OrderManager_id)
  | _ => false
  end.

(** [bool CreateOrder(const std::string& clientName, int quantity)] *)
Definition CreateOrder : method := {|
  method_name := "CreateOrder";
  parameter_infos :=
    [ {| param_name := "clientName"; param_type := t_string |};
      {| param_name := "quantity"; param_type := t_int |} ];
  return_type := t_bool;
  get_metadata := fun key =>
    if String.eqb key "description"
    then string_value "Creates a new order for a client" else invalid;
  invoke := fun instance args =>
    match args with
    | [string_value _; int_value _] =>
        inr (if is_OrderManager instance then bool_value true else invalid)
    | _ => inr invalid
    end
|}.

(** [int GetOrderCount() const], on a manager that holds no order *)
Definition GetOrderCount : method := {|
  method_name := "GetOrderCount";
  parameter_infos := [];
  return_type := t_int;
  get_metadata := fun key =>
    if String.eqb key "description"
    then string_value "Returns total number of active orders" else invalid;
  invoke := fun instance args =>
    match args with
    | [] => inr (if is_OrderManager instance then int_value 0 else invalid)
    | _ => inr invalid
    end
|}.

(** [void CancelOrder(int orderId)] *)
Definition CancelOrder : method := {|
  method_name := "CancelOrder";
  parameter_infos := [ {| param_name := "orderId"; param_type := t_int |} ];
  return_type := t_void;
  get_metadata := fun key =>
    if String.eqb key "description"
    then string_value "Cancels an existing order by ID" else invalid;
  invoke := fun instance args =>
    match args with
    | [int_value _] =>
        inr (if is_OrderManager instance then void_value else invalid)
    | _ => inr invalid
    end
|}.

(** [int Blend(int a, int b, int c, int d, int e, int f, int g)] *)
Definition Blend : method := {|
  method_name := "Blend";
  parameter_infos :=
    map (fun name => {| param_name := name; param_type := t_int |})
      ["a"; "b"; "c"; "d"; "e"; "f"; "g"];
  return_type := t_int;
  get_metadata := fun _ => invalid;
  invoke := fun _ _ => inr invalid
|}.

Definition methods_of (t : type) : list method :=
  match t with
  | t_other 0 => [CreateOrder; GetOrderCount; CancelOrder]
  | t_other 2 => [Blend]
  | _ => []
  end.

Definition order_system : world := {|
  get_types := [t_bool; t_int; t_string; t_other OrderManager_id;
                t_other OrderManager_ref_id; t_other Mixer_id];
  get_name := fun t =>
    match t with
    | t_invalid => ""
    | t_void => "void"
    | t_bool => "bool"
    | t_int => "int"
    | t_float => "float"
    | t_double => "double"
    | t_string => "std::string"
    | t_other 0 => "OrderManager"
    | t_other 1 => "std::reference_wrapper<OrderManager>"
    | t_other _ => "Mixer"
    end;
  is_class := fun t =>
    match t with t_string | t_other _ => true | _ => false end;
  is_pointer := fun _ => false;
  is_wrapper := fun t => bool_decide (t = t_other OrderManager_ref_id);
  get_raw_type := fun t => t;
  get_wrapped_type := fun t =>
    if bool_decide (t = t_other OrderManager_ref_id) then t_other OrderManager_id else t_invalid;
  extract_wrapped_value := fun v =>
    match v with
    | object_value 1 handle => object_value OrderManager_id handle
    | _ => invalid
    end;
  get_methods := methods_of;
  get_method := fun t name =>
    List.find (fun m => String.eqb (method_name m) name) (methods_of t);
  object_to_string := fun _ _ => ""
|}.

(** [rail::RegisterInstance("OrderManager", std::ref(myOrderManager))],
    and a registered [Mixer] *)
Definition registered : gmap string variant :=
  InstanceRegistry.Register "Mixer" (object_value Mixer_id 0)
    (InstanceRegistry.Register "OrderManager" (object_value OrderManager_ref_id 0) ∅).

End Example.

(** ** rail.cpp

    The connection to RailBridge.dll.  The globals of the file are the
    fields of [globals], threaded through every function; what a function
    asks of the operating system and of the bridge is the list of [event]s
    it returns, and what they answer during one call of [Ignite] is a
    [host].  The lines written to [std::cout] and [std::cerr] are left
    out. *)

Module Rail.
Import Json JsonText Rttr Dispatcher ManifestGenerator.

(** The bytes a [const char*] denotes, [s.c_str()] as its reader sees
    it: those before the first NUL. *)
Fixpoint c_str (s : string) : string :=
  match s with
  | EmptyString => EmptyString
  | String c r => if Ascii.eqb c "000" then EmptyString else String c (c_str r)
  end.

Record globals : Type := {
  g_hBridgeDll : option nat;      (* a module handle, [None] for [nullptr] *)
  g_fnIgnite : bool;              (* the pointer is not null *)
  g_fnDisconnect : bool;
  g_Connected : bool;
  g_LastResult : string;
  g_CustomDispatcher : option (string -> exception + string)
}.

(** the initializers of the globals *)
Definition initial : globals := {|
  g_hBridgeDll := None;
  g_fnIgnite := false;
  g_fnDisconnect := false;
  g_Connected := false;
  g_LastResult := "";
  g_CustomDispatcher := None
|}.

Inductive event : Type :=
| saved (jsonManifest : string)            (* [outFile << jsonManifest] *)
| loaded (handle : nat)                    (* [LoadLibraryA] returned a handle *)
| ignited (instanceId jsonManifest : string)  (* the call of [g_fnIgnite] *)
| disconnected                             (* the call of [g_fnDisconnect] *)
| freed (handle : nat).                    (* [FreeLibrary(g_hBridgeDll)] *)

Record host : Type := {
  is_open : bool;                          (* [outFile.is_open()] *)
  LoadLibraryA : option nat;               (* of "RailBridge.dll" *)
  GetProcAddress : string -> bool;         (* the export is found *)
  Rail_Ignite : string -> string -> Z      (* the [int] the bridge returns *)
}.

(** [SetCustomDispatcher(dispatcher)]; an empty [std::function] is [None] *)
Definition SetCustomDispatcher (dispatcher : option (string -> exception + string))
    (g : globals) : globals := {|
  g_hBridgeDll := g_hBridgeDll g;
  g_fnIgnite := g_fnIgnite g;
  g_fnDisconnect := g_fnDisconnect g;
  g_Connected := g_Connected g;
  g_LastResult := g_LastResult g;
  g_CustomDispatcher := dispatcher
|}.

Definition set_LastResult (result : string) (g : globals) : globals := {|
  g_hBridgeDll := g_hBridgeDll g;
  g_fnIgnite := g_fnIgnite g;
  g_fnDisconnect := g_fnDisconnect g;
  g_Connected := g_Connected g;
  g_LastResult := result;
  g_CustomDispatcher := g_CustomDispatcher g
|}.

Definition set_Connected (connected : bool) (g : globals) : globals := {|
  g_hBridgeDll := g_hBridgeDll g;
  g_fnIgnite := g_fnIgnite g;
  g_fnDisconnect := g_fnDisconnect g;
  g_Connected := connected;
  g_LastResult := g_LastResult g;
  g_CustomDispatcher := g_CustomDispatcher g
|}.

Definition set_hBridgeDll (handle : option nat) (g : globals) : globals := {|
  g_hBridgeDll := handle;
  g_fnIgnite := g_fnIgnite g;
  g_fnDisconnect := g_fnDisconnect g;
  g_Connected := g_Connected g;
  g_LastResult := g_LastResult g;
  g_CustomDispatcher := g_CustomDispatcher g
|}.

Definition set_exports (fnIgnite fnDisconnect : bool) (g : globals) : globals := {|
  g_hBridgeDll := g_hBridgeDll g;
  g_fnIgnite := fnIgnite;
  g_fnDisconnect := fnDisconnect;
  g_Connected := g_Connected g;
  g_LastResult := g_LastResult g;
  g_CustomDispatcher := g_CustomDispatcher g
|}.

(** [BridgeCallback(commandJson)]: what the returned pointer denotes and
    the globals after the call, or the exception that leaves the
    function; there is no handler in it.  [commandJson] is [None] for a
    null pointer. *)
Definition BridgeCallback `{Platform} (w : world) (_instances : gmap string variant)
    (commandJson : option string) (g : globals) : exception + (string * globals) :=
  match commandJson with
  | None => inr (cxx "{`error`:`null_command`}", g)
  | Some bytes =>
      let commandJson := c_str bytes in
      match
        match g_CustomDispatcher g with
        | Some dispatcher => dispatcher commandJson
        | None => inr (DispatchCommand w _instances commandJson)
        end
      with
      | inl e => inl e
      | inr result =>
          let g := set_LastResult result g in
          inr (c_str (g_LastResult g), g)
      end
  end.

(** [Ignite(appName, version, customManifest)]: the value returned, the
    globals after the call and the events, in order.  Nothing in the
    [try] block throws in this model. *)
Definition Ignite `{Platform} (w : world) (h : host)
    (appName version customManifest : string) (g : globals)
  : bool * globals * list event :=
  (* 1. Generate Manifest *)
  let jsonManifest :=
    if negb (JsonText.is_empty customManifest) then customManifest
    else GenerateManifest w appName in
  (* 2. Save Manifest to Disk *)
  let events := if is_open h then [saved jsonManifest] else [] in
  (* 3. Load RailBridge.dll *)
  let g := set_hBridgeDll (LoadLibraryA h) g in
  match g_hBridgeDll g with
  | None => (false, g, events)
  | Some handle =>
      let events := events ++ [loaded handle] in
      (* 4. Resolve Functions *)
      let g := set_exports (GetProcAddress h "Rail_Ignite")
                 (GetProcAddress h "Rail_Disconnect") g in
      if negb (g_fnIgnite g) || negb (g_fnDisconnect g) then (false, g, events)
      else
        (* 5. Connect *)
        let result := Rail_Ignite h (c_str appName) (c_str jsonManifest) in
        let events := events ++ [ignited (c_str appName) (c_str jsonManifest)] in
        if negb (result =? 0)%Z then (false, g, events)
        else (true, set_Connected true g, events)
  end.

(** [RegisterInstanceInternal(name, instance)] *)
Definition RegisterInstanceInternal (name : string) (instance : variant)
    (_instances : gmap string variant) : gmap string variant :=
  InstanceRegistry.Register name instance _instances.

(** [Disconnect()] *)
Definition Disconnect (g : globals) : globals * list event :=
  let events := if g_Connected g && g_fnDisconnect g then [disconnected] else [] in
  let g := set_Connected false g in
  match g_hBridgeDll g with
  | Some handle => (set_hBridgeDll None g, events ++ [freed handle])
  | None => (g, events)
  end.

Definition IsConnected (g : globals) : bool := g_Connected g.

(** [DebugDispatch(json)] *)
Definition DebugDispatch `{Platform} (w : world) (_instances : gmap string variant)
    (json : string) : string :=
  DispatchCommand w _instances json.

End Rail.

(** ** The Notepad++ integrations

    Both files install a [ManualDispatch] as the custom dispatcher.  The
    functions it calls send window messages to the editor; a call is
    modelled as the [call] made, with its argument, and the text the
    editor has selected, which [Npp_GetSelection] reads, is a parameter. *)

(** [method.find('.')]: the index of the first occurrence, [None] for
    [npos]. *)
Fixpoint find_char (c : ascii) (s : string) : option nat :=
  match s with
  | EmptyString => None
  | String a r => if Ascii.eqb a c then Some 0 else S <$> find_char c r
  end.

(** The normalization of both files: what follows the first dot. *)
Definition after_first_dot (method : string) : string :=
  match find_char "." method with
  | Some dot => substr_from method (S dot)
  | None => method
  end.

(** *** RailNPP/main.cpp *)

Module RailNPP.
Import Json JsonText.

(** The functions of the file that send messages to the editor. *)
Inductive call : Type :=
| Npp_New
| Npp_Write (text : string)
| Npp_Save (filename : string)
| Npp_GetSelection
| Npp_ReplaceSelection (text : string).

(** The calls made so far, in order, and how the block went on: a call
    made before an exception stays made. *)
Record traced (A : Type) : Type := Traced {
  calls : list call;
  went : outcome A
}.
Global Arguments Traced {A} calls went.
Global Arguments calls {A} t.
Global Arguments went {A} t.

Global Instance traced_ret : MRet traced := fun _ a => Traced [] (Normal a).
Global Instance traced_bind : MBind traced := fun _ _ f m =>
  match went m with
  | Normal a => Traced (calls m ++ calls (f a)) (went (f a))
  | Return r => Traced (calls m) (Return r)
  | Throw e => Traced (calls m) (Throw e)
  end.

(** a step that makes no call *)
Definition quiet {A : Type} (step : outcome A) : traced A := Traced [] step.

(** a call and what it returns *)
Definition editor {A : Type} (c : call) (returned : A) : traced A :=
  Traced [c] (Normal returned).

(** The text of [Npp_Write] and of [Npp_ReplaceSelection] *)
Definition text_argument `{Platform} (j : json) : outcome string :=
  let text := "" in
  if contains j "args" then
    let args := at_key j "args" in
    if is_object args && contains args "text" then
      let t := at_key args "text" in
      if is_string t then get_string t else dump t
    else if is_array args && negb (size args =? 0) then
      if is_string (at_index args 0) then get_string (at_index args 0)
      else Normal text
    else Normal text
  else Normal text.

(** The file name of [Npp_Save] *)
Definition filename_argument (j : json) : outcome string :=
  let filename := "" in
  if contains j "args" then
    let args := at_key j "args" in
    if is_object args && contains args "filename" then
      get_string (at_key args "filename")
    else if is_array args && negb (size args =? 0) then
      get_string (at_index args 0)
    else Normal filename
  else Normal filename.

Definition one_of (method : string) (names : list string) : bool :=
  existsb (String.eqb method) names.

(** The [try] block: the calls made and the text returned.  [selection]
    is what [Npp_GetSelection] returns. *)
Definition Body `{Platform} (selection : string) (cmdJson : string) : traced string :=
  j ← quiet (parse cmdJson);
  if contains j "method" then
    method ← quiet (get_string (at_key j "method"));
    (* Normalize method name "Notepad.Write" -> "Write" *)
    let method := after_first_dot method in
    if one_of method ["Npp_New"; "fileNew"; "New"; "Notepad.fileNew"] then
      _ ← editor Npp_New tt;
      mret (cxx "{`result`:`Success`}")
    else if one_of method ["Npp_Write"; "writeText"; "Write"; "Notepad.writeText"] then
      text ← quiet (text_argument j);
      _ ← editor (Npp_Write text) tt;
      mret (cxx "{`result`:`Success`}")
    else if one_of method ["Npp_Save"; "saveFile"; "Save"; "Notepad.saveFile"] then
      filename ← quiet (filename_argument j);
      _ ← editor (Npp_Save filename) tt;
      mret (cxx "{`result`:`Success`}")
    else if one_of method ["Npp_GetSelection"; "getSelectedText"; "GetSelectedText"] then
      sel ← editor Npp_GetSelection selection;
      let result := Object (set_member "result" (Str sel) []) in
      quiet (dump result)
    else if one_of method ["Npp_ReplaceSelection"; "replaceSelection"; "ReplaceSelection"] then
      text ← quiet (text_argument j);
      _ ← editor (Npp_ReplaceSelection text) tt;
      mret (cxx "{`result`:`Success`}")
    else
      mret (cxx "{`error`:`Method not found: " +:+ method +:+ cxx "`}")
  else mret (cxx "{`error`:`No method specified`}").

(** [ManualDispatch(cmdJson)]: the calls made and the text returned.
    The handler catches every [std::exception]; anything else would
    leave the function. *)
Definition ManualDispatch `{Platform} (selection : string) (cmdJson : string)
  : exception + (list call * string) :=
  let block := Body selection cmdJson in
  match went block with
  | Normal r | Return r => inr (calls block, r)
  | Throw (parse_error what) | Throw (std_exception what) =>
      inr (calls block, cxx "{`error`:`Dispatch Exception: " +:+ what +:+ cxx "`}")
  | Throw unknown_exception => inl unknown_exception
  end.

End RailNPP.

(** *** PowerEditor/src/RailExtension.cpp *)

Module RailExtension.
Import Json JsonText.

Inductive call : Type :=
| Npp_New
| Npp_Write (text : string)
| Npp_Save (filename : string).

(** The first element of "params", for [Npp_Write] and [Npp_Save] *)
Definition first_param (j : json) : outcome string :=
  if contains j "params" && is_array (at_key j "params")
     && negb (size (at_key j "params") =? 0)
  then get_string (at_index (at_key j "params") 0)
  else Normal "".

Definition Body `{Platform} (cmdJson : string) : outcome (list call * string) :=
  j ← parse cmdJson;
  (* Check method name *)
  if contains j "method" then
    method ← get_string (at_key j "method");
    (* Implicit context splitting "Notepad.Write" -> "Write" *)
    let method := after_first_dot method in
    if String.eqb method "Npp_New" || String.eqb method "fileNew" then
      Normal ([Npp_New], cxx "{`result`:`Success`}")
    else if String.eqb method "Npp_Write" || String.eqb method "writeText" then
      text ← first_param j;
      Normal ([Npp_Write text], cxx "{`result`:`Success`}")
    else if String.eqb method "Npp_Save" || String.eqb method "saveFile" then
      filename ← first_param j;
      Normal ([Npp_Save filename], cxx "{`result`:`Success`}")
    else Normal ([], cxx "{`error`:`Unknown method`}")
  else Normal ([], cxx "{`error`:`No method specified`}").

Definition ManualDispatch `{Platform} (cmdJson : string)
  : exception + (list call * string) :=
  match Body cmdJson with
  | Normal r => inr r
  | Return r => inr ([], r)
  | Throw (parse_error what) | Throw (std_exception what) =>
      inr ([], cxx "{`error`:`" +:+ what +:+ cxx "`}")
  | Throw unknown_exception => inl unknown_exception
  end.

End RailExtension.

(** ** rail_doom.cpp

    The agent of the Doom port.  The file reads three constants and the
    type [ticcmd_t] from the headers of the game, which are not among the
    sources, and it computes with [double]; these, and what [atoi] does
    with a number that does not fit an [int], are the fields of [Game].
    The lines written with [printf] are left out. *)

Module Doom.

Class Game : Type := {
  BT_ATTACK : Z;
  BT_USE : Z;
  CF_GODMODE : Z;
  (** the conversion of an [int] to the type of the field of [ticcmd_t] *)
  to_forwardmove : Z -> Z;
  to_sidemove : Z -> Z;
  to_angleturn : Z -> Z;
  to_buttons : Z -> Z;
  (** [(int)((double)ms / 1000.0 * 35.0)] *)
  tics_of_ms : Z -> Z;
  (** [(int)(degrees * (65536.0 / 360.0))] *)
  units_of_degrees : Z -> Z;
  (** [atoi] on a number outside the range of [int] *)
  atoi_out_of_range : Z -> Z
}.

(** *** <cctype>, <string>, <stdlib.h> *)

(** [::tolower] in the C locale *)
Definition tolower (c : ascii) : ascii :=
  if in_range 65 90 c then ascii_of_N (code c + 32) else c.

(** [std::transform(s.begin(), s.end(), s.begin(), ::tolower)] *)
Fixpoint lower (s : string) : string :=
  match s with
  | EmptyString => EmptyString
  | String c r => String (tolower c) (lower r)
  end.

Fixpoint starts_with (needle s : string) : bool :=
  match needle, s with
  | EmptyString, _ => true
  | String a needle', String b s' => Ascii.eqb a b && starts_with needle' s'
  | String _ _, EmptyString => false
  end.

(** [s.find(needle)]: the index of the first occurrence, [None] for
    [npos] *)
Fixpoint find (needle s : string) : option nat :=
  if starts_with needle s then Some 0
  else match s with
       | EmptyString => None
       | String _ r => S <$> find needle r
       end.

Fixpoint member (c : ascii) (chars : string) : bool :=
  match chars with
  | EmptyString => false
  | String a r => Ascii.eqb a c || member c r
  end.

(** [s.find_first_of(chars, pos)] *)
Fixpoint find_first_of (chars s : string) (pos : nat) : option nat :=
  match s with
  | EmptyString => None
  | String c r =>
      match pos with
      | O => if member c chars then Some 0 else S <$> find_first_of chars r 0
      | S pos' => S <$> find_first_of chars r pos'
      end
  end.

(** [atoi(s)] *)
Definition atoi `{Game} (s : string) : Z :=
  match Std.strtol s with
  | None => 0%Z
  | Some v =>
      if ((Std.INT_MIN <=? v) && (v <=? Std.INT_MAX))%Z then v
      else atoi_out_of_range v
  end.

(** *** The state of the file *)

Record AgentState : Type := {
  move_tics : Z;
  forward_move : Z;
  side_move : Z;
  turn_tics : Z;
  angle_turn : Z;
  fire_tics : Z;
  use_tics : Z
}.

(** the fields of [ticcmd_t] the file writes *)
Record ticcmd_t : Type := {
  forwardmove : Z;
  sidemove : Z;
  angleturn : Z;
  buttons : Z
}.

(** the fields of [players[consoleplayer]] the file writes *)
Record player_t : Type := {
  cheats : Z;
  message : string
}.

Record state : Type := {
  g_agent : AgentState;
  player : player_t
}.

(** [static AgentState g_agent = {0}] *)
Definition idle : AgentState := {|
  move_tics := 0%Z; forward_move := 0%Z; side_move := 0%Z;
  turn_tics := 0%Z; angle_turn := 0%Z; fire_tics := 0%Z; use_tics := 0%Z
|}.

Definition MsToTics `{Game} (ms : Z) : Z :=
  if (ms <=? 0)%Z then 0%Z else tics_of_ms ms.

(** [Rail_OverrideInput(cmd)]: the command and the agent after the call *)
Definition Rail_OverrideInput `{Game} (cmd : ticcmd_t) (a : AgentState)
  : ticcmd_t * AgentState :=
  (* 1. Movement *)
  let '(cmd, a) :=
    if (0 <? move_tics a)%Z then
      ({| forwardmove := to_forwardmove (forward_move a);
          sidemove := to_sidemove (side_move a);
          angleturn := angleturn cmd; buttons := buttons cmd |},
       {| move_tics := move_tics a - 1; forward_move := forward_move a;
          side_move := side_move a; turn_tics := turn_tics a;
          angle_turn := angle_turn a; fire_tics := fire_tics a;
          use_tics := use_tics a |})
    else (cmd, a) in
  (* 2. Turning *)
  let '(cmd, a) :=
    if (0 <? turn_tics a)%Z then
      ({| forwardmove := forwardmove cmd; sidemove := sidemove cmd;
          angleturn := to_angleturn (angle_turn a); buttons := buttons cmd |},
       {| move_tics := move_tics a; forward_move := forward_move a;
          side_move := side_move a; turn_tics := turn_tics a - 1;
          angle_turn := angle_turn a; fire_tics := fire_tics a;
          use_tics := use_tics a |})
    else (cmd, a) in
  (* 3. Firing *)
  let '(cmd, a) :=
    if (0 <? fire_tics a)%Z then
      ({| forwardmove := forwardmove cmd; sidemove := sidemove cmd;
          angleturn := angleturn cmd;
          buttons := to_buttons (Z.lor (buttons cmd) BT_ATTACK) |},
       {| move_tics := move_tics a; forward_move := forward_move a;
          side_move := side_move a; turn_tics := turn_tics a;
          angle_turn := angle_turn a; fire_tics := fire_tics a - 1;
          use_tics := use_tics a |})
    else (cmd, a) in
  (* 4. Using (Open Doors) *)
  if (0 <? use_tics a)%Z then
    ({| forwardmove := forwardmove cmd; sidemove := sidemove cmd;
        angleturn := angleturn cmd;
        buttons := to_buttons (Z.lor (buttons cmd) BT_USE) |},
     {| move_tics := move_tics a; forward_move := forward_move a;
        side_move := side_move a; turn_tics := turn_tics a;
        angle_turn := angle_turn a; fire_tics := fire_tics a;
        use_tics := use_tics a - 1 |})
  else (cmd, a).

(** *** The commands *)

Definition Doom_GodMode `{Game} (p : player_t) : player_t := {|
  cheats := Z.lxor (cheats p) CF_GODMODE;
  message := "Rail AGENT: GOD MODE TOGGLED"
|}.

Definition Doom_Move `{Game} (direction : string) (ms : Z) (a : AgentState)
  : AgentState :=
  let tics := MsToTics ms in
  let dir := lower direction in
  let '(forward, side) :=
    if String.eqb dir "forward" then (50, 0)%Z       (* 0x32 *)
    else if String.eqb dir "backward" then (-50, 0)%Z
    else if String.eqb dir "left" then (0, -40)%Z    (* -0x28 *)
    else if String.eqb dir "right" then (0, 40)%Z
    else (0, 0)%Z in
  {| move_tics := tics; forward_move := forward; side_move := side;
     turn_tics := turn_tics a; angle_turn := angle_turn a;
     fire_tics := fire_tics a; use_tics := use_tics a |}.

Definition Doom_Rotate `{Game} (degrees : Z) (a : AgentState) : AgentState :=
  let total_units := units_of_degrees degrees in
  let duration_tics := 10%Z in
  {| move_tics := move_tics a; forward_move := forward_move a;
     side_move := side_move a; turn_tics := duration_tics;
     angle_turn := Z.quot total_units duration_tics;
     fire_tics := fire_tics a; use_tics := use_tics a |}.

Definition Doom_Shoot `{Game} (ms : Z) (a : AgentState) : AgentState :=
  let ms := if (ms <=? 0)%Z then 300%Z else ms in
  {| move_tics := move_tics a; forward_move := forward_move a;
     side_move := side_move a; turn_tics := turn_tics a;
     angle_turn := angle_turn a; fire_tics := MsToTics ms;
     use_tics := use_tics a |}.

Definition Doom_Use (a : AgentState) : AgentState :=
  {| move_tics := move_tics a; forward_move := forward_move a;
     side_move := side_move a; turn_tics := turn_tics a;
     angle_turn := angle_turn a; fire_tics := fire_tics a;
     use_tics := 5%Z |}.

(** The number after a key: [find_first_of] from the key on, then
    [atoi]; [fallback] when the key or a first character is not
    found. *)
Definition number_after `{Game} (key chars : string) (fallback : Z)
    (cmd_lower : string) : Z :=
  match find key cmd_lower with
  | Some key_pos =>
      match find_first_of chars cmd_lower key_pos with
      | Some val_start => atoi (Rail.c_str (substr_from cmd_lower val_start))
      | None => fallback
      end
  | None => fallback
  end.

Definition is_found (pos : option nat) : bool :=
  match pos with Some _ => true | None => false end.

(** [DoomDispatch(command_json)]: the text returned and the state after
    the call *)
Definition DoomDispatch `{Game} (command_json : string) (st : state)
  : string * state :=
  (* 1. Normalize parsing by converting input to lowercase *)
  let cmd_lower := lower command_json in
  if is_found (find "godmode" cmd_lower) then
    (cxx "{`result`: `success`}",
     {| g_agent := g_agent st; player := Doom_GodMode (player st) |})
  else if is_found (find "move" cmd_lower) then
    let dir :=
      if is_found (find "backward" cmd_lower) then "backward"
      else if is_found (find "left" cmd_lower) then "left"
      else if is_found (find "right" cmd_lower) then "right"
      else "forward" in
    let ms := number_after (cxx "`ms`") "0123456789" 1000%Z cmd_lower in
    (cxx "{`result`: `success`}",
     {| g_agent := Doom_Move dir ms (g_agent st); player := player st |})
  else if is_found (find "rotate" cmd_lower) then
    let deg := number_after (cxx "`degrees`") "-0123456789" 0%Z cmd_lower in
    (cxx "{`result`: `success`}",
     {| g_agent := Doom_Rotate deg (g_agent st); player := player st |})
  else if is_found (find "shoot" cmd_lower) then
    (cxx "{`result`: `success`}",
     {| g_agent := Doom_Shoot 300%Z (g_agent st); player := player st |})
  else if is_found (find "use" cmd_lower) then
    (cxx "{`result`: `success`}",
     {| g_agent := Doom_Use (g_agent st); player := player st |})
  else (cxx "{`error`: `unknown command`}", st).

End Doom.

(** ** examples/legacy_code/OrderManager.h

    The class the SDK's example exposes.  [_nextId++] on the largest
    [int] is undefined: [CreateOrder] has no result there.  The lines
    written to [std::cout] are left out. *)

Module Orders.

Record Order : Type := {
  id : Z;
  client : string;
  quantity : Z
}.

Record OrderManager : Type := {
  _orders : list Order;
  _nextId : Z
}.

(** [OrderManager() = default], with [_nextId = 1000] *)
Definition fresh : OrderManager := {| _orders := []; _nextId := 1000 |}.

(** [CreateOrder(clientName, quantity)]: the value returned and the
    manager after the call *)
Definition CreateOrder (clientName : string) (quantity : Z) (m : OrderManager)
  : option (bool * OrderManager) :=
  if (_nextId m <? Std.INT_MAX)%Z then
    let o := {| id := _nextId m; client := clientName; quantity := quantity |} in
    Some (true, {| _orders := _orders m ++ [o]; _nextId := _nextId m + 1 |})
  else None.

(** [GetOrderCount()]: [(int)_orders.size()] *)
Definition GetOrderCount (m : OrderManager) : Z :=
  Json.to_int (Z.of_nat (length (_orders m))).

(** [CancelOrder(orderId)] *)
Definition CancelOrder (orderId : Z) (m : OrderManager) : OrderManager := m.

End Orders.

(** ** Notions the statements use *)

Module Notions.
Import Json JsonText Rttr Dispatcher.

(** [c] occurs in [s]. *)
Fixpoint occurs (c : ascii) (s : string) : bool :=
  match s with
  | EmptyString => false
  | String a r => Ascii.eqb a c || occurs c r
  end.

(** [last_segment full name]: [name] is [full] without everything up to
    and including its last dot. *)
Inductive last_segment : string -> string -> Prop :=
| segment_whole (s : string) :
    occurs "." s = false -> last_segment s s
| segment_after (left right : string) :
    occurs "." right = false -> last_segment (left +:+ "." +:+ right) right.

(** What the dispatcher does with a context and an effective method
    name: steps 2 and 4 of [DispatchCommand]. *)
Definition Locate (w : world) (_instances : gmap string variant)
    (context methodName : string) : outcome (variant * method) :=
  let instance := InstanceRegistry.Get _instances context in
  if negb (is_valid instance) then
    Return (cxx "{`error`: `Instance not found: " +:+ context +:+ cxx "`}")
  else
    let '(type, instance) := Unwrap w instance in
    match get_method w type methodName with
    | None =>
        Return (cxx "{`error`: `Method not found: " +:+ methodName
                +:+ " on type " +:+ get_name w type +:+ cxx "`}")
    | Some method => Normal (instance, method)
    end.

(** The command has an explicit class: a "class" member that is not null. *)
Definition has_class (cmd : json) : bool :=
  contains cmd "class" && negb (is_null (at_key cmd "class")).

(** The JSON value a command supplies for the parameter [param] at index
    [i]: by index when "args" is an array, by the parameter's name when
    it is an object, none otherwise. *)
Definition supplied (cmd : json) (i : nat) (param : parameter_info) : option json :=
  if contains cmd "args" then
    match at_key cmd "args" with
    | Array elements => elements !! i
    | Object members => find_member (param_name param) members
    | _ => None
    end
  else None.

(** The argument bound to a parameter: the coercion of the supplied
    value to the parameter's type, the invalid variant (the slot stays
    unbound) when none is supplied. *)
Definition bound `{Platform} (supply : nat -> parameter_info -> option json)
    (i : nat) (param : parameter_info) : outcome variant :=
  match supply i param with
  | Some jVal => JsonToVariant jVal (param_type param)
  | None => Normal invalid
  end.

(** The bound arguments of the parameters [params], the first of which
    has index [i], in the order of the parameters. *)
Fixpoint bound_from `{Platform} (supply : nat -> parameter_info -> option json)
    (i : nat) (params : list parameter_info) : outcome (list variant) :=
  match params with
  | [] => Normal []
  | param :: rest =>
      v ← bound supply i param;
      vs ← bound_from supply (S i) rest;
      Normal (v :: vs)
  end.

(** [cmd] with its "args" member set to [jArgs]. *)
Definition with_args (jArgs : json) (cmd : json) : json :=
  match cmd with
  | Object members => Object (set_member "args" jArgs members)
  | _ => cmd
  end.

(** [cmd] without its "args" member. *)
Definition without_args (cmd : json) : json :=
  match cmd with
  | Object members => Object (erase_member "args" members)
  | _ => cmd
  end.

(** Two commands agree on every member but "args". *)
Definition same_but_args (cmd cmd' : json) : Prop :=
  forall key, key <> "args" ->
    contains cmd key = contains cmd' key /\ at_key cmd key = at_key cmd' key.

(** The methods of the catalog: every method of every class-like type,
    in traversal order, with its type. *)
Definition catalog_methods (w : world) : list (type * method) :=
  t ← filter (fun t => is_class w t = true) (get_types w);
  meth ← get_methods w t;
  [(t, meth)].

(** The entry of a method in the "functions" array. *)
Definition entry `{Platform} (w : world) (tm : type * method) : string :=
  ManifestGenerator.Function w (get_name w tm.1) tm.2.

(** The description of a method: its "description" metadata, the empty
    string when it has none. *)
Definition description `{Platform} (w : world) (meth : method) : string :=
  match get_metadata meth "description" with
  | invalid => ""
  | descVar => to_string w descVar
  end.

(** The elements of a JSON array as the generator writes them: a comma
    before every item but the first. *)
Fixpoint separated_from (first : bool) (items : list string) : string :=
  match items with
  | [] => ""
  | item :: rest =>
      (if first then "" else ",") +:+ item +:+ separated_from false rest
  end.

Definition separated (items : list string) : string := separated_from true items.

(** The catalog [w] traversed in the order [types]. *)
Definition traversed (types : list type) (w : world) : world := {|
  get_types := types;
  get_name := get_name w;
  is_class := is_class w;
  is_pointer := is_pointer w;
  is_wrapper := is_wrapper w;
  get_raw_type := get_raw_type w;
  get_wrapped_type := get_wrapped_type w;
  extract_wrapped_value := extract_wrapped_value w;
  get_methods := get_methods w;
  get_method := get_method w;
  object_to_string := object_to_string w
|}.

(** The entry of a parameter in the "parameters" array of its method. *)
Definition parameter_entry (w : world) (p : parameter_info) : string :=
  "{"
  +:+ cxx "`name`: `" +:+ ManifestGenerator.EscapeJson (param_name p) +:+ cxx "`,"
  +:+ cxx "`type`: `" +:+ ManifestGenerator.EscapeJson (get_name w (param_type p)) +:+ cxx "`"
  +:+ "}".

(** With fuel [n] the parser found a value in front of [rest]: it consumed
    input, and twice the number of characters consumed is fuel enough. *)
Definition adequate {A : Type} (run : nat -> string -> JsonText.reading (A * string))
    (n : nat) : Prop :=
  forall s a rest,
    run n s = JsonText.Read (a, rest) ->
    String.length rest < String.length s
    /\ forall m, 2 * (String.length s - String.length rest) <= m ->
                 run m s = JsonText.Read (a, rest).

(** With fuel [n] the parser stopped at a number that is not finite: it
    stops there with any fuel of twice the length of the input, less
    [slack]. *)
Definition stops {A : Type} (run : nat -> string -> JsonText.reading (A * string))
    (slack n : nat) : Prop :=
  forall s token,
    run n s = JsonText.Overflow token ->
    forall m, 2 * String.length s <= m + slack -> run m s = JsonText.Overflow token.

(** The JSON values the manifest denotes: a parameter, a method entry and
    the whole document. *)
Definition parameter_json (w : world) (p : parameter_info) : json :=
  Object [("name", Str (param_name p));
          ("type", Str (get_name w (param_type p)))].

Definition entry_json `{Platform} (w : world) (tm : type * method) : json :=
  Object [("description", Str (description w tm.2));
          ("name", Str (get_name w tm.1 +:+ "." +:+ method_name tm.2));
          ("parameters", Array (map (parameter_json w) (parameter_infos tm.2)))].

Definition manifest_json `{Platform} (w : world) (appName : string) : json :=
  Object [("appName", Str appName);
          ("functions", Array (map (entry_json w) (catalog_methods w)));
          ("language", Str "cpp")].

(** The names and descriptions of the catalog are UTF-8. *)
Definition parameter_utf8 (w : world) (p : parameter_info) : Prop :=
  utf8_valid (param_name p) = true
  /\ utf8_valid (get_name w (param_type p)) = true.

Definition entry_utf8 `{Platform} (w : world) (tm : type * method) : Prop :=
  utf8_valid (get_name w tm.1 +:+ "." +:+ method_name tm.2) = true
  /\ utf8_valid (description w tm.2) = true
  /\ Forall (parameter_utf8 w) (parameter_infos tm.2).

Definition catalog_utf8 `{Platform} (w : world) : Prop :=
  Forall (entry_utf8 w) (catalog_methods w).

(** The texts [DispatchCommand] returns: an error envelope around a
    message, the void envelope, and the serialization of the object
    whose one member, result, is a string. *)
Definition error_envelope (message : string) : string :=
  cxx "{`error`: `" +:+ message +:+ cxx "`}".

Definition void_envelope : string := cxx "{`result`: `void`}".

Definition result_envelope (s : string) : string :=
  cxx "{`result`:`" +:+ escape s +:+ cxx "`}".

(** How the messages of the error envelopes begin. *)
Definition error_prefixes : list string :=
  [ "JSON parse error: "; "Dispatch exception: "; "Unknown dispatch error";
    "Invalid JSON command structure: "; "Instance not found: "; "Method not found: ";
    "Too many arguments (max 6 supported)";
    "Invocation failed (returned invalid variant)" ].

Definition is_error (response : string) : Prop :=
  exists prefix detail,
    In prefix error_prefixes /\ response = error_envelope (prefix +:+ detail).

(** A character that a JSON string holds as it is, and the strings of
    such characters that are UTF-8: they need no escaping. *)
Definition unescaped (c : ascii) : bool :=
  negb (Ascii.eqb c dquote) && negb (Ascii.eqb c "\") && negb (in_range 0 31 c).

Fixpoint all_unescaped (s : string) : bool :=
  match s with
  | EmptyString => true
  | String c r => unescaped c && all_unescaped r
  end.

Definition plain (s : string) : bool := all_unescaped s && utf8_valid s.

(** Every character of [s] is white space for [isspace]. *)
Fixpoint all_space (s : string) : bool :=
  match s with
  | EmptyString => true
  | String c r => Std.isspace c && all_space r
  end.

(** [s] starts with a decimal digit. *)
Definition digit_head (s : string) : bool :=
  match s with
  | String c _ => is_digit c
  | EmptyString => false
  end.

(** An argument fits a parameter: it is unset, or of the parameter's
    declared type. *)
Definition fits (param : parameter_info) (v : variant) : Prop :=
  v = invalid \/ get_type v = param_type param.

(** No character of [s] is a control character, [0x00] to [0x1f]. *)
Fixpoint no_control (s : string) : bool :=
  match s with
  | EmptyString => true
  | String c r => negb (in_range 0 31 c) && no_control r
  end.


(** The error texts of the Notepad++ dispatchers, without a blank after
    the colon. *)
Definition npp_error (message : string) : string :=
  cxx "{`error`:`" +:+ message +:+ cxx "`}".

(** An outcome that is a value or a [std::exception]: no [return]
    inside, and no object of another type thrown. *)
Definition raises {A : Type} (m : outcome A) : Prop :=
  match m with
  | Normal _ => True
  | Return _ => False
  | Throw e => exists what, e = std_exception what
  end.

(** The hook of the Doom agent called once per tic, on the commands the
    game builds: the commands as the hook leaves them, and the agent
    after the last. *)
Fixpoint run `{Doom.Game} (cmds : list Doom.ticcmd_t) (a : Doom.AgentState)
  : list Doom.ticcmd_t * Doom.AgentState :=
  match cmds with
  | [] => ([], a)
  | cmd :: rest =>
      let '(cmd', a') := Doom.Rail_OverrideInput cmd a in
      let '(rest', a'') := run rest a' in
      (cmd' :: rest', a'')
  end.

(** An override whose counter is [tics] is in force at tic [k], counted
    from 0. *)
Definition in_force (k : nat) (tics : Z) : bool := (Z.of_nat k <? tics)%Z.

(** The command of tic [k] as an agent in the state [a] at tic 0 leaves
    it. *)
Definition held `{Doom.Game} (a : Doom.AgentState) (k : nat) (cmd : Doom.ticcmd_t)
  : Doom.ticcmd_t :=
  let fire b :=
    if in_force k (Doom.fire_tics a) then Doom.to_buttons (Z.lor b Doom.BT_ATTACK)
    else b in
  let use b :=
    if in_force k (Doom.use_tics a) then Doom.to_buttons (Z.lor b Doom.BT_USE)
    else b in
  {| Doom.forwardmove :=
       if in_force k (Doom.move_tics a)
       then Doom.to_forwardmove (Doom.forward_move a) else Doom.forwardmove cmd;
     Doom.sidemove :=
       if in_force k (Doom.move_tics a)
       then Doom.to_sidemove (Doom.side_move a) else Doom.sidemove cmd;
     Doom.angleturn :=
       if in_force k (Doom.turn_tics a)
       then Doom.to_angleturn (Doom.angle_turn a) else Doom.angleturn cmd;
     Doom.buttons := use (fire (Doom.buttons cmd)) |}.

(** A counter [n] tics later. *)
Definition counted_down (n : nat) (tics : Z) : Z :=
  if (0 <? tics)%Z then Z.max 0 (tics - Z.of_nat n) else tics.

(** The agent [n] tics later. *)
Definition elapsed (n : nat) (a : Doom.AgentState) : Doom.AgentState := {|
  Doom.move_tics := counted_down n (Doom.move_tics a);
  Doom.forward_move := Doom.forward_move a;
  Doom.side_move := Doom.side_move a;
  Doom.turn_tics := counted_down n (Doom.turn_tics a);
  Doom.angle_turn := Doom.angle_turn a;
  Doom.fire_tics := counted_down n (Doom.fire_tics a);
  Doom.use_tics := counted_down n (Doom.use_tics a)
|}.

(** The command text mentions a word, in any case and anywhere. *)
Definition mentions (word command : string) : bool :=
  Doom.is_found (Doom.find word (Doom.lower command)).

(** The calls a client makes on an order manager, and the manager after
    a sequence of them; [None] when a call has no defined result. *)
Inductive order_call : Type :=
| create_order (clientName : string) (quantity : Z)
| get_order_count
| cancel_order (orderId : Z).

Definition order_step (c : order_call) (m : Orders.OrderManager)
  : option Orders.OrderManager :=
  match c with
  | create_order clientName quantity => snd <$> Orders.CreateOrder clientName quantity m
  | get_order_count => Some m
  | cancel_order orderId => Some (Orders.CancelOrder orderId m)
  end.

Fixpoint order_steps (calls : list order_call) (m : Orders.OrderManager)
  : option Orders.OrderManager :=
  match calls with
  | [] => Some m
  | c :: rest => m' ← order_step c m; order_steps rest m'
  end.

(** The orders a sequence of calls asks for, in order. *)
Fixpoint created (calls : list order_call) : list (string * Z) :=
  match calls with
  | [] => []
  | create_order clientName quantity :: rest => (clientName, quantity) :: created rest
  | _ :: rest => created rest
  end.

(** No character of [s] is one of [chars]. *)
Fixpoint free_of (chars s : string) : bool :=
  match s with
  | EmptyString => true
  | String c r => negb (Doom.member c chars) && free_of chars r
  end.

End Notions.

(** * Properties *)

Module Facts.
Import Json JsonText Rttr Dispatcher Notions.

(** ** Strings *)

Local Arguments String.append : simpl nomatch.

Lemma append_nil_r (s : string) : s +:+ "" = s.
Proof. induction s as [|a s IH]; simpl; congruence. Qed.

Lemma append_assoc (s t u : string) : (s +:+ t) +:+ u = s +:+ (t +:+ u).
Proof. induction s as [|a s IH]; simpl; congruence. Qed.

Lemma length_append (s t : string) :
  String.length (s +:+ t) = String.length s + String.length t.
Proof. induction s as [|a s IH]; simpl; congruence. Qed.

(** ** Reading a text *)

Lemma read_of_value (fuel : nat) (s : string) (j : json) (rest : string) :
  parse_value fuel s = Some (j, rest) <-> read_value fuel s = Read (j, rest).
Proof.
  unfold parse_value. destruct (read_value fuel s); simpl; split; congruence.
Qed.

Lemma read_of_text (text : string) (j : json) :
  parse_text text = Some j <-> read_text text = Read j.
Proof.
  unfold parse_text. destruct (read_text text); simpl; split; congruence.
Qed.

(** [json::parse] returns what the text reads as. *)
Lemma parse_of_text `{Platform} (text : string) (j : json) :
  parse_text text = Some j -> parse text = Normal j.
Proof. intros Hparse%read_of_text. unfold parse. by rewrite Hparse. Qed.

(** The largest [double] is 2^1024 - 2^971, which is
    1.7976931348623157e308 to seventeen digits: that literal is finite,
    and so is the next one, which is nearer to it than to 2^1024; 1e309
    is not.  A number that is not finite stops the reading where it
    stands, before what follows it is looked at, and also in a member
    that a later member of the same key would replace. *)
Lemma not_finite_around_the_largest_double :
  not_finite "1" ".7976931348623157" "e308" = false
  /\ not_finite "1" ".7976931348623158" "e308" = false
  /\ not_finite "1" ".7976931348623159" "e308" = true
  /\ not_finite "1" "" "e308" = false
  /\ not_finite "1" "" "E+309" = true
  /\ not_finite "0" ".0000001" "e316" = true
  /\ not_finite "0" "" "e999" = false
  /\ not_finite "1" "" "e-999" = false.
Proof. by vm_compute. Qed.

Lemma read_text_overflow :
  read_text "1e999" = Overflow "1e999"
  /\ read_text "[-1e999, @" = Overflow "-1e999"
  /\ read_text (cxx "{`zz`: 1e999, `zz`: 0}") = Overflow "1e999"
  /\ read_text "[@, 1e999]" = Malformed
  /\ read_text "18446744073709551616" = Read (NumberFloat "18446744073709551616").
Proof. by vm_compute. Qed.

(** A NUL after the value is the end of the input. *)
Lemma read_text_NUL :
  read_text (String "1" (String "000" "x")) = Read (NumberUnsigned 1)
  /\ read_text (String "000" "1") = Malformed.
Proof. by vm_compute. Qed.

Lemma rfind_None (c : ascii) (s : string) :
  rfind c s = None <-> occurs c s = false.
Proof.
  induction s as [|a s IH]; simpl; [tauto |].
  destruct (rfind c s) as [i|].
  - split; [discriminate |].
    intros [_ Hs]%orb_false_iff. apply IH in Hs. discriminate.
  - destruct (Ascii.eqb a c); simpl; [split; discriminate |].
    split; intros _; [by apply IH | reflexivity].
Qed.

Lemma rfind_last (c : ascii) (left right : string) :
  occurs c right = false ->
  rfind c (left +:+ String c right) = Some (String.length left).
Proof.
  intros Hr. induction left as [|a left IH]; simpl.
  - apply rfind_None in Hr. rewrite Hr. by rewrite Ascii.eqb_refl.
  - by rewrite IH.
Qed.

Lemma substr_to_append (left rest : string) :
  substr_to (left +:+ rest) (String.length left) = left.
Proof. induction left as [|a left IH]; simpl; [by destruct rest | by rewrite IH]. Qed.

Lemma substr_from_append (left rest : string) :
  substr_from (left +:+ rest) (String.length left) = rest.
Proof. induction left as [|a left IH]; simpl; [by destruct rest | exact IH]. Qed.

Lemma substr_from_last (c : ascii) (left right : string) :
  substr_from (left +:+ String c right) (S (String.length left)) = right.
Proof. induction left as [|a left IH]; simpl; [by destruct right | exact IH]. Qed.

Lemma eqb_suffix_false (c : ascii) (left right : string) :
  String.eqb right (left +:+ String c right) = false.
Proof.
  apply String.eqb_neq. intros Heq.
  apply (f_equal String.length) in Heq.
  rewrite length_append in Heq. simpl in Heq. lia.
Qed.

(** Every string has exactly one last segment. *)
Lemma last_segment_exists (full : string) : exists name, last_segment full name.
Proof.
  induction full as [|a full [name IH]].
  - exists "". by constructor.
  - destruct IH as [s Hs|left right Hr].
    + destruct (Ascii.eqb a ".") eqn:Ha.
      * apply Ascii.eqb_eq in Ha. subst a. exists s.
        exact (segment_after "" s Hs).
      * exists (String a s). constructor. simpl. by rewrite Ha.
    + exists right. exact (segment_after (String a left) right Hr).
Qed.

(** The re-split of step 3 on a name that step 1 left whole. *)
Lemma ResolveMethodName_whole (full name : string) :
  last_segment full name -> ResolveMethodName full full = name.
Proof.
  unfold ResolveMethodName. rewrite String.eqb_refl.
  intros [s Hs|left right Hr].
  - apply rfind_None in Hs. by rewrite Hs.
  - simpl. rewrite (rfind_last _ _ _ Hr). apply substr_from_last.
Qed.

(** Step 3 leaves alone a name that step 1 split. *)
Lemma ResolveMethodName_split (left right : string) :
  ResolveMethodName right (left +:+ "." +:+ right) = right.
Proof. unfold ResolveMethodName. simpl. by rewrite eqb_suffix_false. Qed.

Lemma last_segment_unique (full n1 n2 : string) :
  last_segment full n1 -> last_segment full n2 -> n1 = n2.
Proof.
  intros H1 H2.
  apply ResolveMethodName_whole in H1, H2. congruence.
Qed.

End Facts.

(** ** Context and method-name resolution *)

Module Resolution.
Import Json JsonText Rttr Dispatcher Notions Facts.

Section Resolve.
Variable w : world.
Variable _instances : gmap string variant.

(** [Resolve] after a successful step 1. *)
Lemma Resolve_located (cmd : json) (full context methodName : string) :
  contains cmd "method" = true ->
  at_key cmd "method" = Str full ->
  ResolveContext cmd full = Normal (context, methodName) ->
  Resolve w _instances cmd
  = Locate w _instances context (ResolveMethodName methodName full).
Proof.
  intros Hm Hfull Hctx. unfold Resolve, Locate.
  rewrite Hm, Hfull. simpl. rewrite Hctx. simpl.
  destruct (is_valid (InstanceRegistry.Get _instances context)); simpl; [|reflexivity].
  destruct (Unwrap w (InstanceRegistry.Get _instances context)) as [type instance].
  reflexivity.
Qed.

Lemma ResolveContext_class (cmd : json) (full c : string) :
  has_class cmd = true -> at_key cmd "class" = Str c ->
  ResolveContext cmd full = Normal (c, full).
Proof.
  intros Hc Hv. unfold ResolveContext.
  change (contains cmd "class" && negb (is_null (at_key cmd "class")))
    with (has_class cmd).
  by rewrite Hc, Hv.
Qed.

Lemma ResolveContext_context (cmd : json) (full c : string) :
  has_class cmd = false -> contains cmd "context" = true ->
  at_key cmd "context" = Str c ->
  ResolveContext cmd full = Normal (c, full).
Proof.
  intros Hc Hx Hv. unfold ResolveContext.
  change (contains cmd "class" && negb (is_null (at_key cmd "class")))
    with (has_class cmd).
  by rewrite Hc, Hx, Hv.
Qed.

Lemma ResolveContext_split (cmd : json) (left right : string) :
  has_class cmd = false -> contains cmd "context" = false ->
  occurs "." right = false ->
  ResolveContext cmd (left +:+ "." +:+ right) = Normal (left, right).
Proof.
  intros Hc Hx Hr. unfold ResolveContext.
  change (contains cmd "class" && negb (is_null (at_key cmd "class")))
    with (has_class cmd).
  rewrite Hc, Hx.
  change (left +:+ "." +:+ right) with (left +:+ String "." right).
  rewrite (rfind_last _ _ _ Hr), substr_to_append, substr_from_last.
  reflexivity.
Qed.

Lemma ResolveContext_no_dot (cmd : json) (full : string) :
  has_class cmd = false -> contains cmd "context" = false ->
  occurs "." full = false ->
  ResolveContext cmd full
  = Return (cxx "{`error`: `Invalid JSON command structure: missing class or context, and method name '"
            +:+ full +:+ cxx "' has no dot separator.`}").
Proof.
  intros Hc Hx Hr. unfold ResolveContext.
  change (contains cmd "class" && negb (is_null (at_key cmd "class")))
    with (has_class cmd).
  apply rfind_None in Hr. by rewrite Hc, Hx, Hr.
Qed.

End Resolve.

(** The [try] block on a text that parses. *)
Lemma Body_parsed `{Platform} (w : world) (_instances : gmap string variant)
    (jsonCmd : string) (cmd : json) :
  parse_text jsonCmd = Some cmd ->
  Body w _instances jsonCmd
  = ('(instance, method) ← Resolve w _instances cmd;
     argsVariants ← BuildArguments cmd (parameter_infos method);
     result ← Invoke method instance argsVariants;
     Serialize w method result).
Proof. intros Hparse. unfold Body. by rewrite (parse_of_text _ _ Hparse). Qed.

(** Up to six arguments, the call shape of their count passes them all,
    in order. *)
Lemma Invoke_passes_arguments (method : method) (instance : variant)
    (argsVariants : list variant) :
  length argsVariants <= 6 ->
  Invoke method instance argsVariants = call (invoke method instance argsVariants).
Proof.
  intros Hlen.
  do 7 (destruct argsVariants as [|? argsVariants]; [reflexivity |]).
  simpl in Hlen. lia.
Qed.

(** An exception of steps 1 to 4 is answered by the handler of
    [std::exception]. *)
Lemma DispatchCommand_thrown `{Platform} (w : world) (_instances : gmap string variant)
    (jsonCmd : string) (cmd : json) (what : string) :
  parse_text jsonCmd = Some cmd ->
  Resolve w _instances cmd = Throw (std_exception what) ->
  DispatchCommand w _instances jsonCmd
  = cxx "{`error`: `Dispatch exception: " +:+ what +:+ cxx "`}".
Proof.
  intros Hparse Hthrown. unfold DispatchCommand.
  by rewrite (Body_parsed w _instances jsonCmd cmd Hparse), Hthrown.
Qed.

(** The conversion to [std::string] of a value that is no string. *)
Lemma get_string_type_error (j : json) :
  is_string j = false ->
  get_string j
  = Throw (std_exception
             ("[json.exception.type_error.302] type must be string, but is "
              +:+ type_name j)).
Proof. by destruct j. Qed.

(** A text with a number that is not finite is no parse error: the
    [out_of_range] of the parser is answered by the handler of
    [std::exception]. *)
Lemma DispatchCommand_overflow `{Platform} (w : world) (_instances : gmap string variant)
    (jsonCmd token : string) :
  read_text jsonCmd = Overflow token ->
  DispatchCommand w _instances jsonCmd
  = cxx "{`error`: `Dispatch exception: [json.exception.out_of_range.406] number overflow parsing '"
    +:+ token +:+ cxx "'`}".
Proof.
  intros Hread. unfold DispatchCommand, Body, parse. rewrite Hread. simpl.
  by rewrite ?append_assoc.
Qed.

(** A text that is not JSON is answered by the handler of
    [json::parse_error]. *)
Lemma DispatchCommand_malformed `{Platform} (w : world) (_instances : gmap string variant)
    (jsonCmd : string) :
  read_text jsonCmd = Malformed ->
  DispatchCommand w _instances jsonCmd
  = cxx "{`error`: `JSON parse error: " +:+ what_parse_error jsonCmd +:+ cxx "`}".
Proof. intros Hread. unfold DispatchCommand, Body, parse. by rewrite Hread. Qed.

(** A [return] of steps 1 to 4 is the response. *)
Lemma DispatchCommand_returned `{Platform} (w : world) (_instances : gmap string variant)
    (jsonCmd : string) (cmd : json) (r : string) :
  parse_text jsonCmd = Some cmd ->
  Resolve w _instances cmd = Return r ->
  DispatchCommand w _instances jsonCmd = r.
Proof.
  intros Hparse Hreturn. unfold DispatchCommand.
  by rewrite (Body_parsed w _instances jsonCmd cmd Hparse), Hreturn.
Qed.

End Resolution.

(** ** C4 and C10: which context and which method name a command resolves to *)

Module ContextPriority.
Import Json JsonText Rttr Dispatcher Notions Facts Resolution Example.

(** C4.  Context resolution follows this priority.  A non-null "class"
    member wins: its string is the context, whatever "context" holds.
    Otherwise a "context" member gives the context.  In both cases the
    method looked up is the last segment of "method".  Otherwise
    "method" is split on its last dot: the left side is the context, the
    right side the method name.  With no class, no context and no dot,
    dispatch returns the error envelope that names the method.  In
    particular, the command with class X and method Y.Z resolves to the
    context X and the method Z.  A member that decides the context and
    is no string does not pass the decision on: a non-null "class" that
    is no string, and, without a class, a "context" that is no string,
    null included, are answered with the envelope of the type error
    302 of the conversion to a string. *)
Theorem context_resolution_priority `{Platform}
    (w : world) (_instances : gmap string variant) (cmd : json) (full : string) :
  contains cmd "method" = true ->
  at_key cmd "method" = Str full ->
  (forall c name,
      has_class cmd = true -> at_key cmd "class" = Str c ->
      last_segment full name ->
      Resolve w _instances cmd = Locate w _instances c name)
  /\ (forall c name,
      has_class cmd = false ->
      contains cmd "context" = true -> at_key cmd "context" = Str c ->
      last_segment full name ->
      Resolve w _instances cmd = Locate w _instances c name)
  /\ (forall left right,
      has_class cmd = false -> contains cmd "context" = false ->
      full = left +:+ "." +:+ right -> occurs "." right = false ->
      Resolve w _instances cmd = Locate w _instances left right)
  /\ (forall jsonCmd,
      has_class cmd = false -> contains cmd "context" = false ->
      occurs "." full = false ->
      parse_text jsonCmd = Some cmd ->
      DispatchCommand w _instances jsonCmd
      = cxx "{`error`: `Invalid JSON command structure: missing class or context, and method name '"
        +:+ full +:+ cxx "' has no dot separator.`}")
  /\ (exists cmdXYZ,
      parse_text (cxx "{`class`:`X`,`method`:`Y.Z`}") = Some cmdXYZ
      /\ Resolve w _instances cmdXYZ = Locate w _instances "X" "Z")
  /\ (forall jsonCmd,
      has_class cmd = true -> is_string (at_key cmd "class") = false ->
      parse_text jsonCmd = Some cmd ->
      DispatchCommand w _instances jsonCmd
      = cxx "{`error`: `Dispatch exception: [json.exception.type_error.302] type must be string, but is "
        +:+ type_name (at_key cmd "class") +:+ cxx "`}")
  /\ (forall jsonCmd,
      has_class cmd = false -> contains cmd "context" = true ->
      is_string (at_key cmd "context") = false ->
      parse_text jsonCmd = Some cmd ->
      DispatchCommand w _instances jsonCmd
      = cxx "{`error`: `Dispatch exception: [json.exception.type_error.302] type must be string, but is "
        +:+ type_name (at_key cmd "context") +:+ cxx "`}").
Proof.
  intros Hm Hfull. split; [|split; [|split; [|split; [|split; [|split]]]]].
  - intros c name Hc Hv Hseg.
    rewrite (Resolve_located w _instances cmd full c full Hm Hfull
               (ResolveContext_class cmd full c Hc Hv)).
    by rewrite (ResolveMethodName_whole full name Hseg).
  - intros c name Hc Hx Hv Hseg.
    rewrite (Resolve_located w _instances cmd full c full Hm Hfull
               (ResolveContext_context cmd full c Hc Hx Hv)).
    by rewrite (ResolveMethodName_whole full name Hseg).
  - intros left right Hc Hx -> Hr.
    rewrite (Resolve_located w _instances cmd _ left right Hm Hfull
               (ResolveContext_split cmd left right Hc Hx Hr)).
    by rewrite ResolveMethodName_split.
  - intros jsonCmd Hc Hx Hr Hparse.
    apply (DispatchCommand_returned w _instances jsonCmd cmd _ Hparse).
    unfold Resolve. rewrite Hm, Hfull. simpl.
    by rewrite (ResolveContext_no_dot cmd full Hc Hx Hr).
  - exists (Object [("class", Str "X"); ("method", Str "Y.Z")]).
    split; [vm_compute; reflexivity |].
    rewrite (Resolve_located w _instances
               (Object [("class", Str "X"); ("method", Str "Y.Z")])
               "Y.Z" "X" "Y.Z" eq_refl eq_refl eq_refl).
    reflexivity.
  - intros jsonCmd Hc Hs Hparse.
    rewrite (DispatchCommand_thrown w _instances jsonCmd cmd
               ("[json.exception.type_error.302] type must be string, but is "
                +:+ type_name (at_key cmd "class")) Hparse);
      [by rewrite ?append_assoc |].
    unfold Resolve. rewrite Hm, Hfull. simpl. unfold ResolveContext.
    change (contains cmd "class" && negb (is_null (at_key cmd "class")))
      with (has_class cmd).
    by rewrite Hc, (get_string_type_error _ Hs).
  - intros jsonCmd Hc Hx Hs Hparse.
    rewrite (DispatchCommand_thrown w _instances jsonCmd cmd
               ("[json.exception.type_error.302] type must be string, but is "
                +:+ type_name (at_key cmd "context")) Hparse);
      [by rewrite ?append_assoc |].
    unfold Resolve. rewrite Hm, Hfull. simpl. unfold ResolveContext.
    change (contains cmd "class" && negb (is_null (at_key cmd "class")))
      with (has_class cmd).
    by rewrite Hc, Hx, (get_string_type_error _ Hs).
Qed.

(** The command of [examples/hello_world_rttr.cpp], with a dotted method
    name: the context is OrderManager and the method GetOrderCount.
    With the number 5 as its class the command is answered with the type
    error, although its context names the manager. *)
Lemma context_resolution_priority_witness :
  has_class (Object [("context", Str "OrderManager");
                     ("method", Str "Orders.GetOrderCount")]) = false
  /\ forall P : Platform,
      Resolve order_system registered
        (Object [("context", Str "OrderManager"); ("method", Str "Orders.GetOrderCount")])
      = Locate order_system registered "OrderManager" "GetOrderCount"
      /\ DispatchCommand order_system registered
           (cxx "{`class`: 5, `context`: `OrderManager`, `method`: `GetOrderCount`}")
         = cxx "{`error`: `Dispatch exception: [json.exception.type_error.302] type must be string, but is number`}".
Proof.
  split; [reflexivity |]. intros P. split.
  - apply (proj1 (proj2
      (context_resolution_priority (H := P) order_system registered
         (Object [("context", Str "OrderManager"); ("method", Str "Orders.GetOrderCount")])
         "Orders.GetOrderCount" eq_refl eq_refl))
      "OrderManager" "GetOrderCount" eq_refl eq_refl eq_refl
      (segment_after "Orders" "GetOrderCount" eq_refl)).
  - apply (proj1 (proj2 (proj2 (proj2 (proj2 (proj2
      (context_resolution_priority (H := P) order_system registered
         (Object [("class", NumberUnsigned 5); ("context", Str "OrderManager");
                  ("method", Str "GetOrderCount")])
         "GetOrderCount" eq_refl eq_refl))))))
      (cxx "{`class`: 5, `context`: `OrderManager`, `method`: `GetOrderCount`}")
      eq_refl eq_refl).
    vm_compute; reflexivity.
Defined.

(** C10.  With an explicit class or context, everything of "method" up
    to and including its last dot is discarded, whether or not that
    prefix is the resolved context: the method looked up is the last
    segment, on the instance registered under the explicit context. *)
Theorem explicit_context_discards_prefix
    (w : world) (_instances : gmap string variant) (cmd : json)
    (c left right : string) :
  contains cmd "method" = true ->
  at_key cmd "method" = Str (left +:+ "." +:+ right) ->
  occurs "." right = false ->
  (has_class cmd = true /\ at_key cmd "class" = Str c)
  \/ (has_class cmd = false /\ contains cmd "context" = true
      /\ at_key cmd "context" = Str c) ->
  Resolve w _instances cmd = Locate w _instances c right.
Proof.
  intros Hm Hfull Hr Hexplicit.
  assert (ResolveContext cmd (left +:+ "." +:+ right)
          = Normal (c, left +:+ "." +:+ right)) as Hctx.
  { destruct Hexplicit as [[Hc Hv]|(Hc & Hx & Hv)].
    - by apply ResolveContext_class.
    - by apply ResolveContext_context. }
  rewrite (Resolve_located w _instances cmd _ _ _ Hm Hfull Hctx).
  by rewrite (ResolveMethodName_whole _ right (segment_after left right Hr)).
Qed.

(** A class that is not the prefix of the method name: the method looked
    up on the instance registered as OrderManager is GetOrderCount. *)
Lemma explicit_context_discards_prefix_witness :
  Resolve order_system registered
    (Object [("class", Str "OrderManager"); ("method", Str "Other.Deep.GetOrderCount")])
  = Locate order_system registered "OrderManager" "GetOrderCount".
Proof.
  apply (explicit_context_discards_prefix order_system registered
           (Object [("class", Str "OrderManager");
                    ("method", Str "Other.Deep.GetOrderCount")])
           "OrderManager" "Other.Deep" "GetOrderCount" eq_refl eq_refl eq_refl).
  left. split; reflexivity.
Defined.

End ContextPriority.

(** ** Argument building *)

Module Binding.
Import Json JsonText Rttr Dispatcher Notions Facts.

Section Build.
Context `{Platform}.

Lemma insert_slot (done : list variant) (v x : variant) (rest : list variant) :
  <[length done := v]> (done ++ x :: rest) = (done ++ [v]) ++ rest.
Proof.
  rewrite insert_app_r_alt by lia.
  rewrite Nat.sub_diag. simpl. by rewrite <- app_assoc.
Qed.

Lemma open_slot (done : list variant) (x : variant) (rest : list variant) :
  done ++ x :: rest = (done ++ [x]) ++ rest.
Proof. by rewrite <- app_assoc. Qed.

Lemma bind_step (supply : nat -> parameter_info -> option json)
    (done : list variant) (v : variant) (i : nat) (rest : list parameter_info) :
  (vs ← bound_from supply i rest; Normal ((done ++ [v]) ++ vs))
  = (vs ← (vs ← bound_from supply i rest; Normal (v :: vs)); Normal (done ++ vs)).
Proof.
  destruct (bound_from supply i rest) as [vs|r|e]; simpl; [|reflexivity..].
  by rewrite <- app_assoc.
Qed.

(** The positional loop binds by index. *)
Lemma BuildPositional_bound (elements : list json) (params : list parameter_info)
    (done : list variant) :
  BuildPositional (Array elements) params (length done)
    (done ++ replicate (length params) invalid)
  = (vs ← bound_from (fun i _ => elements !! i) (length done) params;
     Normal (done ++ vs)).
Proof.
  revert done. induction params as [|param rest IH]; intros done.
  - reflexivity.
  - cbn [BuildPositional bound_from length replicate]. unfold bound.
    destruct (elements !! length done) as [jVal|] eqn:Hlookup.
    + rewrite bool_decide_true by (apply lookup_lt_Some in Hlookup; exact Hlookup).
      unfold at_index. rewrite Hlookup. simpl.
      destruct (JsonToVariant jVal (param_type param)) as [v|r|e]; simpl;
        [|reflexivity..].
      rewrite insert_slot.
      specialize (IH (done ++ [v])). rewrite length_app in IH. simpl in IH.
      rewrite Nat.add_1_r in IH. rewrite IH. apply bind_step.
    + rewrite bool_decide_false by (apply lookup_ge_None in Hlookup; simpl; lia).
      simpl. rewrite open_slot.
      specialize (IH (done ++ [invalid])). rewrite length_app in IH. simpl in IH.
      rewrite Nat.add_1_r in IH. rewrite IH. apply bind_step.
Qed.

Lemma contains_find (members : list (string * json)) (key : string) :
  contains (Object members) key = bool_decide (is_Some (find_member key members)).
Proof. reflexivity. Qed.

(** The named loop binds by key. *)
Lemma BuildNamed_bound (members : list (string * json)) (params : list parameter_info)
    (i : nat) (done : list variant) :
  i = length done ->
  BuildNamed (Object members) params i
    (done ++ replicate (length params) invalid)
  = (vs ← bound_from (fun _ param => find_member (param_name param) members) i params;
     Normal (done ++ vs)).
Proof.
  revert i done. induction params as [|param rest IH]; intros i done ->.
  - reflexivity.
  - cbn [BuildNamed bound_from length replicate]. unfold bound.
    rewrite contains_find. unfold at_key.
    destruct (find_member (param_name param) members) as [jVal|] eqn:Hfind.
    + rewrite bool_decide_true by eauto. simpl.
      destruct (JsonToVariant jVal (param_type param)) as [v|r|e]; simpl;
        [|reflexivity..].
      rewrite insert_slot.
      rewrite (IH (S (length done)) (done ++ [v]))
        by (rewrite length_app; simpl; lia).
      apply bind_step.
    + rewrite bool_decide_false by (intros [? ?]; discriminate).
      simpl. rewrite open_slot.
      rewrite (IH (S (length done)) (done ++ [invalid]))
        by (rewrite length_app; simpl; lia).
      apply bind_step.
Qed.

Lemma bound_from_none (supply : nat -> parameter_info -> option json)
    (i : nat) (params : list parameter_info) :
  (forall j param, supply j param = None) ->
  bound_from supply i params = Normal (replicate (length params) invalid).
Proof.
  intros Hnone. revert i. induction params as [|param rest IH]; intros i.
  - reflexivity.
  - simpl. unfold bound. rewrite Hnone. simpl. by rewrite IH.
Qed.

Lemma bind_Normal_id {A : Type} (m : outcome (list A)) :
  (vs ← m; Normal ([] ++ vs)) = m.
Proof. by destruct m. Qed.

(** [BuildArguments] binds each parameter to the coercion of the value
    supplied for it. *)
Lemma BuildArguments_bound (cmd : json) (params : list parameter_info) :
  BuildArguments cmd params = bound_from (supplied cmd) 0 params.
Proof.
  unfold BuildArguments, supplied.
  destruct (contains cmd "args").
  - destruct (at_key cmd "args") as [| | | | | |elements|members];
      cbn [is_array is_object];
      try (symmetry; by apply bound_from_none).
    + etrans; [exact (BuildPositional_bound elements params []) |].
      apply bind_Normal_id.
    + etrans; [exact (BuildNamed_bound members params 0 [] eq_refl) |].
      apply bind_Normal_id.
  - symmetry. by apply bound_from_none.
Qed.

End Build.

End Binding.

(** ** Members of an object, and commands that differ in "args" only *)

Module Members.
Import Json JsonText Rttr Dispatcher Notions Facts.

Lemma find_member_set_eq (key : string) (v : json) (members : list (string * json)) :
  find_member key (set_member key v members) = Some v.
Proof.
  induction members as [|[k x] rest IH]; simpl.
  - by rewrite String.eqb_refl.
  - destruct (String.compare key k) eqn:Hcmp; simpl.
    + by rewrite String.eqb_refl.
    + by rewrite String.eqb_refl.
    + destruct (String.eqb key k) eqn:Heq; [|exact IH].
      apply String.eqb_eq in Heq. subst k.
      pose proof (String.compare_antisym key key) as Hanti.
      rewrite Hcmp in Hanti. discriminate.
Qed.

Lemma find_member_set_ne (key key' : string) (v : json) (members : list (string * json)) :
  key <> key' ->
  find_member key (set_member key' v members) = find_member key members.
Proof.
  intros Hne. apply String.eqb_neq in Hne.
  induction members as [|[k x] rest IH]; simpl.
  - by rewrite Hne.
  - destruct (String.compare key' k) eqn:Hcmp; simpl.
    + apply String.compare_eq_iff in Hcmp. subst k. by rewrite Hne.
    + by rewrite Hne.
    + by rewrite IH.
Qed.

Lemma find_member_erase_eq (key : string) (members : list (string * json)) :
  find_member key (erase_member key members) = None.
Proof.
  induction members as [|[k x] rest IH]; simpl; [reflexivity |].
  destruct (String.eqb key k) eqn:Heq; simpl; [exact IH | by rewrite Heq].
Qed.

Lemma find_member_erase_ne (key key' : string) (members : list (string * json)) :
  key <> key' ->
  find_member key (erase_member key' members) = find_member key members.
Proof.
  intros Hne. induction members as [|[k x] rest IH]; simpl; [reflexivity |].
  destruct (String.eqb key' k) eqn:Heq; simpl.
  - apply String.eqb_eq in Heq. subst k.
    apply String.eqb_neq in Hne. by rewrite Hne.
  - by rewrite IH.
Qed.

Lemma with_args_same (jArgs cmd : json) : same_but_args (with_args jArgs cmd) cmd.
Proof.
  intros key Hne. destruct cmd; simpl; try done.
  by rewrite find_member_set_ne.
Qed.

Lemma without_args_same (cmd : json) : same_but_args (without_args cmd) cmd.
Proof.
  intros key Hne. destruct cmd; simpl; try done.
  by rewrite find_member_erase_ne.
Qed.

Lemma with_args_contains (jArgs cmd : json) :
  is_object cmd = true ->
  contains (with_args jArgs cmd) "args" = true
  /\ at_key (with_args jArgs cmd) "args" = jArgs.
Proof.
  destruct cmd; try discriminate. intros _. simpl.
  rewrite find_member_set_eq. split; [by apply bool_decide_true | reflexivity].
Qed.

Lemma without_args_contains (cmd : json) :
  contains (without_args cmd) "args" = false.
Proof.
  destruct cmd; try reflexivity. simpl.
  rewrite find_member_erase_eq. apply bool_decide_false. by intros [? ?].
Qed.

(** Steps 1 to 4 do not read "args". *)
Lemma Resolve_same_but_args (w : world) (_instances : gmap string variant)
    (cmd cmd' : json) :
  same_but_args cmd cmd' ->
  Resolve w _instances cmd = Resolve w _instances cmd'.
Proof.
  intros Hsame.
  destruct (Hsame "method") as [Hm1 Hm2]; [done |].
  destruct (Hsame "class") as [Hc1 Hc2]; [done |].
  destruct (Hsame "context") as [Hx1 Hx2]; [done |].
  unfold Resolve, ResolveContext.
  by rewrite Hm1, Hm2, Hc1, Hc2, Hx1, Hx2.
Qed.

End Members.

(** ** C6 and C9: the forms of "args" *)

Module ArgumentForms.
Import Json JsonText Rttr Dispatcher Notions Facts Resolution Binding Members Example.

Section Forms.
Context `{Platform}.

Lemma bound_from_ext (supply supply' : nat -> parameter_info -> option json)
    (i : nat) (params : list parameter_info) :
  (forall j param, i <= j < i + length params -> supply j param = supply' j param) ->
  bound_from supply i params = bound_from supply' i params.
Proof.
  revert i. induction params as [|param rest IH]; intros i Hext; [reflexivity |].
  simpl. unfold bound. rewrite (Hext i param) by (simpl; lia).
  rewrite (IH (S i)); [reflexivity |].
  intros j p Hj. apply Hext. simpl. lia.
Qed.

Lemma bound_from_length (supply : nat -> parameter_info -> option json)
    (i : nat) (params : list parameter_info) (vs : list variant) :
  bound_from supply i params = Normal vs -> length vs = length params.
Proof.
  revert i vs. induction params as [|param rest IH]; intros i vs; simpl.
  - intros [= <-]. reflexivity.
  - destruct (bound supply i param) as [v|r|e]; simpl; try discriminate.
    destruct (bound_from supply (S i) rest) as [vs'|r|e] eqn:Hrest; simpl;
      try discriminate.
    intros [= <-]. simpl. f_equal. by eapply IH.
Qed.

(** Two commands that resolve alike and build the same arguments for
    the resolved method are dispatched alike. *)
Lemma DispatchCommand_same_arguments (w : world) (_instances : gmap string variant)
    (text text' : string) (cmd cmd' : json) :
  parse_text text = Some cmd -> parse_text text' = Some cmd' ->
  Resolve w _instances cmd = Resolve w _instances cmd' ->
  (forall instance method,
      Resolve w _instances cmd = Normal (instance, method) ->
      BuildArguments cmd (parameter_infos method)
      = BuildArguments cmd' (parameter_infos method)) ->
  DispatchCommand w _instances text = DispatchCommand w _instances text'.
Proof.
  intros Hp Hp' Hres Hargs. unfold DispatchCommand.
  rewrite (Body_parsed w _instances text cmd Hp).
  rewrite (Body_parsed w _instances text' cmd' Hp').
  rewrite <- Hres.
  destruct (Resolve w _instances cmd) as [[instance method]|r|e] eqn:Hr;
    [|reflexivity..].
  simpl. by rewrite (Hargs instance method eq_refl).
Qed.

Lemma named_pair (a b : string) (v1 v2 : json) :
  a <> b ->
  let members := set_member a v1 (set_member b v2 []) in
  find_member a members = Some v1 /\ find_member b members = Some v2.
Proof.
  intros Hne. split.
  - apply find_member_set_eq.
  - rewrite find_member_set_ne by congruence. apply find_member_set_eq.
Qed.

(** C6.  For a method with the parameters (a, b) and values v1, v2,
    dispatching with the array [v1, v2] as "args" builds the same
    bound argument list, a = v1 and b = v2, as dispatching with the
    object {b: v2, a: v1}.  Positional binding is by parameter index:
    a parameter whose index is below the number of supplied values
    is bound to the value at its index, the others stay unbound, and
    supplied values beyond the parameter count are ignored.  Named
    binding looks up each parameter's declared name among the keys
    of the object. *)
Theorem positional_and_named_binding
    (cmd : json) (pa pb : parameter_info) (v1 v2 : json) :
  param_name pa <> param_name pb ->
  is_object cmd = true ->
  let positional := with_args (Array [v1; v2]) cmd in
  let named :=
    with_args (Object (set_member (param_name pa) v1
                         (set_member (param_name pb) v2 []))) cmd in
  BuildArguments positional [pa; pb] = BuildArguments named [pa; pb]
  /\ BuildArguments positional [pa; pb]
     = (x ← JsonToVariant v1 (param_type pa);
        y ← JsonToVariant v2 (param_type pb);
        Normal [x; y])
  /\ (forall w _instances text text' instance method,
        parse_text text = Some positional -> parse_text text' = Some named ->
        Resolve w _instances cmd = Normal (instance, method) ->
        parameter_infos method = [pa; pb] ->
        DispatchCommand w _instances text = DispatchCommand w _instances text')
  /\ (forall params elements,
        BuildArguments (with_args (Array elements) cmd) params
        = bound_from (fun i _ => elements !! i) 0 params)
  /\ (forall params elements extra,
        length params <= length elements ->
        BuildArguments (with_args (Array (elements ++ extra)) cmd) params
        = BuildArguments (with_args (Array elements) cmd) params)
  /\ (forall params members,
        BuildArguments (with_args (Object members) cmd) params
        = bound_from (fun _ param => find_member (param_name param) members) 0 params).
Proof.
  intros Hne Hobj positional named.
  assert (forall jArgs params,
             BuildArguments (with_args jArgs cmd) params
             = bound_from
                 (fun i param =>
                    match jArgs with
                    | Array elements => elements !! i
                    | Object members => find_member (param_name param) members
                    | _ => None
                    end) 0 params) as Hbound.
  { intros jArgs params. rewrite BuildArguments_bound. unfold supplied.
    destruct (with_args_contains jArgs cmd Hobj) as [-> ->]. reflexivity. }
  destruct (named_pair (param_name pa) (param_name pb) v1 v2 Hne) as [Ha Hb].
  assert (BuildArguments positional [pa; pb]
          = (x ← JsonToVariant v1 (param_type pa);
             y ← JsonToVariant v2 (param_type pb);
             Normal [x; y])) as Hpos.
  { unfold positional. rewrite Hbound. simpl. unfold bound. simpl.
    destruct (JsonToVariant v1 (param_type pa)); simpl; [|reflexivity..].
    by destruct (JsonToVariant v2 (param_type pb)). }
  assert (BuildArguments named [pa; pb]
          = (x ← JsonToVariant v1 (param_type pa);
             y ← JsonToVariant v2 (param_type pb);
             Normal [x; y])) as Hnamed.
  { unfold named. rewrite Hbound. cbn [bound_from]. unfold bound.
    cbv zeta in Ha, Hb. rewrite Ha, Hb.
    destruct (JsonToVariant v1 (param_type pa)); simpl; [|reflexivity..].
    by destruct (JsonToVariant v2 (param_type pb)). }
  split; [congruence |]. split; [exact Hpos |]. split; [|split; [|split]].
  - intros w _instances text text' instance method Hp Hp' Hres Hparams.
    apply (DispatchCommand_same_arguments w _instances text text' positional named Hp Hp').
    + unfold positional, named.
      rewrite !(Resolve_same_but_args w _instances _ cmd (with_args_same _ cmd)).
      reflexivity.
    + intros instance' method'. unfold positional at 1.
      rewrite (Resolve_same_but_args w _instances _ cmd (with_args_same _ cmd)).
      rewrite Hres. intros [= <- <-]. rewrite Hparams. congruence.
  - intros params elements. apply Hbound.
  - intros params elements extra Hlen. rewrite !Hbound.
    apply bound_from_ext. intros j param Hj.
    apply lookup_app_l. lia.
  - intros params members. apply Hbound.
Qed.

Lemma BuildArguments_unbound (cmd : json) (params : list parameter_info) :
  (forall i param, supplied cmd i param = None) ->
  BuildArguments cmd params = Normal (replicate (length params) invalid).
Proof. intros Hnone. rewrite BuildArguments_bound. by apply bound_from_none. Qed.

(** C9.  When "args" is present but is neither an array nor an object,
    argument building leaves every parameter unbound, as it does
    when "args" is absent, and dispatch goes on to the invocation
    with these unbound arguments: no error is returned for the
    malformed member.  For a method of at most six parameters the
    invocation is the call of the method with one unbound argument for
    each parameter, and the response is the serialization of what the
    call returns. *)
Theorem malformed_args_ignored
    (w : world) (_instances : gmap string variant) (cmd : json) :
  contains cmd "args" = true ->
  is_array (at_key cmd "args") = false ->
  is_object (at_key cmd "args") = false ->
  (forall params,
      BuildArguments cmd params = Normal (replicate (length params) invalid)
      /\ BuildArguments (without_args cmd) params
         = Normal (replicate (length params) invalid))
  /\ (forall jsonCmd,
        parse_text jsonCmd = Some cmd ->
        Body w _instances jsonCmd
        = ('(instance, method) ← Resolve w _instances cmd;
           result ← Invoke method instance
                      (replicate (length (parameter_infos method)) invalid);
           Serialize w method result))
  /\ (forall text text',
        parse_text text = Some cmd ->
        parse_text text' = Some (without_args cmd) ->
        DispatchCommand w _instances text = DispatchCommand w _instances text')
  /\ (forall jsonCmd instance method,
        parse_text jsonCmd = Some cmd ->
        Resolve w _instances cmd = Normal (instance, method) ->
        length (parameter_infos method) <= 6 ->
        Body w _instances jsonCmd
        = (result ← call (invoke method instance
                            (replicate (length (parameter_infos method)) invalid));
           Serialize w method result)).
Proof.
  intros Hargs Harray Hobject.
  assert (forall params,
             BuildArguments cmd params = Normal (replicate (length params) invalid))
    as Hcmd.
  { intros params. apply BuildArguments_unbound. intros i param.
    unfold supplied. rewrite Hargs.
    by destruct (at_key cmd "args"). }
  assert (forall params,
             BuildArguments (without_args cmd) params
             = Normal (replicate (length params) invalid)) as Hwithout.
  { intros params. apply BuildArguments_unbound. intros i param.
    unfold supplied. by rewrite without_args_contains. }
  split; [by split |]. split; [|split].
  - intros jsonCmd Hparse. rewrite (Body_parsed w _instances jsonCmd cmd Hparse).
    destruct (Resolve w _instances cmd) as [[instance method]|r|e];
      [|reflexivity..].
    simpl. by rewrite Hcmd.
  - intros text text' Hp Hp'.
    apply (DispatchCommand_same_arguments w _instances text text' _ _ Hp Hp').
    + symmetry. apply Resolve_same_but_args, without_args_same.
    + intros instance method _. by rewrite Hcmd, Hwithout.
  - intros jsonCmd instance method Hparse Hresolve Hfew.
    rewrite (Body_parsed w _instances jsonCmd cmd Hparse), Hresolve. simpl.
    rewrite Hcmd. simpl.
    by rewrite Invoke_passes_arguments by (by rewrite length_replicate).
Qed.

End Forms.

(** [CancelOrder(int orderId)] of [examples/hello_world_rttr.cpp] with
    the number 7 as its "args", not in an array: the parameter orderId
    is left unbound, the call is made with the unbound argument, and the
    command is answered as the one without "args" is. *)
Lemma malformed_args_ignored_witness :
  let text := cxx "{`context`: `OrderManager`, `method`: `CancelOrder`, `args`: 7}" in
  let text' := cxx "{`context`: `OrderManager`, `method`: `CancelOrder`}" in
  let cmd := Object [("args", NumberUnsigned 7); ("context", Str "OrderManager");
                     ("method", Str "CancelOrder")] in
  parse_text text = Some cmd
  /\ forall P : Platform,
      BuildArguments cmd (parameter_infos CancelOrder) = Normal [invalid]
      /\ Body order_system registered text
         = (result ← call (invoke CancelOrder (object_value OrderManager_id 0) [invalid]);
            Serialize order_system CancelOrder result)
      /\ DispatchCommand order_system registered text
         = DispatchCommand order_system registered text'.
Proof.
  cbv zeta. split; [vm_compute; reflexivity |]. intros P.
  destruct (malformed_args_ignored order_system registered
              (Object [("args", NumberUnsigned 7); ("context", Str "OrderManager");
                       ("method", Str "CancelOrder")])
              eq_refl eq_refl eq_refl) as (Hbuild & _ & Hsame & Hcall).
  split; [exact (proj1 (Hbuild (parameter_infos CancelOrder))) |]. split.
  - apply (Hcall _ (object_value OrderManager_id 0) CancelOrder).
    + vm_compute; reflexivity.
    + vm_compute; reflexivity.
    + simpl. lia.
  - apply Hsame; vm_compute; reflexivity.
Defined.

(** The method CreateOrder(clientName, quantity) of the order system,
    called with ["ACME", 5] and with {quantity: 5, clientName: "ACME"}. *)
Lemma positional_and_named_binding_witness :
  let cmd := Object [("method", Str "OrderManager.CreateOrder")] in
  is_object cmd = true
  /\ forall P : Platform,
      BuildArguments
        (with_args (Array [Str "ACME"; NumberUnsigned 5]) cmd)
        (parameter_infos CreateOrder)
      = BuildArguments
          (with_args (Object (set_member "clientName" (Str "ACME")
                                (set_member "quantity" (NumberUnsigned 5) []))) cmd)
          (parameter_infos CreateOrder).
Proof.
  split; [reflexivity |]. intros P.
  apply (positional_and_named_binding
           (Object [("method", Str "OrderManager.CreateOrder")])
           {| param_name := "clientName"; param_type := t_string |}
           {| param_name := "quantity"; param_type := t_int |}
           (Str "ACME") (NumberUnsigned 5)).
  - discriminate.
  - reflexivity.
Defined.

End ArgumentForms.

(** ** C3 and C2: coercion to an integer parameter *)

Module IntegerCoercion.
Import Json JsonText Rttr Dispatcher Notions Facts Resolution Binding ArgumentForms Example.

(** *** [strtol] reads back the decimal text of an integer *)

Lemma digits_step (c : ascii) (acc : Z) (rest : string) :
  is_digit c = true ->
  Std.digits acc (String c rest) = Std.digits (10 * acc + digit_value c) rest.
Proof. intros Hc. simpl. by rewrite Hc. Qed.

Local Ltac digit_step IH :=
  rewrite digits_step by reflexivity;
  match goal with
  | |- Std.digits (10 * ?acc + digit_value ?c)%Z _ = Z.pos (Pos.of_uint_acc _ ?a) =>
      let v := eval vm_compute in (digit_value c) in
      change (digit_value c) with v;
      replace (10 * acc + v)%Z with (Z.pos a) by lia
  end;
  apply IH.

Lemma digits_of_uint_acc (d : Decimal.uint) (acc : positive) :
  Std.digits (Z.pos acc) (NilEmpty.string_of_uint d) = Z.pos (Pos.of_uint_acc d acc).
Proof.
  revert acc. induction d as [|d IH|d IH|d IH|d IH|d IH|d IH|d IH|d IH|d IH|d IH];
    intros acc; [reflexivity |..];
    cbn [NilEmpty.string_of_uint Pos.of_uint_acc]; digit_step IH.
Qed.

Lemma digits_of_uint (d : Decimal.uint) :
  Std.digits 0 (NilEmpty.string_of_uint d) = Z.of_N (Pos.of_uint d).
Proof.
  induction d as [|d IH|d IH|d IH|d IH|d IH|d IH|d IH|d IH|d IH|d IH];
    [reflexivity | exact IH |..];
    cbn [NilEmpty.string_of_uint Pos.of_uint];
    rewrite digits_step by reflexivity;
    exact (digits_of_uint_acc d _).
Qed.

(** The text of a number that is not [Nil] starts with a digit. *)
Lemma string_of_uint_head (d : Decimal.uint) :
  d <> Decimal.Nil ->
  exists c r, NilEmpty.string_of_uint d = String c r
              /\ is_digit c = true /\ Std.isspace c = false
              /\ Ascii.eqb c "-" = false /\ Ascii.eqb c "+" = false.
Proof.
  destruct d; [congruence |..]; intros _; eexists _, _;
    (split; [reflexivity | by vm_compute]).
Qed.

Lemma strtol_unsigned (d : Decimal.uint) :
  d <> Decimal.Nil ->
  Std.strtol (NilEmpty.string_of_uint d) = Some (Z.of_N (Pos.of_uint d)).
Proof.
  intros Hd. pose proof (digits_of_uint d) as Hdigits.
  destruct (string_of_uint_head d Hd) as (c & r & Heq & Hdigit & Hspace & Hminus & Hplus).
  rewrite Heq in *. unfold Std.strtol. cbn [Std.skip_space]. rewrite Hspace.
  destruct c as [b0 b1 b2 b3 b4 b5 b6 b7].
  destruct b0, b1, b2, b3, b4, b5, b6, b7; try discriminate;
    rewrite Hdigit, Hdigits; reflexivity.
Qed.

Lemma strtol_negative (d : Decimal.uint) :
  d <> Decimal.Nil ->
  Std.strtol (String "-" (NilEmpty.string_of_uint d)) = Some (- Z.of_N (Pos.of_uint d))%Z.
Proof.
  intros Hd. pose proof (digits_of_uint d) as Hdigits.
  destruct (string_of_uint_head d Hd) as (c & r & Heq & Hdigit & _).
  rewrite Heq in *. unfold Std.strtol. cbn [Std.skip_space].
  change (Std.isspace "-") with false. cbv iota.
  rewrite Hdigit, Hdigits. reflexivity.
Qed.

Lemma strtol_of_Z (n : Z) : Std.strtol (of_Z n) = Some n.
Proof.
  destruct n as [|p|p]; [reflexivity |..]; unfold of_Z; simpl.
  - unfold NilZero.string_of_uint.
    pose proof (DecimalPos.Unsigned.to_uint_nonnil p) as Hnil.
    destruct (Pos.to_uint p) eqn:Hp; [congruence |..];
      rewrite <- Hp, strtol_unsigned, DecimalPos.Unsigned.of_to by congruence;
      reflexivity.
  - unfold NilZero.string_of_uint.
    pose proof (DecimalPos.Unsigned.to_uint_nonnil p) as Hnil.
    destruct (Pos.to_uint p) eqn:Hp; [congruence |..];
      rewrite <- Hp, strtol_negative, DecimalPos.Unsigned.of_to by congruence;
      reflexivity.
Qed.

Lemma to_int_in_range (n : Z) :
  (Std.INT_MIN <= n <= Std.INT_MAX)%Z -> to_int n = n.
Proof.
  unfold Std.INT_MIN, Std.INT_MAX, to_int. intros Hn.
  rewrite Z.mod_small by lia. lia.
Qed.

(** *** C3 *)

(** C3, as the code has it.  For an integer-typed target parameter: a
    native JSON integer produces that integer converted to [int], which
    is the integer itself when it fits an [int]; a native JSON number
    with a fraction or an exponent produces no value (it is not
    truncated); a string is converted by [std::stoi], so that the
    decimal text of an [int] produces that integer and a string without
    a leading integer raises [std::invalid_argument]; for null, a
    boolean, an array and an object no value is produced and the
    parameter stays unset. *)
Theorem integer_coercion `{Platform} :
  (forall n,
      JsonToVariant (NumberInteger n) t_int = Normal (int_value (to_int n))
      /\ JsonToVariant (NumberUnsigned n) t_int = Normal (int_value (to_int n)))
  /\ (forall n, (Std.INT_MIN <= n <= Std.INT_MAX)%Z -> to_int n = n)
  /\ (forall lexeme, JsonToVariant (NumberFloat lexeme) t_int = Normal invalid)
  /\ (forall s,
        JsonToVariant (Str s) t_int = (n ← Std.stoi s; Normal (int_value n)))
  /\ (forall n,
        (Std.INT_MIN <= n <= Std.INT_MAX)%Z ->
        JsonToVariant (Str (of_Z n)) t_int = Normal (int_value n))
  /\ (forall s,
        Std.strtol s = None ->
        JsonToVariant (Str s) t_int
        = Throw (std_exception (what_invalid_argument "stoi")))
  /\ (forall jVal,
        is_number jVal = false -> is_string jVal = false ->
        JsonToVariant jVal t_int = Normal invalid).
Proof.
  split; [by split |]. split; [exact to_int_in_range |].
  split; [reflexivity |]. split; [reflexivity |]. split; [|split].
  - intros n [Hlo Hhi]. simpl. unfold Std.stoi. rewrite strtol_of_Z.
    apply Z.leb_le in Hlo, Hhi. by rewrite Hlo, Hhi.
  - intros s Hs. simpl. unfold Std.stoi. by rewrite Hs.
  - intros jVal Hnumber Hstring. by destruct jVal.
Qed.

(** The string 42 for an integer parameter. *)
Lemma integer_coercion_witness :
  (Std.INT_MIN <= 42 <= Std.INT_MAX)%Z
  /\ forall P : Platform, JsonToVariant (Str "42") t_int = Normal (int_value 42).
Proof.
  assert (Std.INT_MIN <= 42 <= Std.INT_MAX)%Z as Hrange by (by vm_compute).
  split; [exact Hrange |]. intros P.
  exact (proj1 (proj2 (proj2 (proj2 (proj2 (@integer_coercion P))))) 42%Z Hrange).
Defined.

(** The JSON number 3.7 supplied for an integer parameter is a native
    numeric value, and its coercion produces no value: it is not
    truncated to 3.  The string abc, which is not numeric, does not
    leave the parameter unset: its coercion throws. *)
Lemma integer_coercion_counterexample :
  parse_text "3.7" = Some (NumberFloat "3.7")
  /\ is_number (NumberFloat "3.7") = true
  /\ (forall P : Platform,
        JsonToVariant (NumberFloat "3.7") t_int = Normal invalid
        /\ JsonToVariant (NumberFloat "3.7") t_int <> Normal (int_value 3))
  /\ (forall P : Platform,
        JsonToVariant (Str "abc") t_int
        = Throw (std_exception (what_invalid_argument "stoi"))).
Proof.
  split; [by vm_compute |]. split; [reflexivity |].
  split; intros P; [split; [reflexivity | discriminate] | reflexivity].
Qed.

(** *** C2 *)

(** The first coercion that throws aborts argument building. *)
Lemma bound_from_Throw `{Platform} (supply : nat -> parameter_info -> option json)
    (k : nat) (params : list parameter_info) (i : nat) (param : parameter_info)
    (e : exception) :
  params !! i = Some param ->
  bound supply (k + i) param = Throw e ->
  (forall j p, j < i -> params !! j = Some p ->
               is_Normal (bound supply (k + j) p) = true) ->
  bound_from supply k params = Throw e.
Proof.
  revert k i. induction params as [|p0 rest IH]; intros k i Hi He Hearlier.
  - discriminate.
  - destruct i as [|i]; simpl in Hi.
    + injection Hi as ->. simpl. rewrite Nat.add_0_r in He. by rewrite He.
    + simpl. pose proof (Hearlier 0 p0 ltac:(lia) eq_refl) as H0.
      rewrite Nat.add_0_r in H0.
      destruct (bound supply k p0) as [v|r|e0]; try discriminate. simpl.
      rewrite (IH (S k) i Hi).
      * reflexivity.
      * by replace (S k + i) with (k + S i) by lia.
      * intros j p Hj Hp. replace (S k + j) with (k + S j) by lia.
        apply Hearlier; [lia | exact Hp].
Qed.

(** C2, as the code has it.  When a command with a valid context,
    instance and method supplies, for an integer-typed parameter, a
    string without a leading integer, and the coercions of the
    parameters before it succeed, the exception of [std::stoi] reaches
    the handler of [DispatchCommand]: dispatch yields the error
    envelope "Dispatch exception: ..." with the message of
    [std::invalid_argument].  The coercion failure is surfaced as an
    error. *)
Theorem non_numeric_string_is_an_error `{Platform}
    (w : world) (_instances : gmap string variant) (jsonCmd : string) (cmd : json)
    (instance : variant) (method : method)
    (i : nat) (param : parameter_info) (s : string) :
  parse_text jsonCmd = Some cmd ->
  Resolve w _instances cmd = Normal (instance, method) ->
  parameter_infos method !! i = Some param ->
  param_type param = t_int ->
  supplied cmd i param = Some (Str s) ->
  Std.strtol s = None ->
  (forall j p, j < i -> parameter_infos method !! j = Some p ->
               is_Normal (bound (supplied cmd) j p) = true) ->
  DispatchCommand w _instances jsonCmd
  = cxx "{`error`: `Dispatch exception: " +:+ what_invalid_argument "stoi" +:+ cxx "`}".
Proof.
  intros Hparse Hresolve Hparam Hint Hsupplied Hstr Hearlier.
  unfold DispatchCommand.
  rewrite (Body_parsed w _instances jsonCmd cmd Hparse), Hresolve. simpl.
  rewrite BuildArguments_bound.
  rewrite (bound_from_Throw (supplied cmd) 0 (parameter_infos method) i param
             (std_exception (what_invalid_argument "stoi")) Hparam).
  - reflexivity.
  - unfold bound. simpl. rewrite Hsupplied, Hint. simpl.
    unfold Std.stoi. by rewrite Hstr.
  - exact Hearlier.
Qed.

(** CancelOrder of the order system, with the string abc as its orderId. *)
Lemma non_numeric_string_is_an_error_witness :
  let text := cxx "{`method`: `OrderManager.CancelOrder`, `args`: {`orderId`: `abc`}}" in
  Std.strtol "abc" = None
  /\ forall P : Platform,
      DispatchCommand order_system registered text
      = cxx "{`error`: `Dispatch exception: " +:+ what_invalid_argument "stoi" +:+ cxx "`}".
Proof.
  split; [reflexivity |]. intros P.
  apply (non_numeric_string_is_an_error order_system registered _
           (Object [("args", Object [("orderId", Str "abc")]);
                    ("method", Str "OrderManager.CancelOrder")])
           (object_value OrderManager_id 0) CancelOrder
           0 {| param_name := "orderId"; param_type := t_int |} "abc").
  - by vm_compute.
  - reflexivity.
  - reflexivity.
  - reflexivity.
  - reflexivity.
  - reflexivity.
  - intros j p Hj. lia.
Defined.

(** CreateOrder of the order system (valid context, registered
    instance, resolved method) called with the non-numeric string many
    for its integer parameter quantity: dispatch yields an error
    envelope. *)
Lemma non_numeric_string_is_an_error_counterexample :
  let text := cxx "{`context`: `OrderManager`, `method`: `CreateOrder`, `args`: [`ACME`, `many`]}" in
  let cmd := Object [("args", Array [Str "ACME"; Str "many"]);
                     ("context", Str "OrderManager"); ("method", Str "CreateOrder")] in
  parse_text text = Some cmd
  /\ Resolve order_system registered cmd
     = Normal (object_value OrderManager_id 0, CreateOrder)
  /\ (parameter_infos CreateOrder !! 1
      = Some {| param_name := "quantity"; param_type := t_int |})
  /\ Std.strtol "many" = None
  /\ forall P : Platform,
      DispatchCommand order_system registered text
      = cxx "{`error`: `Dispatch exception: " +:+ what_invalid_argument "stoi" +:+ cxx "`}".
Proof.
  split; [by vm_compute |]. split; [reflexivity |]. split; [reflexivity |].
  split; [reflexivity |]. intros P. by vm_compute.
Qed.

End IntegerCoercion.

(** ** The parser never runs out of fuel *)

Module ParserFuel.
Import Json JsonText Notions Facts.

Lemma skip_ws_length (s : string) :
  String.length (skip_ws s) <= String.length s.
Proof.
  induction s as [|c r IH]; simpl; [lia |].
  destruct (is_ws c); simpl; lia.
Qed.

Lemma take_digits_length (s ds rest : string) :
  take_digits s = (ds, rest) -> String.length rest <= String.length s.
Proof.
  revert ds rest. induction s as [|c r IH]; intros ds rest; simpl.
  - intros [= <- <-]. simpl. lia.
  - destruct (is_digit c).
    + destruct (take_digits r) as [ds' rest'] eqn:Hr. intros [= <- <-].
      specialize (IH _ _ eq_refl). lia.
    + intros [= <- <-]. simpl. lia.
Qed.

Lemma strip_prefix_length (p s rest : string) :
  strip_prefix p s = Some rest -> String.length rest <= String.length s.
Proof.
  revert s. induction p as [|a p IH]; intros s; simpl.
  - intros [= ->]. lia.
  - destruct s as [|b s]; [discriminate |].
    destruct (Ascii.eqb a b); [|discriminate].
    intros Hs. apply IH in Hs. simpl. lia.
Qed.

Lemma scan_int_part_length (s ip rest : string) :
  scan_int_part s = Some (ip, rest) -> String.length rest < String.length s.
Proof.
  destruct s as [|c r]; [discriminate |]. unfold scan_int_part.
  destruct (Ascii.eqb c "0").
  - intros [= <- <-]. simpl. lia.
  - destruct (in_range 49 57 c) eqn:Hc; [|discriminate].
    intros [= Htake]. cbn [take_digits] in Htake.
    assert (is_digit c = true) as Hdigit.
    { unfold is_digit, in_range in *.
      apply andb_true_iff in Hc as [H1 H2].
      apply N.leb_le in H1, H2. apply andb_true_iff.
      split; apply N.leb_le; lia. }
    rewrite Hdigit in Htake.
    destruct (take_digits r) as [ds' rest'] eqn:Hr.
    injection Htake as <- <-. apply take_digits_length in Hr. simpl. lia.
Qed.

Lemma scan_fraction_length (s fp rest : string) :
  scan_fraction s = Some (fp, rest) -> String.length rest <= String.length s.
Proof.
  destruct s as [|c r]; simpl; [intros [= <- <-]; simpl; lia |].
  destruct (Ascii.eqb c ".").
  - destruct (take_digits r) as [ds rest'] eqn:Hr.
    destruct (is_empty ds); [discriminate |].
    intros [= <- <-]. apply take_digits_length in Hr. lia.
  - intros [= <- <-]. simpl. lia.
Qed.

Lemma scan_exponent_length (s ep rest : string) :
  scan_exponent s = Some (ep, rest) -> String.length rest <= String.length s.
Proof.
  destruct s as [|c r]; simpl; [intros [= <- <-]; simpl; lia |].
  destruct (Ascii.eqb c "e" || Ascii.eqb c "E").
  - destruct r as [|g r'].
    + simpl. discriminate.
    + destruct (Ascii.eqb g "+" || Ascii.eqb g "-").
      * destruct (take_digits r') as [ds rest'] eqn:Hr.
        destruct (is_empty ds); [discriminate |].
        intros [= <- <-]. apply take_digits_length in Hr. simpl. lia.
      * destruct (take_digits (String g r')) as [ds rest'] eqn:Hr.
        destruct (is_empty ds); [discriminate |].
        intros [= <- <-]. apply take_digits_length in Hr. simpl in *. lia.
  - intros [= <- <-]. simpl. lia.
Qed.

Lemma scan_number_length (s : string) (j : json) (rest : string) :
  scan_number s = Read (j, rest) -> String.length rest < String.length s.
Proof.
  unfold scan_number.
  set (split := match s with
                | String c r => if Ascii.eqb c "-" then (true, r) else (false, s)
                | EmptyString => (false, s)
                end).
  assert (String.length split.2 <= String.length s) as Hsplit.
  { unfold split. destruct s as [|c r]; simpl; [lia |].
    destruct (Ascii.eqb c "-"); simpl; lia. }
  destruct split as [negative s1]. simpl in Hsplit.
  destruct (scan_int_part s1) as [[ip s2]|] eqn:H1; [|discriminate].
  simpl.
  destruct (scan_fraction s2) as [[fp s3]|] eqn:H2; [|discriminate].
  simpl.
  destruct (scan_exponent s3) as [[ep s4]|] eqn:H3; [|discriminate].
  simpl. intros Hread.
  assert (rest = s4) as ->.
  { revert Hread. destruct (not_finite ip fp ep), (is_empty fp && is_empty ep), negative,
      (Std.digits 0 ip <=? 9223372036854775808)%Z,
      (Std.digits 0 ip <=? 18446744073709551615)%Z; congruence. }
  apply scan_int_part_length in H1. apply scan_fraction_length in H2.
  apply scan_exponent_length in H3. lia.
Qed.

Lemma prepend_Some (p : string) (r : option (string * string)) (str rest : string) :
  prepend p r = Some (str, rest) -> exists str', r = Some (str', rest).
Proof.
  destruct r as [[str' rest']|]; [|discriminate].
  intros [= _ <-]. by exists str'.
Qed.

Local Ltac scan_case IH H :=
  lazymatch type of H with
  | Some _ = Some _ => injection H as <- <-; simpl; lia
  | None = Some _ => discriminate H
  | prepend _ (scan_string ?r) = Some _ =>
      let str := fresh "str" in
      apply prepend_Some in H as [str H];
      apply IH in H; simpl in *; lia
  | (if ?b then _ else _) = Some _ =>
      destruct b; scan_case IH H
  | match ?x with _ => _ end = Some _ =>
      destruct x; scan_case IH H
  end.

Lemma scan_string_length_aux (n : nat) (s str rest : string) :
  String.length s <= n ->
  scan_string s = Some (str, rest) -> String.length rest < String.length s.
Proof.
  revert s str rest. induction n as [|n IH]; intros s str rest Hn Hscan.
  - destruct s; [discriminate | simpl in Hn; lia].
  - destruct s as [|a r]; [discriminate |].
    assert (forall r' str' rest',
               String.length r' <= n ->
               scan_string r' = Some (str', rest') ->
               String.length rest' < String.length r') as IH' by (intros; eauto).
    clear IH. simpl in Hn.
    cbn [scan_string] in Hscan.
    scan_case IH' Hscan.
Qed.

Lemma scan_string_length (s str rest : string) :
  scan_string s = Some (str, rest) -> String.length rest < String.length s.
Proof. by apply (scan_string_length_aux (String.length s)). Qed.

Lemma parse_adequate (n : nat) :
  adequate read_value n
  /\ adequate read_elements n
  /\ (forall acc, adequate (fun fuel => read_members fuel acc) n).
Proof.
  induction n as [|n (IHv & IHe & IHm)].
  - repeat split; discriminate.
  - split; [|split].
    + intros s j rest Hparse. cbn [read_value] in Hparse.
      pose proof (skip_ws_length s) as Hws.
      destruct (skip_ws s) as [|c r] eqn:Hs; [discriminate |]. simpl in Hws.
      destruct (Ascii.eqb c "{") eqn:Hbrace.
      { pose proof (skip_ws_length r) as Hws'.
        destruct (skip_ws r) as [|d r'] eqn:Hr; [discriminate |]. simpl in Hws'.
        destruct (Ascii.eqb d "}") eqn:Hclose.
        - injection Hparse as <- <-. split; [lia |].
          intros [|m] Hm; [lia |]. cbn [read_value].
          by rewrite Hs, Hbrace, Hr, Hclose.
        - destruct (read_members n [] r) as [[members rest']| |?] eqn:Hmembers; [|discriminate..].
          injection Hparse as <- <-.
          destruct (IHm [] r members rest' Hmembers) as [Hlen Hfuel].
          split; [lia |].
          intros [|m] Hm; [lia |]. cbn [read_value].
          rewrite Hs, Hbrace, Hr, Hclose, Hfuel by lia. reflexivity. }
      destruct (Ascii.eqb c "[") eqn:Hbracket.
      { pose proof (skip_ws_length r) as Hws'.
        destruct (skip_ws r) as [|d r'] eqn:Hr; [discriminate |]. simpl in Hws'.
        destruct (Ascii.eqb d "]") eqn:Hclose.
        - injection Hparse as <- <-. split; [lia |].
          intros [|m] Hm; [lia |]. cbn [read_value].
          by rewrite Hs, Hbrace, Hbracket, Hr, Hclose.
        - destruct (read_elements n r) as [[elements rest']| |?] eqn:Helements; [|discriminate..].
          injection Hparse as <- <-.
          destruct (IHe r elements rest' Helements) as [Hlen Hfuel].
          split; [lia |].
          intros [|m] Hm; [lia |]. cbn [read_value].
          rewrite Hs, Hbrace, Hbracket, Hr, Hclose, Hfuel by lia. reflexivity. }
      assert (String.length rest < String.length s) as Hlen.
      { destruct (Ascii.eqb c dquote).
        { destruct (scan_string r) as [[str rest']|] eqn:Hscan; [|discriminate].
          injection Hparse as <- <-. apply scan_string_length in Hscan. lia. }
        destruct (Ascii.eqb c "t").
        { destruct (strip_prefix "rue" r) as [rest'|] eqn:Hstrip; [|discriminate].
          injection Hparse as <- <-. apply strip_prefix_length in Hstrip. lia. }
        destruct (Ascii.eqb c "f").
        { destruct (strip_prefix "alse" r) as [rest'|] eqn:Hstrip; [|discriminate].
          injection Hparse as <- <-. apply strip_prefix_length in Hstrip. lia. }
        destruct (Ascii.eqb c "n").
        { destruct (strip_prefix "ull" r) as [rest'|] eqn:Hstrip; [|discriminate].
          injection Hparse as <- <-. apply strip_prefix_length in Hstrip. lia. }
        apply scan_number_length in Hparse. simpl in Hparse. lia. }
      split; [exact Hlen |].
      intros [|m] Hm; [lia |]. cbn [read_value].
      by rewrite Hs, Hbrace, Hbracket.
    + intros s js rest Hparse. cbn [read_elements] in Hparse.
      destruct (read_value n s) as [[v rest0]| |?] eqn:Hvalue; [|discriminate..].
      destruct (IHv s v rest0 Hvalue) as [Hlen0 Hfuel0].
      simpl in Hparse.
      pose proof (skip_ws_length rest0) as Hws.
      destruct (skip_ws rest0) as [|c r] eqn:Hrest0; [discriminate |]. simpl in Hws.
      destruct (Ascii.eqb c ",") eqn:Hcomma.
      * destruct (read_elements n r) as [[vs rest']| |?] eqn:Hmore; [|discriminate..].
        injection Hparse as <- <-.
        destruct (IHe r vs rest' Hmore) as [Hlen Hfuel].
        split; [lia |].
        intros [|m] Hm; [lia |]. cbn [read_elements].
        rewrite Hfuel0 by lia. simpl.
        rewrite Hrest0, Hcomma, Hfuel by lia. reflexivity.
      * destruct (Ascii.eqb c "]") eqn:Hclose; [|discriminate].
        injection Hparse as <- <-. split; [lia |].
        intros [|m] Hm; [lia |]. cbn [read_elements].
        rewrite Hfuel0 by lia. simpl.
        by rewrite Hrest0, Hcomma, Hclose.
    + intros acc s ms rest Hparse. cbn [read_members] in Hparse.
      pose proof (skip_ws_length s) as Hws.
      destruct (skip_ws s) as [|q r] eqn:Hs; [discriminate |]. simpl in Hws.
      destruct (Ascii.eqb q dquote) eqn:Hquote; [|discriminate].
      destruct (scan_string r) as [[key rest0]|] eqn:Hkey; [|discriminate].
      pose proof (scan_string_length _ _ _ Hkey) as Hlenkey.
      simpl in Hparse.
      pose proof (skip_ws_length rest0) as Hws0.
      destruct (skip_ws rest0) as [|c r1] eqn:Hrest0; [discriminate |]. simpl in Hws0.
      destruct (Ascii.eqb c ":") eqn:Hcolon; [|discriminate].
      destruct (read_value n r1) as [[v rest1]| |?] eqn:Hvalue; [|discriminate..].
      destruct (IHv r1 v rest1 Hvalue) as [Hlen1 Hfuel1].
      simpl in Hparse.
      pose proof (skip_ws_length rest1) as Hws1.
      destruct (skip_ws rest1) as [|d r2] eqn:Hrest1; [discriminate |]. simpl in Hws1.
      destruct (Ascii.eqb d ",") eqn:Hcomma.
      * destruct (IHm _ r2 ms rest Hparse) as [Hlen Hfuel].
        split; [lia |].
        intros [|m] Hm; [lia |]. cbn [read_members].
        rewrite Hs, Hquote, Hkey. simpl.
        rewrite Hrest0, Hcolon, Hfuel1 by lia. simpl.
        rewrite Hrest1, Hcomma. apply Hfuel. lia.
      * destruct (Ascii.eqb d "}") eqn:Hclose; [|discriminate].
        injection Hparse as <- <-. split; [lia |].
        intros [|m] Hm; [lia |]. cbn [read_members].
        rewrite Hs, Hquote, Hkey. simpl.
        rewrite Hrest0, Hcolon, Hfuel1 by lia. simpl.
        by rewrite Hrest1, Hcomma, Hclose.
Qed.

Lemma read_stops (n : nat) :
  stops read_value 1 n
  /\ stops read_elements 0 n
  /\ (forall acc, stops (fun fuel => read_members fuel acc) 0 n).
Proof.
  induction n as [|n (IHv & IHe & IHm)].
  - repeat split; discriminate.
  - destruct (parse_adequate n) as (Av & Ae & Am).
    split; [|split].
    + intros s token Hread m Hm. cbn [read_value] in Hread.
      pose proof (skip_ws_length s) as Hws.
      destruct (skip_ws s) as [|c r] eqn:Hs; [discriminate |]. simpl in Hws.
      destruct m as [|m]; [lia |]. cbn [read_value]. rewrite Hs.
      destruct (Ascii.eqb c "{") eqn:Hbrace.
      { pose proof (skip_ws_length r) as Hws'.
        destruct (skip_ws r) as [|d r'] eqn:Hr; [discriminate |]. simpl in Hws'.
        destruct (Ascii.eqb d "}") eqn:Hclose; [discriminate |].
        destruct (read_members n [] r) as [[members rest']| |t] eqn:Hmembers;
          [discriminate.. |].
        injection Hread as <-.
        by rewrite (IHm [] r t Hmembers m) by lia. }
      destruct (Ascii.eqb c "[") eqn:Hbracket.
      { pose proof (skip_ws_length r) as Hws'.
        destruct (skip_ws r) as [|d r'] eqn:Hr; [discriminate |]. simpl in Hws'.
        destruct (Ascii.eqb d "]") eqn:Hclose; [discriminate |].
        destruct (read_elements n r) as [[elements rest']| |t] eqn:Helements;
          [discriminate.. |].
        injection Hread as <-.
        by rewrite (IHe r t Helements m) by lia. }
      destruct (Ascii.eqb c dquote).
      { by destruct (scan_string r) as [[? ?]|]. }
      destruct (Ascii.eqb c "t").
      { by destruct (strip_prefix "rue" r). }
      destruct (Ascii.eqb c "f").
      { by destruct (strip_prefix "alse" r). }
      destruct (Ascii.eqb c "n").
      { by destruct (strip_prefix "ull" r). }
      exact Hread.
    + intros s token Hread m Hm. cbn [read_elements] in Hread.
      destruct (read_value n s) as [[v rest0]| |t] eqn:Hvalue; [|discriminate |].
      2: { injection Hread as <-.
           assert (s <> "") as Hne by (intros ->; by destruct n).
           destruct s as [|a s']; [done |]. simpl in Hm.
           destruct m as [|m]; [lia |]. cbn [read_elements].
           by rewrite (IHv _ t Hvalue m) by (simpl; lia). }
      destruct (Av s v rest0 Hvalue) as [Hlen0 Hfuel0].
      simpl in Hread.
      pose proof (skip_ws_length rest0) as Hws.
      destruct (skip_ws rest0) as [|c r] eqn:Hrest0; [discriminate |]. simpl in Hws.
      destruct m as [|m]; [lia |]. cbn [read_elements].
      rewrite Hfuel0 by lia. simpl. rewrite Hrest0.
      destruct (Ascii.eqb c ",") eqn:Hcomma.
      * destruct (read_elements n r) as [[vs rest']| |t] eqn:Hmore; [discriminate.. |].
        injection Hread as <-.
        by rewrite (IHe r t Hmore m) by lia.
      * by destruct (Ascii.eqb c "]").
    + intros acc s token Hread m Hm. cbn [read_members] in Hread.
      pose proof (skip_ws_length s) as Hws.
      destruct (skip_ws s) as [|q r] eqn:Hs; [discriminate |]. simpl in Hws.
      destruct (Ascii.eqb q dquote) eqn:Hquote; [|discriminate].
      destruct (scan_string r) as [[key rest0]|] eqn:Hkey; [|discriminate].
      pose proof (scan_string_length _ _ _ Hkey) as Hlenkey.
      simpl in Hread.
      pose proof (skip_ws_length rest0) as Hws0.
      destruct (skip_ws rest0) as [|c r1] eqn:Hrest0; [discriminate |]. simpl in Hws0.
      destruct (Ascii.eqb c ":") eqn:Hcolon; [|discriminate].
      destruct m as [|m]; [lia |]. cbn [read_members].
      rewrite Hs, Hquote, Hkey. simpl. rewrite Hrest0, Hcolon.
      destruct (read_value n r1) as [[v rest1]| |t] eqn:Hvalue; [|discriminate |].
      2: { injection Hread as <-. by rewrite (IHv _ t Hvalue m) by lia. }
      destruct (Av r1 v rest1 Hvalue) as [Hlen1 Hfuel1].
      simpl in Hread.
      pose proof (skip_ws_length rest1) as Hws1.
      destruct (skip_ws rest1) as [|d r2] eqn:Hrest1; [discriminate |]. simpl in Hws1.
      rewrite Hfuel1 by lia. simpl. rewrite Hrest1.
      destruct (Ascii.eqb d ",") eqn:Hcomma.
      * apply (IHm _ r2 token Hread). lia.
      * by destruct (Ascii.eqb d "}").
Qed.

(** The fuel of [read_text] is enough for every text: what some fuel
    reads, or stops at, it reads, or stops at. *)
Lemma read_value_enough_fuel (n : nat) (s : string) :
  read_value n s <> Malformed ->
  read_value (2 * String.length s + 2) s = read_value n s.
Proof.
  intros Hread.
  destruct (read_value n s) as [[j rest]| |token] eqn:Hn; [| done |].
  - destruct (proj1 (parse_adequate n) s j rest Hn) as [_ Hfuel].
    apply Hfuel. lia.
  - apply (proj1 (read_stops n) s token Hn). lia.
Qed.

(** A text that parses with some fuel parses with the fuel of
    [parse_text]. *)
Lemma parse_value_enough_fuel (n : nat) (s : string) (j : json) (rest : string) :
  parse_value n s = Some (j, rest) ->
  parse_value (2 * String.length s + 2) s = Some (j, rest).
Proof.
  rewrite !read_of_value. intros Hparse.
  destruct (proj1 (parse_adequate n) s j rest Hparse) as [_ Hfuel].
  apply Hfuel. lia.
Qed.


End ParserFuel.

(** ** C5, C8 and C1: invocation and the returned envelope *)

Module Invocation.
Import Json JsonText Rttr Dispatcher Notions Facts Resolution Binding ArgumentForms Example.

Lemma Invoke_too_many (method : method) (instance : variant)
    (argsVariants : list variant) :
  6 < length argsVariants ->
  Invoke method instance argsVariants
  = Return (cxx "{`error`: `Too many arguments (max 6 supported)`}").
Proof.
  intros Hlen.
  do 7 (destruct argsVariants as [|? argsVariants]; [simpl in Hlen; lia |]).
  reflexivity.
Qed.

(** C5, as the code has it.  Arguments are built before the count is
    tested.  When argument building completes, the argument list has
    one slot per declared parameter; with more than 6 declared
    parameters dispatch yields exactly the envelope "Too many arguments
    (max 6 supported)", and with 0 to 6 the method is invoked with
    exactly the built arguments, one per parameter. *)
Theorem capacity_ceiling `{Platform}
    (w : world) (_instances : gmap string variant) (jsonCmd : string) (cmd : json)
    (instance : variant) (method : method) (argsVariants : list variant) :
  parse_text jsonCmd = Some cmd ->
  Resolve w _instances cmd = Normal (instance, method) ->
  BuildArguments cmd (parameter_infos method) = Normal argsVariants ->
  length argsVariants = length (parameter_infos method)
  /\ (6 < length (parameter_infos method) ->
      DispatchCommand w _instances jsonCmd
      = cxx "{`error`: `Too many arguments (max 6 supported)`}")
  /\ (length (parameter_infos method) <= 6 ->
      Invoke method instance argsVariants
      = call (invoke method instance argsVariants)
      /\ Body w _instances jsonCmd
         = (result ← call (invoke method instance argsVariants);
            Serialize w method result)).
Proof.
  intros Hparse Hresolve Hbuild.
  assert (length argsVariants = length (parameter_infos method)) as Hlen.
  { rewrite BuildArguments_bound in Hbuild. by eapply bound_from_length. }
  assert (Body w _instances jsonCmd
          = (result ← Invoke method instance argsVariants;
             Serialize w method result)) as Hbody.
  { rewrite (Body_parsed w _instances jsonCmd cmd Hparse), Hresolve. simpl.
    by rewrite Hbuild. }
  split; [exact Hlen |]. split.
  - intros Hmany. unfold DispatchCommand.
    rewrite Hbody, Invoke_too_many by lia. reflexivity.
  - intros Hfew.
    rewrite Hbody, Invoke_passes_arguments by lia. by split.
Qed.

(** Blend, a method of seven parameters, called with seven integers. *)
Lemma capacity_ceiling_witness :
  let text := cxx "{`method`: `Mixer.Blend`, `args`: [1, 2, 3, 4, 5, 6, 7]}" in
  6 < length (parameter_infos Blend)
  /\ forall P : Platform,
      DispatchCommand order_system registered text
      = cxx "{`error`: `Too many arguments (max 6 supported)`}".
Proof.
  assert (6 < length (parameter_infos Blend)) as Hmany by (simpl; lia).
  split; [exact Hmany |]. intros P.
  refine (proj1 (proj2
    (capacity_ceiling order_system registered _
       (Object [("args", Array (map NumberUnsigned [1; 2; 3; 4; 5; 6; 7]%Z));
                ("method", Str "Mixer.Blend")])
       (object_value Mixer_id 0) Blend
       (map int_value [1; 2; 3; 4; 5; 6; 7]%Z) _ _ _)) Hmany).
  - by vm_compute.
  - reflexivity.
  - reflexivity.
Defined.

(** Blend has seven declared parameters and resolves; called with the
    string x for its first, integer, parameter, dispatch does not yield
    the capacity envelope: the exception of the coercion comes first. *)
Lemma capacity_ceiling_counterexample :
  let text := cxx "{`method`: `Mixer.Blend`, `args`: [`x`]}" in
  let cmd := Object [("args", Array [Str "x"]); ("method", Str "Mixer.Blend")] in
  parse_text text = Some cmd
  /\ Resolve order_system registered cmd = Normal (object_value Mixer_id 0, Blend)
  /\ length (parameter_infos Blend) = 7
  /\ forall P : Platform,
      DispatchCommand order_system registered text
      = cxx "{`error`: `Dispatch exception: " +:+ what_invalid_argument "stoi" +:+ cxx "`}"
      /\ DispatchCommand order_system registered text
         <> cxx "{`error`: `Too many arguments (max 6 supported)`}".
Proof.
  split; [by vm_compute |]. split; [reflexivity |]. split; [reflexivity |].
  intros P.
  assert (DispatchCommand order_system registered
            (cxx "{`method`: `Mixer.Blend`, `args`: [`x`]}")
          = cxx "{`error`: `Dispatch exception: " +:+ what_invalid_argument "stoi"
            +:+ cxx "`}") as Hout by (by vm_compute).
  split; [exact Hout |]. rewrite Hout. vm_compute. discriminate.
Qed.

(** The void envelope is returned for an invalid result only: a valid
    result, the void variant of a successful call included, is
    serialized. *)
Lemma Serialize_void_envelope `{Platform} (w : world) (method : method) (result : variant) :
  Serialize w method result = Return (cxx "{`result`: `void`}") ->
  result = invalid /\ return_type method = t_void.
Proof.
  unfold Serialize. destruct (is_valid result) eqn:Hvalid; simpl.
  - unfold dump_string.
    destruct (utf8_valid (to_string w result)); simpl; [|discriminate].
    intros Hresponse. vm_compute in Hresponse. discriminate.
  - destruct result; try discriminate.
    destruct (bool_decide (return_type method = t_void)) eqn:Hvoid.
    + intros _. by apply bool_decide_eq_true in Hvoid.
    + intros Hresponse. vm_compute in Hresponse. discriminate.
Qed.

(** C8, at a failing input.  CancelOrder returns void; the command below
    resolves it on the registered OrderManager, builds its one argument
    and invokes it successfully: RTTR returns the valid variant of type
    void.  The test [!result.is_valid()] is then false, and the
    dispatcher serializes the empty string of [to_string()] instead of
    returning the void envelope. *)
Theorem void_success_is_serialized (P : Platform) :
  let text := cxx "{`context`: `OrderManager`, `method`: `CancelOrder`, `args`: [1001]}" in
  let cmd := Object [("args", Array [NumberUnsigned 1001]);
                     ("context", Str "OrderManager"); ("method", Str "CancelOrder")] in
  parse_text text = Some cmd
  /\ Resolve order_system registered cmd
     = Normal (object_value OrderManager_id 0, CancelOrder)
  /\ return_type CancelOrder = t_void
  /\ BuildArguments cmd (parameter_infos CancelOrder) = Normal [int_value 1001]
  /\ invoke CancelOrder (object_value OrderManager_id 0) [int_value 1001]
     = inr void_value
  /\ DispatchCommand order_system registered text = cxx "{`result`:``}"
  /\ DispatchCommand order_system registered text <> cxx "{`result`: `void`}".
Proof. by vm_compute. Qed.

(** C1, at a failing input.  A method name that holds a double quote
    and no dot, with no class and no context: the error envelope
    interpolates the name as it is, and the returned text is not JSON,
    whatever fuel the parser is given. *)
Theorem error_envelope_is_not_escaped
    (P : Platform) (w : world) (_instances : gmap string variant) :
  let text := cxx "{`method`:`a\`b`}" in
  let response := DispatchCommand w _instances text in
  parse_text text = Some (Object [("method", Str (cxx "a`b"))])
  /\ response
     = cxx "{`error`: `Invalid JSON command structure: missing class or context, and method name 'a`b' has no dot separator.`}"
  /\ parse_text response = None
  /\ forall fuel, parse_value fuel response = None.
Proof.
  split; [by vm_compute |]. split; [by vm_compute |]. split; [by vm_compute |].
  intros [|[|[|fuel]]]; by vm_compute.
Qed.

End Invocation.

(** ** The text of the manifest *)

Module Manifest.
Import Json JsonText Rttr Dispatcher ManifestGenerator Notions Facts Example.

Local Arguments String.append : simpl nomatch.

Section Catalog.
Context `{Platform}.
Variable w : world.

Lemma separated_from_app (first : bool) (l1 l2 : list string) :
  separated_from first (l1 ++ l2)
  = separated_from first l1
    +:+ separated_from (match l1 with [] => first | _ => false end) l2.
Proof.
  revert first. induction l1 as [|x l1 IH]; intros first; [reflexivity |].
  simpl. rewrite IH, !append_assoc. by destruct l1.
Qed.

Lemma Parameters_separated (firstParam : bool) (params : list parameter_info) :
  Parameters w firstParam params
  = separated_from firstParam (map (parameter_entry w) params).
Proof.
  revert firstParam. induction params as [|p rest IH]; intros firstParam;
    [reflexivity |].
  cbn [Parameters map separated_from]. rewrite IH. unfold parameter_entry.
  by rewrite !append_assoc.
Qed.

Lemma Methods_separated (className : string) (firstFunc : bool) (meths : list method) :
  Methods w className firstFunc meths
  = (separated_from firstFunc (map (Function w className) meths),
     match meths with [] => firstFunc | _ => false end).
Proof.
  revert firstFunc. induction meths as [|meth rest IH]; intros firstFunc;
    [reflexivity |].
  cbn [Methods map separated_from]. rewrite IH. by destruct rest.
Qed.

Lemma first_after_map {A B : Type} (f : A -> B) (l : list A) (first : bool) :
  match map f l with [] => first | _ => false end
  = match l with [] => first | _ => false end.
Proof. by destruct l. Qed.

Lemma entries_of_type (t : type) (meths : list method) :
  entry w <$> (meth ← meths; [(t, meth)])
  = map (Function w (get_name w t)) meths.
Proof.
  induction meths as [|meth rest IH]; [reflexivity |].
  rewrite bind_cons, fmap_app, IH. reflexivity.
Qed.

(** The methods of the types [types], as [catalog_methods] lists them. *)
Lemma Types_separated (firstFunc : bool) (types : list type) :
  Types w firstFunc types
  = separated_from firstFunc
      (map (entry w)
         (t ← filter (fun t => is_class w t = true) types;
          meth ← get_methods w t; [(t, meth)])).
Proof.
  revert firstFunc. induction types as [|t rest IH]; intros firstFunc;
    [reflexivity |].
  cbn [Types]. rewrite filter_cons.
  destruct (is_class w t) eqn:Hclass; simpl negb; cbv iota.
  - rewrite decide_True by reflexivity.
    rewrite Methods_separated, IH.
    rewrite bind_cons, fmap_app, separated_from_app, entries_of_type.
    f_equal. rewrite first_after_map. reflexivity.
  - rewrite decide_False by discriminate. apply IH.
Qed.

Lemma Function_entry (t : type) (meth : method) :
  entry w (t, meth)
  = cxx "{`name`: `" +:+ EscapeJson (get_name w t +:+ "." +:+ method_name meth)
    +:+ cxx "`,`description`: `" +:+ EscapeJson (description w meth)
    +:+ cxx "`,`parameters`: ["
    +:+ separated (map (parameter_entry w) (parameter_infos meth))
    +:+ "]}".
Proof.
  unfold entry, Function, description, separated. cbn [fst snd].
  rewrite Parameters_separated.
  assert ((if is_valid (get_metadata meth "description")
           then to_string w (get_metadata meth "description") else "")
          = match get_metadata meth "description" with
            | invalid => ""
            | descVar => to_string w descVar
            end) as -> by (by destruct (get_metadata meth "description")).
  reflexivity.
Qed.

End Catalog.

End Manifest.

(** ** The manifest read back as JSON *)

Module ManifestJson.
Import Json JsonText Rttr ManifestGenerator Notions Facts ParserFuel Manifest.

Local Arguments String.append : simpl nomatch.

(** *** Strings: the lexer undoes [EscapeJson] *)

Lemma scan_EscapeChar_ascii (c : ascii) (text : string) :
  in_range 0 127 c = true ->
  scan_string (EscapeChar c +:+ text) = prepend (String c EmptyString) (scan_string text).
Proof.
  destruct c as [b0 b1 b2 b3 b4 b5 b6 b7].
  destruct b0, b1, b2, b3, b4, b5, b6, b7; intros Hc;
    try (vm_compute in Hc; discriminate Hc); reflexivity.
Qed.

Lemma high_byte (c : ascii) :
  in_range 0 127 c = false ->
  EscapeChar c = String c EmptyString
  /\ Ascii.eqb c dquote = false /\ Ascii.eqb c "\" = false
  /\ in_range 0 31 c = false /\ in_range 32 127 c = false.
Proof.
  destruct c as [b0 b1 b2 b3 b4 b5 b6 b7].
  destruct b0, b1, b2, b3, b4, b5, b6, b7; intros Hc;
    try (vm_compute in Hc; discriminate Hc); by vm_compute.
Qed.

Lemma continuation_byte (c : ascii) :
  in_range 128 191 c = true -> EscapeChar c = String c EmptyString.
Proof.
  intros Hc. apply high_byte.
  destruct c as [b0 b1 b2 b3 b4 b5 b6 b7].
  destruct b0, b1, b2, b3, b4, b5, b6, b7;
    try (vm_compute in Hc; discriminate Hc); reflexivity.
Qed.

Lemma scan_high2 (a b : ascii) (text : string) :
  in_range 0 127 a = false -> utf8_seq2 a b = true ->
  scan_string (String a (String b text))
  = prepend (String a (String b EmptyString)) (scan_string text).
Proof.
  intros Ha Hseq. destruct (high_byte a Ha) as (_ & H1 & H2 & H3 & H4).
  cbn [scan_string]. by rewrite H1, H2, H3, H4, Hseq.
Qed.

Lemma scan_high3 (a b c : ascii) (text : string) :
  in_range 0 127 a = false -> utf8_seq2 a b = false -> utf8_seq3 a b c = true ->
  scan_string (String a (String b (String c text)))
  = prepend (String a (String b (String c EmptyString))) (scan_string text).
Proof.
  intros Ha Hseq2 Hseq. destruct (high_byte a Ha) as (_ & H1 & H2 & H3 & H4).
  cbn [scan_string]. by rewrite H1, H2, H3, H4, Hseq2, Hseq.
Qed.

Lemma scan_high4 (a b c d : ascii) (text : string) :
  in_range 0 127 a = false -> utf8_seq2 a b = false -> utf8_seq3 a b c = false ->
  utf8_seq4 a b c d = true ->
  scan_string (String a (String b (String c (String d text))))
  = prepend (String a (String b (String c (String d EmptyString)))) (scan_string text).
Proof.
  intros Ha Hseq2 Hseq3 Hseq. destruct (high_byte a Ha) as (_ & H1 & H2 & H3 & H4).
  cbn [scan_string]. by rewrite H1, H2, H3, H4, Hseq2, Hseq3, Hseq.
Qed.

Lemma seq2_continuation (a b : ascii) :
  utf8_seq2 a b = true -> in_range 128 191 b = true.
Proof. unfold utf8_seq2. by intros [_ ?]%andb_true_iff. Qed.

Lemma seq3_continuation (a b c : ascii) :
  utf8_seq3 a b c = true -> in_range 128 191 b = true /\ in_range 128 191 c = true.
Proof.
  unfold utf8_seq3. intros [[_ Hb]%andb_true_iff Hc]%andb_true_iff.
  split; [|exact Hc]. unfold in_range in *.
  repeat match goal with
         | H : context [if ?x then _ else _] |- _ => destruct x
         end;
    apply andb_true_iff in Hb as [H1 H2]; apply N.leb_le in H1, H2;
    apply andb_true_iff; split; apply N.leb_le; lia.
Qed.

Lemma seq4_continuation (a b c d : ascii) :
  utf8_seq4 a b c d = true ->
  in_range 128 191 b = true /\ in_range 128 191 c = true /\ in_range 128 191 d = true.
Proof.
  unfold utf8_seq4.
  intros [[[_ Hb]%andb_true_iff Hc]%andb_true_iff Hd]%andb_true_iff.
  split; [|by split]. unfold in_range in *.
  repeat match goal with
         | H : context [if ?x then _ else _] |- _ => destruct x
         end;
    apply andb_true_iff in Hb as [H1 H2]; apply N.leb_le in H1, H2;
    apply andb_true_iff; split; apply N.leb_le; lia.
Qed.

Lemma scan_string_EscapeJson_aux (n : nat) (s rest : string) :
  String.length s <= n ->
  utf8_valid s = true ->
  scan_string (EscapeJson s +:+ String dquote rest) = Some (s, rest).
Proof.
  revert s. induction n as [|n IH]; intros s Hn Hvalid.
  - destruct s; [reflexivity | simpl in Hn; lia].
  - destruct s as [|a r]; [reflexivity |].
    simpl in Hn. cbn [utf8_valid] in Hvalid. cbn [EscapeJson].
    destruct (in_range 0 127 a) eqn:Ha.
    { rewrite append_assoc, scan_EscapeChar_ascii, IH by (done || lia). reflexivity. }
    destruct (high_byte a Ha) as (Hesc & _). rewrite Hesc.
    destruct r as [|b r1]; [discriminate |]. simpl in Hn.
    destruct (utf8_seq2 a b) eqn:Hseq2.
    { cbn [EscapeJson].
      rewrite (continuation_byte b (seq2_continuation a b Hseq2)).
      change (scan_string (String a (String b (EscapeJson r1 +:+ String dquote rest)))
              = Some (String a (String b r1), rest)).
      rewrite scan_high2, IH by (done || lia). reflexivity. }
    destruct r1 as [|c r2]; [discriminate |]. simpl in Hn.
    destruct (utf8_seq3 a b c) eqn:Hseq3.
    { destruct (seq3_continuation a b c Hseq3) as [Hb Hc].
      cbn [EscapeJson].
      rewrite (continuation_byte b Hb), (continuation_byte c Hc).
      change (scan_string
                (String a (String b (String c (EscapeJson r2 +:+ String dquote rest))))
              = Some (String a (String b (String c r2)), rest)).
      rewrite scan_high3, IH by (done || lia). reflexivity. }
    destruct r2 as [|d r3]; [discriminate |]. simpl in Hn.
    apply andb_true_iff in Hvalid as [Hseq4 Hvalid].
    destruct (seq4_continuation a b c d Hseq4) as (Hb & Hc & Hd).
    cbn [EscapeJson].
    rewrite (continuation_byte b Hb), (continuation_byte c Hc), (continuation_byte d Hd).
    change (scan_string
              (String a (String b (String c (String d
                 (EscapeJson r3 +:+ String dquote rest)))))
            = Some (String a (String b (String c (String d r3))), rest)).
    rewrite scan_high4, IH by (done || lia). reflexivity.
Qed.

(** The lexer reads back what [EscapeJson] wrote between quotes. *)
Lemma scan_string_EscapeJson (s rest : string) :
  utf8_valid s = true ->
  scan_string (EscapeJson s +:+ String dquote rest) = Some (s, rest).
Proof. by apply (scan_string_EscapeJson_aux (String.length s)). Qed.

Lemma parse_parameter_entry (w : world) (p : parameter_info) (m : nat) (rest : string) :
  parameter_utf8 w p ->
  read_value (S (S (S (S m)))) (parameter_entry w p +:+ rest)
  = Read (parameter_json w p, rest).
Proof.
  intros [Hname Htype]. unfold parameter_entry.
  rewrite !append_assoc. simpl.
  rewrite (scan_string_EscapeJson _ _ Hname). simpl.
  rewrite (scan_string_EscapeJson _ _ Htype). reflexivity.
Qed.


Lemma separated_from_false (items : list string) :
  items <> [] -> separated_from false items = String "," (separated_from true items).
Proof. by destruct items. Qed.

(** The elements of an array written by the generator, each of which the
    parser reads with the fuel [need] gives it. *)
Lemma read_elements_separated {A : Type} (text : A -> string) (value : A -> json)
    (need : A -> nat) (items : list A) :
  Forall (fun a => forall m rest,
              need a <= m -> read_value m (text a +:+ rest) = Read (value a, rest))
         items ->
  items <> [] ->
  forall m rest,
    sum_list_with (fun a => S (need a)) items <= m ->
    read_elements m (separated_from true (map text items) +:+ String "]" rest)
    = Read (map value items, rest).
Proof.
  induction 1 as [|a items Ha Hitems IH]; [done |]. intros _ m rest Hm.
  cbn [sum_list_with] in Hm. destruct m as [|m]; [lia |].
  cbn [map separated_from read_elements]. rewrite !append_assoc.
  change ("" +:+ ?x) with x.
  rewrite Ha by lia. simpl.
  destruct items as [|b items].
  - reflexivity.
  - rewrite separated_from_false by done. simpl.
    rewrite IH by (done || lia). reflexivity.
Qed.

Lemma parse_array_separated {A : Type} (text : A -> string) (value : A -> json)
    (need : A -> nat) (items : list A) (m : nat) (rest : string) :
  Forall (fun a => forall m rest,
              need a <= m -> read_value m (text a +:+ rest) = Read (value a, rest))
         items ->
  Forall (fun a => exists body, text a = String "{" body) items ->
  sum_list_with (fun a => S (need a)) items <= m ->
  read_value (S m)
    (String "[" (separated_from true (map text items) +:+ String "]" rest))
  = Read (Array (map value items), rest).
Proof.
  intros Hparse Hbrace Hm. destruct items as [|a items]; [reflexivity |].
  pose proof (read_elements_separated text value need (a :: items)
                Hparse ltac:(done) m rest Hm) as Helements.
  apply Forall_cons in Hbrace as [[body Hbody] _].
  cbn [map separated_from] in *. rewrite Hbody in *.
  rewrite !append_assoc in *. simpl in *.
  by rewrite Helements.
Qed.

Lemma read_value_space (m : nat) (text : string) :
  read_value m (String " " text) = read_value m text.
Proof. by destruct m. Qed.

Section Catalog.
Context `{Platform}.
Variable w : world.

Lemma parameters_fuel (params : list parameter_info) :
  sum_list_with (fun _ : parameter_info => 5) params = 5 * length params.
Proof. induction params as [|p rest IH]; simpl; lia. Qed.

Lemma parse_parameters (params : list parameter_info) (m : nat) (rest : string) :
  Forall (parameter_utf8 w) params ->
  5 * length params <= m ->
  read_value (S m)
    (String "[" (separated_from true (map (parameter_entry w) params) +:+ String "]" rest))
  = Read (Array (map (parameter_json w) params), rest).
Proof.
  intros Hutf8 Hm.
  apply (parse_array_separated (parameter_entry w) (parameter_json w) (fun _ => 4)).
  - eapply Forall_impl; [exact Hutf8 |]. intros p Hp k rest' Hk.
    do 4 (destruct k as [|k]; [lia |]). by apply parse_parameter_entry.
  - apply Forall_forall. intros p _. by eexists.
  - by rewrite parameters_fuel.
Qed.

(** The fuel that reads the entry of a method. *)
Lemma parse_entry (tm : type * method) (m : nat) (rest : string) :
  entry_utf8 w tm ->
  5 * length (parameter_infos tm.2) + 5 <= m ->
  read_value m (entry w tm +:+ rest) = Read (entry_json w tm, rest).
Proof.
  destruct tm as [t meth]. intros (Hname & Hdesc & Hparams) Hm.
  rewrite Function_entry. unfold separated, entry_json. cbn [fst snd] in *.
  do 4 (destruct m as [|m]; [lia |]).
  rewrite !append_assoc. simpl.
  rewrite (scan_string_EscapeJson _ _ Hname). simpl.
  rewrite (scan_string_EscapeJson _ _ Hdesc). simpl.
  destruct m as [|m]; [lia |].
  rewrite read_value_space, (parse_parameters (parameter_infos meth) m _ Hparams) by lia.
  reflexivity.
Qed.

End Catalog.

Lemma GenerateManifest_text `{Platform} (w : world) (appName : string) :
  GenerateManifest w appName
  = cxx "{`language`: `cpp`,`appName`: `" +:+ EscapeJson appName
    +:+ cxx "`,`functions`: ["
    +:+ separated (map (entry w) (catalog_methods w))
    +:+ "]}".
Proof. unfold GenerateManifest. rewrite Types_separated. reflexivity. Qed.

(** The fuel that reads the manifest. *)
Lemma parse_manifest `{Platform} (w : world) (appName : string) (m : nat) :
  utf8_valid appName = true ->
  catalog_utf8 w ->
  sum_list_with (fun tm => S (5 * length (parameter_infos tm.2) + 5)) (catalog_methods w) + 5
  <= m ->
  read_value m (GenerateManifest w appName) = Read (manifest_json w appName, "").
Proof.
  intros Happ Hcatalog Hm. rewrite GenerateManifest_text. unfold separated, manifest_json.
  do 4 (destruct m as [|m]; [lia |]).
  rewrite ?append_assoc. simpl.
  rewrite (scan_string_EscapeJson _ _ Happ). simpl.
  destruct m as [|m]; [lia |].
  rewrite read_value_space.
  rewrite (parse_array_separated (entry w) (entry_json w)
             (fun tm => 5 * length (parameter_infos tm.2) + 5) (catalog_methods w) m).
  - reflexivity.
  - eapply Forall_impl; [exact Hcatalog |]. intros tm Htm k rest Hk.
    by apply parse_entry.
  - apply Forall_forall. intros tm _. by eexists.
  - lia.
Qed.

Lemma parse_text_of_value (s : string) (j : json) (n : nat) :
  skip_bom s = Some s ->
  read_value n s = Read (j, "") ->
  parse_text s = Some j.
Proof.
  intros Hbom Hparse. apply read_of_value, parse_value_enough_fuel, read_of_value in Hparse.
  apply read_of_text. unfold read_text. rewrite Hbom. simpl scanned.
  unfold mbind, reading_bind. by rewrite Hparse.
Qed.

Lemma GenerateManifest_head `{Platform} (w : world) (appName : string) :
  exists body, GenerateManifest w appName = String "{" body.
Proof. unfold GenerateManifest. by eexists. Qed.

(** The manifest of a catalog whose names are UTF-8 is the JSON text of
    [manifest_json]. *)
Lemma GenerateManifest_parses `{Platform} (w : world) (appName : string) :
  utf8_valid appName = true ->
  catalog_utf8 w ->
  parse_text (GenerateManifest w appName) = Some (manifest_json w appName).
Proof.
  intros Happ Hcatalog.
  destruct (GenerateManifest_head w appName) as [body Hhead].
  apply (parse_text_of_value (GenerateManifest w appName) _
           (sum_list_with (fun tm => S (5 * length (parameter_infos tm.2) + 5))
              (catalog_methods w) + 5)).
  - rewrite Hhead. reflexivity.
  - by apply parse_manifest.
Qed.

End ManifestJson.

(** ** C7: the manifest lists every method of the catalog once *)

Module ManifestContents.
Import Json JsonText Rttr ManifestGenerator Notions Facts Manifest ManifestJson Example.

(** C7.  The generated manifest is JSON text, and the "functions" array
    of the document it denotes holds, for every method of every
    class-like type of the catalog, one entry: the k-th element of the
    array is the entry of the k-th method of the catalog.  The entry is
    named "<Type>.<Method>" and carries the method's description, the
    empty string when it has none, and its parameters by name and type
    name.  Traversing the catalog in another order permutes the entries
    and changes nothing else.  (The names and descriptions are taken to
    be UTF-8, which JSON text has to be.) *)
Theorem every_method_listed_once `{Platform} (w : world) (appName : string) :
  (utf8_valid appName = true -> catalog_utf8 w ->
   parse_text (GenerateManifest w appName) = Some (manifest_json w appName))
  /\ at_key (manifest_json w appName) "functions"
     = Array (map (entry_json w) (catalog_methods w))
  /\ (forall t meth,
        entry_json w (t, meth)
        = Object [("description", Str (description w meth));
                  ("name", Str (get_name w t +:+ "." +:+ method_name meth));
                  ("parameters",
                   Array (map (fun p => Object [("name", Str (param_name p));
                                                ("type", Str (get_name w (param_type p)))])
                            (parameter_infos meth)))])
  /\ (forall meth,
        get_metadata meth "description" = invalid -> description w meth = "")
  /\ GenerateManifest w appName
     = cxx "{`language`: `cpp`,`appName`: `" +:+ EscapeJson appName
       +:+ cxx "`,`functions`: ["
       +:+ separated (map (entry w) (catalog_methods w))
       +:+ "]}"
  /\ (forall types,
        Permutation types (get_types w) ->
        Permutation (catalog_methods (traversed types w)) (catalog_methods w)
        /\ Permutation
             (map (entry_json (traversed types w)) (catalog_methods (traversed types w)))
             (map (entry_json w) (catalog_methods w))
        /\ Permutation
             (map (entry (traversed types w)) (catalog_methods (traversed types w)))
             (map (entry w) (catalog_methods w))).
Proof.
  split; [apply GenerateManifest_parses |].
  split; [reflexivity |]. split; [reflexivity |]. split; [|split].
  - intros meth Hnone. unfold description. by rewrite Hnone.
  - apply GenerateManifest_text.
  - intros types Hperm.
    assert (Permutation (catalog_methods (traversed types w)) (catalog_methods w))
      as Hmethods.
    { unfold catalog_methods. cbn [get_types is_class get_methods traversed].
      apply bind_Permutation. by apply filter_Permutation. }
    split; [exact Hmethods |]. split.
    + change (entry_json (traversed types w)) with (entry_json w).
      by apply fmap_Permutation.
    + change (entry (traversed types w)) with (entry w).
      by apply fmap_Permutation.
Qed.

(** The catalog of the order system, of which every name is ASCII, as it
    is and traversed with its types reversed. *)
Lemma every_method_listed_once_witness :
  Permutation (rev (get_types order_system)) (get_types order_system)
  /\ forall P : Platform,
      parse_text (GenerateManifest order_system "CppOrderSystem")
      = Some (manifest_json order_system "CppOrderSystem")
      /\ Permutation
           (map (entry_json (traversed (rev (get_types order_system)) order_system))
              (catalog_methods (traversed (rev (get_types order_system)) order_system)))
           (map (entry_json order_system) (catalog_methods order_system)).
Proof.
  assert (Permutation (rev (get_types order_system)) (get_types order_system))
    as Hperm by (symmetry; apply Permutation_rev).
  split; [exact Hperm |]. intros P.
  pose proof (every_method_listed_once order_system "CppOrderSystem")
    as (Hparse & _ & _ & _ & _ & Hpermuted).
  split.
  - apply Hparse; [reflexivity |].
    repeat constructor.
  - exact (proj1 (proj2 (Hpermuted (rev (get_types order_system)) Hperm))).
Defined.

End ManifestContents.

(** ** The texts [DispatchCommand] returns *)

Module Envelopes.
Import Json JsonText Rttr Dispatcher Notions Facts Binding.

Local Arguments String.append : simpl nomatch.

(** Induction on a JSON value, with the hypothesis for every element of
    an array and every member of an object. *)
Lemma json_nested_ind (P : json -> Prop) :
  P Null ->
  (forall b, P (Boolean b)) ->
  (forall n, P (NumberInteger n)) ->
  (forall n, P (NumberUnsigned n)) ->
  (forall lexeme, P (NumberFloat lexeme)) ->
  (forall s, P (Str s)) ->
  (forall elements, Forall P elements -> P (Array elements)) ->
  (forall members, Forall (fun kv => P kv.2) members -> P (Object members)) ->
  forall j, P j.
Proof.
  intros HNull HBoolean HInteger HUnsigned HFloat HStr HArray HObject.
  fix IH 1. intros [| b | n | n | lexeme | s | elements | members].
  - exact HNull.
  - apply HBoolean.
  - apply HInteger.
  - apply HUnsigned.
  - apply HFloat.
  - apply HStr.
  - apply HArray. induction elements as [|x rest IHrest]; constructor; [apply IH | exact IHrest].
  - apply HObject. induction members as [|[k v] rest IHrest]; constructor; [apply IH | exact IHrest].
Qed.

Lemma dump_string_not_Return `{Platform} (s r : string) : dump_string s <> Return r.
Proof. unfold dump_string. by destruct (utf8_valid s). Qed.

(** The serializer yields a text or throws. *)
Lemma dump_not_Return `{Platform} (j : json) (r : string) : dump j <> Return r.
Proof.
  revert r. induction j as [| b | n | n | lexeme | s | elements IH | members IH]
    using json_nested_ind; intros r; try done.
  - apply dump_string_not_Return.
  - cbn [dump].
    match goal with |- (_ ← ?items elements; _) <> _ => set (it := items) end.
    assert (forall r, it elements <> Return r) as Hitems.
    { induction IH as [|x rest Hx Hrest IHrest]; [by intros r' |]. intros r'.
      cbn [it]. destruct rest as [|y rest]; [apply Hx |].
      fold it. pose proof (Hx r') as Hx'. pose proof (IHrest r') as Hr.
      destruct (dump x) as [a|?|?]; [|done..].
      destruct (it (y :: rest)) as [b|?|?]; done. }
    pose proof (Hitems r) as Hr. destruct (it elements); done.
  - cbn [dump].
    match goal with |- (_ ← ?items members; _) <> _ => set (it := items) end.
    assert (forall k v r, Forall (fun kv => forall r, dump kv.2 <> Return r) [(k, v)] ->
              (a ← dump_string k; b ← dump v; Normal (a +:+ ":" +:+ b)) <> Return r)
      as Hmember.
    { intros k v r' [Hv _]%Forall_cons. simpl in Hv.
      pose proof (dump_string_not_Return k r') as Hk.
      destruct (dump_string k); [|done..]. simpl.
      pose proof (Hv r') as Hv'. destruct (dump v); done. }
    assert (forall r, it members <> Return r) as Hitems.
    { induction IH as [|[k v] rest Hx Hrest IHrest]; [by intros r' |]. intros r'.
      cbn [it]. destruct rest as [|y rest].
      - apply Hmember. by constructor.
      - fold it. pose proof (Hmember k v r' ltac:(by constructor)) as Hx'.
        pose proof (IHrest r') as Hr.
        destruct (a ← dump_string k; b ← dump v; Normal (a +:+ ":" +:+ b)) as [a|?|?];
          [|done..].
        destruct (it (y :: rest)) as [b|?|?]; done. }
    pose proof (Hitems r) as Hr. destruct (it members); done.
Qed.

Section Dispatch.
Context `{Platform}.
Variable w : world.
Variable _instances : gmap string variant.

Local Ltac error_with prefix detail :=
  exists prefix, detail; split;
  [cbn; tauto | unfold error_envelope; rewrite ?append_assoc; reflexivity].

Lemma bind_not_Return {A B : Type} (m : outcome A) (f : A -> outcome B) (r : string) :
  (forall r, m <> Return r) -> (forall a r, f a <> Return r) -> m ≫= f <> Return r.
Proof.
  intros Hm Hf. destruct m as [a|r'|e]; simpl; [apply Hf | by destruct (Hm r') | done].
Qed.

Lemma JsonToVariant_not_Return (jVal : json) (targetType : type) (r : string) :
  JsonToVariant jVal targetType <> Return r.
Proof.
  unfold JsonToVariant.
  destruct targetType; try done.
  - destruct jVal; cbn; done.
  - destruct jVal; cbn; try done.
    unfold Std.stoi. destruct (Std.strtol s); [case_match|]; done.
  - destruct jVal; cbn; try done. by destruct (stof s).
  - destruct jVal; cbn; try done. by destruct (stod s).
  - destruct (is_string jVal).
    + by destruct jVal.
    + pose proof (dump_not_Return jVal r) as Hdump.
      change (mbind (fun s => Normal (string_value s)) (dump jVal) <> Return r).
      destruct (dump jVal); simpl; [done | | done].
      intros [= ->]. by destruct Hdump.
Qed.

Lemma bound_from_not_Return (supply : nat -> parameter_info -> option json)
    (i : nat) (params : list parameter_info) (r : string) :
  bound_from supply i params <> Return r.
Proof.
  revert i r. induction params as [|param rest IH]; intros i r; [done |].
  cbn [bound_from]. apply bind_not_Return.
  - intros r'. unfold bound. destruct (supply i param); [|done].
    apply JsonToVariant_not_Return.
  - intros v r'. apply bind_not_Return; [apply IH | done].
Qed.

Lemma ResolveContext_Return (cmd : json) (methodNameFull r : string) :
  ResolveContext cmd methodNameFull = Return r -> is_error r.
Proof.
  unfold ResolveContext.
  destruct (contains cmd "class" && negb (is_null (at_key cmd "class"))).
  { destruct (at_key cmd "class"); done. }
  destruct (contains cmd "context").
  { destruct (at_key cmd "context"); done. }
  destruct (rfind "." methodNameFull); [done |]. intros [= <-].
  error_with "Invalid JSON command structure: "
    ("missing class or context, and method name '" +:+ methodNameFull
     +:+ "' has no dot separator.").
Qed.

Lemma Resolve_Return (cmd : json) (r : string) :
  Resolve w _instances cmd = Return r -> is_error r.
Proof.
  unfold Resolve. destruct (contains cmd "method"); simpl.
  2: { intros [= <-]. error_with "Invalid JSON command structure: " "missing method". }
  destruct (get_string (at_key cmd "method")) as [methodNameFull|?|?] eqn:Hname;
    [|by destruct (at_key cmd "method") | done].
  simpl.
  destruct (ResolveContext cmd methodNameFull) as [[ctx methodName]|r'|?] eqn:Hcontext;
    simpl; [| intros [= <-]; by eapply ResolveContext_Return | done].
  destruct (is_valid (InstanceRegistry.Get _instances ctx)); simpl.
  2: { intros [= <-]. error_with "Instance not found: " ctx. }
  destruct (Unwrap w (InstanceRegistry.Get _instances ctx)) as [type instance].
  destruct (get_method w type (ResolveMethodName methodName methodNameFull)); [done |].
  intros [= <-].
  error_with "Method not found: "
    (ResolveMethodName methodName methodNameFull +:+ " on type " +:+ get_name w type).
Qed.

Lemma Invoke_Return (method : method) (instance : variant) (argsVariants : list variant)
    (r : string) :
  Invoke method instance argsVariants = Return r -> is_error r.
Proof.
  unfold Invoke.
  do 7 (destruct argsVariants as [|? argsVariants];
        [cbn [length]; by destruct (invoke _ _ _) |]).
  intros [= <-]. error_with "Too many arguments (max 6 supported)" "".
Qed.

Lemma Serialize_result (method : method) (result : variant) :
  is_valid result = true ->
  Serialize w method result
  = if utf8_valid (to_string w result)
    then Return (result_envelope (to_string w result))
    else Throw (std_exception (what_invalid_utf8 (to_string w result))).
Proof.
  intros Hvalid. unfold Serialize. rewrite Hvalid. simpl.
  unfold dump_string. replace (utf8_valid "result") with true by reflexivity.
  simpl. destruct (utf8_valid (to_string w result)); [|reflexivity].
  simpl. unfold result_envelope. by rewrite append_assoc.
Qed.

Lemma Serialize_outcome (method : method) (result : variant) :
  match Serialize w method result with
  | Normal _ => False
  | Return r =>
      is_error r \/ r = void_envelope
      \/ exists s, utf8_valid s = true /\ r = result_envelope s
  | Throw _ => True
  end.
Proof.
  destruct (is_valid result) eqn:Hvalid.
  - rewrite Serialize_result by done.
    destruct (utf8_valid (to_string w result)) eqn:Hutf8; [|done].
    right; right. by exists (to_string w result).
  - unfold Serialize. rewrite Hvalid. simpl.
    destruct (bool_decide (return_type method = t_void)).
    + right; by left.
    + left. error_with "Invocation failed (returned invalid variant)" "".
Qed.

End Dispatch.

(** Whatever the command text, the catalog and the registry,
    [DispatchCommand] returns one of three texts: an error envelope
    whose message begins in one of eight fixed ways, the void envelope,
    or the serialization of an object whose one member, result, is a
    UTF-8 string. *)
Lemma DispatchCommand_cases `{Platform}
    (w : world) (_instances : gmap string variant) (jsonCmd : string) :
  let response := DispatchCommand w _instances jsonCmd in
  is_error response
  \/ response = void_envelope
  \/ exists s, utf8_valid s = true /\ response = result_envelope s.
Proof.
  cbn zeta. unfold DispatchCommand.
  destruct (Body w _instances jsonCmd) as [r|r|[what|what|]] eqn:Hbody.
  3: { left. exists "JSON parse error: ", what. split; [cbn; tauto | reflexivity]. }
  3: { left. exists "Dispatch exception: ", what. split; [cbn; tauto | reflexivity]. }
  3: { left. exists "Unknown dispatch error", "". split; [cbn; tauto | reflexivity]. }
  all: revert Hbody; unfold Body, parse;
    destruct (read_text jsonCmd) as [cmd| |token]; [|done..]; simpl;
    destruct (Resolve w _instances cmd) as [[instance method]|r'|?] eqn:Hresolve;
      simpl; [| try done; intros [= <-]; left; by eapply Resolve_Return | done];
    rewrite BuildArguments_bound;
    pose proof (bound_from_not_Return (supplied cmd) 0 (parameter_infos method)) as Hbuild;
    destruct (bound_from (supplied cmd) 0 (parameter_infos method)) as [argsVariants|r'|?];
      [| by destruct (Hbuild r') | done]; simpl;
    destruct (Invoke method instance argsVariants) as [result|r'|?] eqn:Hinvoke;
      simpl; [| try done; intros [= <-]; left; by eapply Invoke_Return | done];
    pose proof (Serialize_outcome w method result) as Hserialize;
    destruct (Serialize w method result); [done | | done]; by intros [= <-].
Qed.

End Envelopes.

(** ** What a dispatched call returns *)

Module Outcomes.
Import Json JsonText Rttr Dispatcher Notions Facts Resolution Binding ArgumentForms
  ParserFuel Invocation ManifestJson Envelopes Example.

Local Arguments String.append : simpl nomatch.

(** *** Strings: the lexer undoes the serializer's [escape] *)

Lemma scan_escape_char_ascii (c : ascii) (text : string) :
  in_range 0 127 c = true ->
  scan_string (escape_char c +:+ text) = prepend (String c EmptyString) (scan_string text).
Proof.
  destruct c as [b0 b1 b2 b3 b4 b5 b6 b7].
  destruct b0, b1, b2, b3, b4, b5, b6, b7; intros Hc;
    try (vm_compute in Hc; discriminate Hc); reflexivity.
Qed.

Lemma escape_char_high (c : ascii) :
  in_range 0 127 c = false -> escape_char c = String c EmptyString.
Proof.
  destruct c as [b0 b1 b2 b3 b4 b5 b6 b7].
  destruct b0, b1, b2, b3, b4, b5, b6, b7; intros Hc;
    try (vm_compute in Hc; discriminate Hc); by vm_compute.
Qed.

Lemma escape_char_continuation (c : ascii) :
  in_range 128 191 c = true -> escape_char c = String c EmptyString.
Proof.
  intros Hc. apply escape_char_high.
  destruct c as [b0 b1 b2 b3 b4 b5 b6 b7].
  destruct b0, b1, b2, b3, b4, b5, b6, b7;
    try (vm_compute in Hc; discriminate Hc); reflexivity.
Qed.

Lemma scan_string_escape_aux (n : nat) (s rest : string) :
  String.length s <= n ->
  utf8_valid s = true ->
  scan_string (escape s +:+ String dquote rest) = Some (s, rest).
Proof.
  revert s. induction n as [|n IH]; intros s Hn Hvalid.
  - destruct s; [reflexivity | simpl in Hn; lia].
  - destruct s as [|a r]; [reflexivity |].
    simpl in Hn. cbn [utf8_valid] in Hvalid. cbn [escape].
    destruct (in_range 0 127 a) eqn:Ha.
    { rewrite append_assoc, scan_escape_char_ascii, IH by (done || lia). reflexivity. }
    rewrite (escape_char_high a Ha).
    destruct r as [|b r1]; [discriminate |]. simpl in Hn.
    destruct (utf8_seq2 a b) eqn:Hseq2.
    { cbn [escape].
      rewrite (escape_char_continuation b (seq2_continuation a b Hseq2)).
      change (scan_string (String a (String b (escape r1 +:+ String dquote rest)))
              = Some (String a (String b r1), rest)).
      rewrite scan_high2, IH by (done || lia). reflexivity. }
    destruct r1 as [|c r2]; [discriminate |]. simpl in Hn.
    destruct (utf8_seq3 a b c) eqn:Hseq3.
    { destruct (seq3_continuation a b c Hseq3) as [Hb Hc].
      cbn [escape].
      rewrite (escape_char_continuation b Hb), (escape_char_continuation c Hc).
      change (scan_string
                (String a (String b (String c (escape r2 +:+ String dquote rest))))
              = Some (String a (String b (String c r2)), rest)).
      rewrite scan_high3, IH by (done || lia). reflexivity. }
    destruct r2 as [|d r3]; [discriminate |]. simpl in Hn.
    apply andb_true_iff in Hvalid as [Hseq4 Hvalid].
    destruct (seq4_continuation a b c d Hseq4) as (Hb & Hc & Hd).
    cbn [escape].
    rewrite (escape_char_continuation b Hb), (escape_char_continuation c Hc),
      (escape_char_continuation d Hd).
    change (scan_string
              (String a (String b (String c (String d
                 (escape r3 +:+ String dquote rest)))))
            = Some (String a (String b (String c (String d r3))), rest)).
    rewrite scan_high4, IH by (done || lia). reflexivity.
Qed.

Lemma scan_string_escape (s rest : string) :
  utf8_valid s = true ->
  scan_string (escape s +:+ String dquote rest) = Some (s, rest).
Proof. by apply (scan_string_escape_aux (String.length s)). Qed.

(** The result envelope is the JSON text of the object whose one member,
    result, is the string. *)
Lemma parse_result_envelope (s : string) :
  utf8_valid s = true ->
  parse_text (result_envelope s) = Some (Object [("result", Str s)]).
Proof.
  intros Hvalid. apply (parse_text_of_value _ _ 3); [reflexivity |].
  unfold result_envelope. simpl.
  rewrite (scan_string_escape s "}" Hvalid). reflexivity.
Qed.

(** When the command parses, resolves and its arguments are built for a
    method of at most six parameters, the rest of dispatch is the call
    and the serialization of its result. *)
Lemma Body_invoked `{Platform}
    (w : world) (_instances : gmap string variant) (jsonCmd : string) (cmd : json)
    (instance : variant) (method : method) (argsVariants : list variant) :
  parse_text jsonCmd = Some cmd ->
  Resolve w _instances cmd = Normal (instance, method) ->
  BuildArguments cmd (parameter_infos method) = Normal argsVariants ->
  length (parameter_infos method) <= 6 ->
  Body w _instances jsonCmd
  = (result ← call (invoke method instance argsVariants); Serialize w method result).
Proof.
  intros Hparse Hresolve Hbuild Hfew.
  assert (length argsVariants = length (parameter_infos method)) as Hlen.
  { rewrite BuildArguments_bound in Hbuild. by eapply bound_from_length. }
  rewrite (Body_parsed w _instances jsonCmd cmd Hparse), Hresolve. simpl.
  rewrite Hbuild. simpl. by rewrite Invoke_passes_arguments by lia.
Qed.

(** X2.  A call that returns a valid variant whose string form is UTF-8
    is answered by a JSON text that reads back as the object with the
    one member result, holding the string form as a JSON string: the
    numbers and booleans a method returns come back as strings.  When
    the string form is not UTF-8 the answer is the envelope of the
    serializer's exception. *)
Theorem valid_result_reads_back `{Platform}
    (w : world) (_instances : gmap string variant) (jsonCmd : string) (cmd : json)
    (instance : variant) (method : method) (argsVariants : list variant)
    (result : variant) :
  parse_text jsonCmd = Some cmd ->
  Resolve w _instances cmd = Normal (instance, method) ->
  BuildArguments cmd (parameter_infos method) = Normal argsVariants ->
  length (parameter_infos method) <= 6 ->
  invoke method instance argsVariants = inr result ->
  is_valid result = true ->
  let response := DispatchCommand w _instances jsonCmd in
  if utf8_valid (to_string w result)
  then response = result_envelope (to_string w result)
       /\ parse_text response = Some (Object [("result", Str (to_string w result))])
  else response
       = error_envelope ("Dispatch exception: " +:+ what_invalid_utf8 (to_string w result)).
Proof.
  intros Hparse Hresolve Hbuild Hfew Hinvoke Hvalid. cbn zeta.
  unfold DispatchCommand.
  rewrite (Body_invoked w _instances jsonCmd cmd instance method argsVariants)
    by assumption.
  rewrite Hinvoke. simpl. rewrite Serialize_result by assumption.
  destruct (utf8_valid (to_string w result)) eqn:Hutf8; [|reflexivity].
  split; [reflexivity |]. by apply parse_result_envelope.
Qed.

(** CreateOrder returns the boolean true: the answer holds the string
    true. *)
Lemma valid_result_reads_back_witness :
  let text := cxx "{`method`: `OrderManager.CreateOrder`, `args`: [`Mario`, 2]}" in
  let cmd := Object [("args", Array [Str "Mario"; NumberUnsigned 2]);
                     ("method", Str "OrderManager.CreateOrder")] in
  parse_text text = Some cmd
  /\ forall P : Platform,
      DispatchCommand order_system registered text = cxx "{`result`:`true`}"
      /\ parse_text (DispatchCommand order_system registered text)
         = Some (Object [("result", Str "true")]).
Proof.
  assert (parse_text (cxx "{`method`: `OrderManager.CreateOrder`, `args`: [`Mario`, 2]}")
          = Some (Object [("args", Array [Str "Mario"; NumberUnsigned 2]);
                          ("method", Str "OrderManager.CreateOrder")])) as Hparse
    by (by vm_compute).
  split; [exact Hparse |]. intros P.
  exact (valid_result_reads_back order_system registered _ _
           (object_value OrderManager_id 0) CreateOrder
           [string_value "Mario"; int_value 2] (bool_value true)
           Hparse eq_refl eq_refl ltac:(simpl; lia) eq_refl eq_refl).
Defined.

(** X3.  An invalid variant returned by the call is told apart by the
    declared return type alone: for a method declared void the answer
    is the void envelope, the success answer of a void method, although
    the call failed; for any other method it is the error envelope of a
    failed invocation. *)
Theorem invalid_result_by_return_type `{Platform}
    (w : world) (_instances : gmap string variant) (jsonCmd : string) (cmd : json)
    (instance : variant) (method : method) (argsVariants : list variant) :
  parse_text jsonCmd = Some cmd ->
  Resolve w _instances cmd = Normal (instance, method) ->
  BuildArguments cmd (parameter_infos method) = Normal argsVariants ->
  length (parameter_infos method) <= 6 ->
  invoke method instance argsVariants = inr invalid ->
  DispatchCommand w _instances jsonCmd
  = if bool_decide (return_type method = t_void)
    then void_envelope
    else error_envelope "Invocation failed (returned invalid variant)".
Proof.
  intros Hparse Hresolve Hbuild Hfew Hinvoke. unfold DispatchCommand.
  rewrite (Body_invoked w _instances jsonCmd cmd instance method argsVariants)
    by assumption.
  rewrite Hinvoke. simpl. unfold Serialize. simpl.
  by destruct (bool_decide (return_type method = t_void)).
Qed.

(** CancelOrder, declared void, called without its argument: the call
    fails, and the answer is the void envelope. *)
Lemma invalid_result_by_return_type_witness :
  let text := cxx "{`method`: `OrderManager.CancelOrder`}" in
  parse_text text = Some (Object [("method", Str "OrderManager.CancelOrder")])
  /\ invoke CancelOrder (object_value OrderManager_id 0) [invalid] = inr invalid
  /\ forall P : Platform,
      DispatchCommand order_system registered text = cxx "{`result`: `void`}".
Proof.
  assert (parse_text (cxx "{`method`: `OrderManager.CancelOrder`}")
          = Some (Object [("method", Str "OrderManager.CancelOrder")])) as Hparse
    by (by vm_compute).
  split; [exact Hparse |]. split; [reflexivity |]. intros P.
  exact (invalid_result_by_return_type order_system registered _ _
           (object_value OrderManager_id 0) CancelOrder [invalid]
           Hparse eq_refl eq_refl ltac:(simpl; lia) eq_refl).
Defined.

(** *** Every response is an envelope *)

Lemma escape_char_unescaped (c : ascii) :
  unescaped c = true -> escape_char c = String c EmptyString.
Proof.
  destruct c as [b0 b1 b2 b3 b4 b5 b6 b7].
  destruct b0, b1, b2, b3, b4, b5, b6, b7; intros Hc;
    try (vm_compute in Hc; discriminate Hc); reflexivity.
Qed.

Lemma escape_all_unescaped (s : string) : all_unescaped s = true -> escape s = s.
Proof.
  induction s as [|c r IH]; [done |]. cbn [all_unescaped escape].
  intros [Hc Hr]%andb_true_iff. by rewrite escape_char_unescaped, IH.
Qed.

Lemma parse_error_envelope (message : string) :
  plain message = true ->
  parse_text (error_envelope message) = Some (Object [("error", Str message)]).
Proof.
  intros [Hplain Hvalid]%andb_true_iff.
  apply (parse_text_of_value _ _ 3); [reflexivity |].
  unfold error_envelope. simpl.
  rewrite <- (escape_all_unescaped message Hplain) at 1.
  rewrite (scan_string_escape message "}" Hvalid). reflexivity.
Qed.

(** X1.  Whatever the command text, the catalog and the registry,
    [DispatchCommand] returns one of three texts and nothing else, no
    exception included.  An error envelope, whose message begins in one
    of eight fixed ways; it is the JSON text of the object with the one
    member error whenever the message needs no escaping.  The void
    envelope, the JSON text of the object whose member result is the
    string void.  The serialization of a result, the JSON text of the
    object with the one member result, a string. *)
Theorem response_is_an_envelope `{Platform}
    (w : world) (_instances : gmap string variant) (jsonCmd : string) :
  let response := DispatchCommand w _instances jsonCmd in
  (exists prefix detail,
      In prefix error_prefixes
      /\ response = error_envelope (prefix +:+ detail)
      /\ (plain (prefix +:+ detail) = true ->
          parse_text response = Some (Object [("error", Str (prefix +:+ detail))])))
  \/ (response = void_envelope
      /\ parse_text response = Some (Object [("result", Str "void")]))
  \/ (exists s,
        response = result_envelope s
        /\ parse_text response = Some (Object [("result", Str s)])).
Proof.
  cbn zeta.
  destruct (DispatchCommand_cases w _instances jsonCmd)
    as [(prefix & detail & Hin & ->) | [-> | (s & Hvalid & ->)]].
  - left. exists prefix, detail. split; [exact Hin |]. split; [reflexivity |].
    apply parse_error_envelope.
  - right; left. split; [reflexivity | by vm_compute].
  - right; right. exists s. split; [reflexivity |]. by apply parse_result_envelope.
Qed.

End Outcomes.

(** ** Coercion of the supplied values *)

Module Coercion.
Import Json JsonText Rttr Dispatcher Notions Facts Resolution Binding ArgumentForms
  IntegerCoercion Envelopes Example.

Local Arguments String.append : simpl nomatch.

Section Coerce.
Context `{Platform}.

Lemma JsonToVariant_type (jVal : json) (targetType : type) (v : variant) :
  JsonToVariant jVal targetType = Normal v ->
  v = invalid \/ get_type v = targetType.
Proof.
  unfold JsonToVariant.
  destruct targetType; try (intros [= <-]; by left).
  - destruct jVal; cbn; intros [= <-]; auto.
  - destruct jVal; cbn; try (intros [= <-]; auto).
    destruct (Std.stoi s); simpl; [|done..]. intros [= <-]; auto.
  - destruct jVal; cbn; try (intros [= <-]; auto).
    destruct (stof s); simpl; [done |]. intros [= <-]; auto.
  - destruct jVal; cbn; try (intros [= <-]; auto).
    destruct (stod s); simpl; [done |]. intros [= <-]; auto.
  - destruct (is_string jVal).
    + destruct jVal; try done. cbn. intros [= <-]; auto.
    + change (mbind (fun s => Normal (string_value s)) (dump jVal) = Normal v
              -> v = invalid \/ get_type v = t_string).
      destruct (dump jVal); simpl; [|done..]. intros [= <-]; auto.
Qed.

Lemma bound_from_fits (supply : nat -> parameter_info -> option json)
    (i : nat) (params : list parameter_info) (argsVariants : list variant) :
  bound_from supply i params = Normal argsVariants ->
  Forall2 fits params argsVariants.
Proof.
  revert i argsVariants. induction params as [|param rest IH]; intros i argsVariants.
  - intros [= <-]. constructor.
  - cbn [bound_from].
    destruct (bound supply i param) as [v|?|?] eqn:Hv; simpl; [|done..].
    destruct (bound_from supply (S i) rest) as [vs|?|?] eqn:Hvs; simpl; [|done..].
    intros [= <-]. constructor; [|by eapply IH].
    unfold bound in Hv. destruct (supply i param) as [jVal|].
    + by eapply JsonToVariant_type.
    + injection Hv as <-. by left.
Qed.



End Coerce.

(** X4.  Whenever argument building completes, there is one argument per
    declared parameter, in the order of the parameters, and each
    argument is either unset (the invalid variant) or a value of exactly
    the declared type of its parameter: coercion never hands the method
    a value of another type. *)
Theorem arguments_have_declared_types `{Platform}
    (cmd : json) (paramInfos : list parameter_info) (argsVariants : list variant) :
  BuildArguments cmd paramInfos = Normal argsVariants ->
  Forall2 fits paramInfos argsVariants.
Proof. rewrite BuildArguments_bound. apply bound_from_fits. Qed.

(** CreateOrder with its quantity given as the string 2. *)
Lemma arguments_have_declared_types_witness :
  let cmd := Object [("args", Array [Str "Mario"; Str "2"]);
                     ("method", Str "OrderManager.CreateOrder")] in
  map param_type (parameter_infos CreateOrder) = [t_string; t_int]
  /\ forall P : Platform,
      BuildArguments cmd (parameter_infos CreateOrder)
      = Normal [string_value "Mario"; int_value 2]
      /\ Forall2 fits (parameter_infos CreateOrder) [string_value "Mario"; int_value 2].
Proof.
  intros cmd. split; [reflexivity |]. intros P.
  assert (BuildArguments cmd (parameter_infos CreateOrder)
          = Normal [string_value "Mario"; int_value 2]) as Hbuild by reflexivity.
  split; [exact Hbuild |].
  exact (arguments_have_declared_types cmd (parameter_infos CreateOrder) _ Hbuild).
Defined.



(** *** [std::stoi] converts a prefix *)

Lemma digits_append (s tail : string) (acc : Z) :
  digit_head tail = false -> Std.digits acc (s +:+ tail) = Std.digits acc s.
Proof.
  intros Htail. revert acc. induction s as [|c r IH]; intros acc.
  - destruct tail as [|d tail]; [reflexivity |]. simpl in *. by rewrite Htail.
  - simpl. destruct (is_digit c); [apply IH | reflexivity].
Qed.

Lemma skip_space_all_space (ws s : string) :
  all_space ws = true -> Std.skip_space (ws +:+ s) = Std.skip_space s.
Proof.
  induction ws as [|c r IH]; [done |]. cbn [all_space].
  intros [Hc Hr]%andb_true_iff. simpl. rewrite Hc. by apply IH.
Qed.

Lemma skip_space_append (s tail : string) :
  Std.skip_space s <> "" -> Std.skip_space (s +:+ tail) = Std.skip_space s +:+ tail.
Proof.
  induction s as [|c r IH]; [done |]. simpl.
  destruct (Std.isspace c); [exact IH | done].
Qed.

(** What follows the digits does not change the conversion, unless it
    starts with a digit. *)
Lemma strtol_append (s tail : string) (v : Z) :
  Std.strtol s = Some v -> digit_head tail = false ->
  Std.strtol (s +:+ tail) = Some v.
Proof.
  intros Hs Htail. unfold Std.strtol in *.
  rewrite skip_space_append by (by destruct (Std.skip_space s)).
  destruct (Std.skip_space s) as [|c r]; [done |].
  assert (forall s2 : string,
             match s2 with
             | String d _ => if is_digit d then Some (Std.digits 0 s2) else None
             | EmptyString => None
             end = Some v ->
             match s2 +:+ tail with
             | String d _ => if is_digit d then Some (Std.digits 0 (s2 +:+ tail)) else None
             | EmptyString => None
             end = Some v) as Hpos.
  { intros [|d s2]; [done |]. simpl. destruct (is_digit d) eqn:Hd; [|done].
    pose proof (digits_append (String d s2) tail 0 Htail) as Happ.
    simpl in Happ. rewrite Hd in Happ. by rewrite Happ. }
  assert (forall s2 : string,
             match s2 with
             | String d _ => if is_digit d then Some (- Std.digits 0 s2)%Z else None
             | EmptyString => None
             end = Some v ->
             match s2 +:+ tail with
             | String d _ => if is_digit d then Some (- Std.digits 0 (s2 +:+ tail))%Z else None
             | EmptyString => None
             end = Some v) as Hneg.
  { intros [|d s2]; [done |]. simpl. destruct (is_digit d) eqn:Hd; [|done].
    pose proof (digits_append (String d s2) tail 0 Htail) as Happ.
    simpl in Happ. rewrite Hd in Happ. by rewrite Happ. }
  destruct c as [b0 b1 b2 b3 b4 b5 b6 b7].
  destruct b0, b1, b2, b3, b4, b5, b6, b7;
    first [ exact (Hpos r Hs) | exact (Hneg r Hs)
          | match type of Hs with
            | context [String ?c r] => exact (Hpos (String c r) Hs)
            end ].
Qed.

(** X6.  A string supplied for an [int] parameter is converted as
    [std::stoi] converts it: white space before the number and
    whatever follows its digits are ignored.  A string that holds
    white space, the decimal text of an integer n and a rest that does
    not start with a digit is coerced to n when n fits an [int], and
    raises [std::out_of_range] otherwise; so the string 3.7 is coerced
    to 3, and an integer that a JSON number would wrap around is an
    error as a string. *)
Theorem string_to_int_reads_a_prefix `{Platform} (ws tail : string) (n : Z) :
  all_space ws = true ->
  digit_head tail = false ->
  JsonToVariant (Str (ws +:+ of_Z n +:+ tail)) t_int
  = if ((Std.INT_MIN <=? n) && (n <=? Std.INT_MAX))%Z
    then Normal (int_value n)
    else Throw (std_exception (what_out_of_range "stoi")).
Proof.
  intros Hws Htail. cbn. unfold Std.stoi.
  rewrite <- append_assoc.
  rewrite (strtol_append (ws +:+ of_Z n) tail n); [| |exact Htail].
  - by destruct ((Std.INT_MIN <=? n) && (n <=? Std.INT_MAX))%Z.
  - unfold Std.strtol. rewrite skip_space_all_space by exact Hws.
    exact (strtol_of_Z n).
Qed.

(** The string of a blank, 3 and .7, for an [int] parameter; as JSON
    numbers, 3.7 gives no value and 4294967297 wraps around to 1. *)
Lemma string_to_int_reads_a_prefix_witness :
  all_space " " = true /\ digit_head ".7" = false
  /\ forall P : Platform,
      JsonToVariant (Str " 3.7") t_int = Normal (int_value 3)
      /\ JsonToVariant (NumberFloat "3.7") t_int = Normal invalid
      /\ JsonToVariant (Str "4294967297") t_int
         = Throw (std_exception (what_out_of_range "stoi"))
      /\ JsonToVariant (NumberUnsigned 4294967297) t_int = Normal (int_value 1).
Proof.
  split; [reflexivity |]. split; [reflexivity |]. intros P.
  split; [exact (string_to_int_reads_a_prefix " " ".7" 3 eq_refl eq_refl) |].
  split; [reflexivity |].
  split; [exact (string_to_int_reads_a_prefix "" "" 4294967297 eq_refl eq_refl) |].
  reflexivity.
Defined.

End Coercion.

(** ** The instance registry *)

Module Registry.
Import Json JsonText Rttr InstanceRegistry Dispatcher Notions Facts Resolution Example.

Local Arguments String.append : simpl nomatch.

Lemma Get_Register (_instances : gmap string variant) (id : string) (instance : variant) :
  Get (Register id instance _instances) id = instance.
Proof. unfold Get, Register. by rewrite lookup_insert_eq. Qed.

Lemma Get_Unregister (_instances : gmap string variant) (id : string) :
  Get (Unregister id _instances) id = invalid.
Proof. unfold Get, Unregister. by rewrite lookup_delete_eq. Qed.

(** X7.  Registration is an assignment.  After [Register(id, a)] the
    identifier is contained and [Get(id)] returns a; registering the
    identifier again replaces the instance, leaving the registry as if
    only the second registration had happened; no other identifier is
    affected; and the order in which two different identifiers are
    registered does not matter. *)
Theorem register_assigns
    (_instances : gmap string variant) (id other : string) (a b : variant) :
  Get (Register id a _instances) id = a
  /\ Contains (Register id a _instances) id = true
  /\ Register id b (Register id a _instances) = Register id b _instances
  /\ (other <> id ->
      Get (Register id a _instances) other = Get _instances other
      /\ Contains (Register id a _instances) other = Contains _instances other
      /\ Register id a (Register other b _instances)
         = Register other b (Register id a _instances)).
Proof.
  split; [apply Get_Register |]. split.
  { unfold Contains, Register. rewrite lookup_insert_eq. by apply bool_decide_eq_true. }
  split; [apply insert_insert_eq |].
  intros Hother. unfold Get, Contains, Register.
  rewrite lookup_insert_ne by done. repeat split. by apply insert_insert_ne.
Qed.

(** X8.  [Unregister(id)] removes one identifier: afterwards it is not
    contained and [Get(id)] returns the invalid variant, and no other
    identifier is affected.  Unregistering an identifier that is not
    contained changes nothing, so unregistering twice is unregistering
    once, and registering a new identifier and unregistering it
    restores the registry. *)
Theorem unregister_removes
    (_instances : gmap string variant) (id other : string) (a : variant) :
  Get (Unregister id _instances) id = invalid
  /\ Contains (Unregister id _instances) id = false
  /\ (other <> id ->
      Get (Unregister id _instances) other = Get _instances other
      /\ Contains (Unregister id _instances) other = Contains _instances other)
  /\ (Contains _instances id = false ->
      Unregister id _instances = _instances
      /\ Unregister id (Register id a _instances) = _instances)
  /\ Unregister id (Unregister id _instances) = Unregister id _instances.
Proof.
  split; [apply Get_Unregister |]. split.
  { unfold Contains, Unregister. rewrite lookup_delete_eq.
    apply bool_decide_eq_false. by intros [? ?]. }
  split.
  { intros Hother. unfold Get, Contains, Unregister.
    by rewrite lookup_delete_ne by done. }
  split.
  { intros Hfresh. apply bool_decide_eq_false in Hfresh.
    assert (_instances !! id = None) as Hnone.
    { destruct (_instances !! id) eqn:Hlookup; [|done]. by destruct Hfresh. }
    unfold Unregister, Register. split.
    - by apply delete_id.
    - by apply delete_insert_id. }
  unfold Unregister. apply delete_id. by rewrite lookup_delete_eq.
Qed.

(** X9.  A command is dispatched only to a valid registered instance:
    when the context of a command names no valid instance, the answer
    is the envelope Instance not found with the context, whatever the
    catalog and the arguments.  This is the answer after
    [Unregister(context)], and also after the registration of an
    invalid variant, although [Contains(context)] is then true. *)
Theorem context_must_name_a_valid_instance `{Platform}
    (w : world) (_instances : gmap string variant) (jsonCmd : string) (cmd : json)
    (full context methodName : string) :
  parse_text jsonCmd = Some cmd ->
  contains cmd "method" = true ->
  at_key cmd "method" = Str full ->
  ResolveContext cmd full = Normal (context, methodName) ->
  (is_valid (Get _instances context) = false ->
   DispatchCommand w _instances jsonCmd
   = error_envelope ("Instance not found: " +:+ context))
  /\ DispatchCommand w (Unregister context _instances) jsonCmd
     = error_envelope ("Instance not found: " +:+ context)
  /\ DispatchCommand w (Register context invalid _instances) jsonCmd
     = error_envelope ("Instance not found: " +:+ context)
  /\ Contains (Register context invalid _instances) context = true.
Proof.
  intros Hparse Hmethod Hfull Hcontext.
  assert (forall registry,
             is_valid (Get registry context) = false ->
             DispatchCommand w registry jsonCmd
             = error_envelope ("Instance not found: " +:+ context)) as Hrefused.
  { intros registry Hinvalid.
    apply (DispatchCommand_returned w registry jsonCmd cmd _ Hparse).
    rewrite (Resolve_located w registry cmd full context methodName)
      by assumption.
    unfold Locate. rewrite Hinvalid. reflexivity. }
  split; [apply Hrefused |].
  split; [apply Hrefused; by rewrite Get_Unregister |].
  split; [apply Hrefused; by rewrite Get_Register |].
  unfold Contains, Register. rewrite lookup_insert_eq. by apply bool_decide_eq_true.
Qed.

(** The order manager of the example, unregistered. *)
Lemma context_must_name_a_valid_instance_witness :
  let text := cxx "{`method`: `OrderManager.GetOrderCount`}" in
  let cmd := Object [("method", Str "OrderManager.GetOrderCount")] in
  parse_text text = Some cmd
  /\ ResolveContext cmd "OrderManager.GetOrderCount"
     = Normal ("OrderManager", "GetOrderCount")
  /\ forall P : Platform,
      DispatchCommand order_system (Unregister "OrderManager" registered) text
      = cxx "{`error`: `Instance not found: OrderManager`}"
      /\ DispatchCommand order_system registered text = cxx "{`result`:`0`}".
Proof.
  assert (parse_text (cxx "{`method`: `OrderManager.GetOrderCount`}")
          = Some (Object [("method", Str "OrderManager.GetOrderCount")])) as Hparse
    by (by vm_compute).
  split; [exact Hparse |]. split; [reflexivity |]. intros P.
  split; [|by vm_compute].
  exact (proj1 (proj2
    (context_must_name_a_valid_instance order_system registered _ _
       "OrderManager.GetOrderCount" "OrderManager" "GetOrderCount"
       Hparse eq_refl eq_refl eq_refl))).
Defined.

End Registry.

(** ** The escaping of the manifest generator *)

Module Escaping.
Import Json JsonText Rttr ManifestGenerator Notions Facts ParserFuel Manifest ManifestJson.

Local Arguments String.append : simpl nomatch.

Lemma no_control_append (a b : string) :
  no_control (a +:+ b) = no_control a && no_control b.
Proof.
  induction a as [|c r IH]; [reflexivity |]. simpl. rewrite IH. by rewrite andb_assoc.
Qed.

Lemma EscapeChar_cases (c : ascii) :
  no_control (EscapeChar c) = true
  /\ 1 <= String.length (EscapeChar c)
  /\ (if unescaped c then EscapeChar c = String c EmptyString
      else 1 < String.length (EscapeChar c)).
Proof.
  destruct c as [b0 b1 b2 b3 b4 b5 b6 b7].
  destruct b0, b1, b2, b3, b4, b5, b6, b7; vm_compute; repeat split; lia.
Qed.

Lemma EscapeJson_length (s : string) :
  String.length s <= String.length (EscapeJson s)
  /\ (all_unescaped s = false -> String.length s < String.length (EscapeJson s)).
Proof.
  induction s as [|c r [IHle IHlt]]; [done |].
  cbn [EscapeJson all_unescaped]. rewrite length_append. cbn [String.length].
  destruct (EscapeChar_cases c) as (_ & Hone & Hc).
  split; [lia |].
  destruct (unescaped c); simpl.
  - intros Hr. specialize (IHlt Hr). lia.
  - intros _. lia.
Qed.

Lemma EscapeJson_no_control (s : string) : no_control (EscapeJson s) = true.
Proof.
  induction s as [|c r IH]; [reflexivity |].
  cbn [EscapeJson]. rewrite no_control_append, IH.
  by destruct (EscapeChar_cases c) as [-> _].
Qed.

(** X10.  [EscapeJson] and a JSON reader are inverse on UTF-8 strings:
    the escaped text between quotes is JSON text, and it denotes the
    original string, whatever quotes, backslashes and control
    characters it holds.  Two different UTF-8 strings therefore never
    have the same escaped text. *)
Theorem EscapeJson_reads_back (s s' : string) :
  utf8_valid s = true ->
  parse_text (String dquote (EscapeJson s +:+ String dquote EmptyString)) = Some (Str s)
  /\ (utf8_valid s' = true -> EscapeJson s = EscapeJson s' -> s = s').
Proof.
  intros Hvalid.
  assert (forall t, utf8_valid t = true ->
            parse_text (String dquote (EscapeJson t +:+ String dquote EmptyString))
            = Some (Str t)) as Hread.
  { intros t Ht. apply (parse_text_of_value _ _ 1); [reflexivity |].
    simpl. by rewrite (scan_string_EscapeJson t "" Ht). }
  split; [by apply Hread |].
  intros Hvalid' Heq. pose proof (Hread s Hvalid) as Hs.
  rewrite Heq, (Hread s' Hvalid') in Hs. by injection Hs.
Qed.

(** A name with a quote, a backslash and a line feed. *)
Lemma EscapeJson_reads_back_witness :
  let s := String "a" (String dquote (String "\" (String "010" "b"))) in
  utf8_valid s = true
  /\ EscapeJson s = cxx "a\`\\\u000ab"
  /\ parse_text (String dquote (EscapeJson s +:+ String dquote EmptyString)) = Some (Str s).
Proof.
  intros s. split; [reflexivity |]. split; [reflexivity |].
  exact (proj1 (EscapeJson_reads_back s s eq_refl)).
Defined.

(** X11.  The text [EscapeJson] writes holds no control character,
    whatever its input; it is never shorter than the input; and it is
    the input itself exactly when the input holds no quote, no
    backslash and no control character. *)
Theorem EscapeJson_shape (s : string) :
  no_control (EscapeJson s) = true
  /\ String.length s <= String.length (EscapeJson s)
  /\ (EscapeJson s = s <-> all_unescaped s = true).
Proof.
  split; [|split].
  - apply EscapeJson_no_control.
  - apply EscapeJson_length.
  - split.
    + intros Heq. destruct (all_unescaped s) eqn:Hs; [reflexivity |].
      pose proof (proj2 (EscapeJson_length s) Hs) as Hlt.
      rewrite Heq in Hlt. lia.
    + induction s as [|c r IH]; [reflexivity |]. cbn [all_unescaped EscapeJson].
      intros [Hc Hr]%andb_true_iff.
      destruct (EscapeChar_cases c) as (_ & _ & Hcase). rewrite Hc in Hcase.
      by rewrite Hcase, IH.
Qed.

End Escaping.

(** ** From the manifest to the dispatcher *)

Module Advertised.
Import Json JsonText Rttr InstanceRegistry Dispatcher ManifestGenerator Notions Facts
  Resolution Example.

Local Arguments String.append : simpl nomatch.

(** X12.  A command without class or context whose method is the name
    under which the manifest lists a method, the type name, a dot and
    the method name.  When the method name holds no dot, an instance of
    the type is registered under the type's name, and the catalog finds
    this method under its name in the type, the command resolves to
    that instance and that method: the name is split at its last dot,
    so a type name may hold dots and colons.  When the method name
    holds a dot, the split falls inside the method name: the instance
    looked up is the one registered under the type name, a dot and the
    method name up to its last dot, and the method looked up is what
    follows that dot. *)
Theorem advertised_name_resolves `{Platform}
    (w : world) (_instances : gmap string variant) (cmd : json)
    (t : type) (meth : method) :
  has_class cmd = false ->
  contains cmd "context" = false ->
  contains cmd "method" = true ->
  at_key cmd "method" = at_key (entry_json w (t, meth)) "name" ->
  (forall instance,
      occurs "." (method_name meth) = false ->
      is_valid (Get _instances (get_name w t)) = true ->
      Unwrap w (Get _instances (get_name w t)) = (t, instance) ->
      get_method w t (method_name meth) = Some meth ->
      Resolve w _instances cmd = Normal (instance, meth))
  /\ (forall left right,
      method_name meth = left +:+ "." +:+ right ->
      occurs "." right = false ->
      Resolve w _instances cmd
      = Locate w _instances (get_name w t +:+ "." +:+ left) right).
Proof.
  intros Hclass Hcontext Hmethod Hname.
  change (at_key (entry_json w (t, meth)) "name")
    with (Str (get_name w t +:+ "." +:+ method_name meth)) in Hname.
  split.
  - intros instance Hdot Hvalid Hunwrap Hfound.
    rewrite (Resolve_located w _instances cmd _ (get_name w t) (method_name meth)
               Hmethod Hname (ResolveContext_split cmd _ _ Hclass Hcontext Hdot)).
    rewrite ResolveMethodName_split by done.
    unfold Locate. rewrite Hvalid, Hunwrap. simpl. by rewrite Hfound.
  - intros left right Hsplit Hdot.
    assert (get_name w t +:+ "." +:+ method_name meth
            = (get_name w t +:+ "." +:+ left) +:+ "." +:+ right) as Hfull.
    { rewrite Hsplit. by rewrite !append_assoc. }
    rewrite Hfull in Hname.
    rewrite (Resolve_located w _instances cmd _ (get_name w t +:+ "." +:+ left) right
               Hmethod Hname (ResolveContext_split cmd _ _ Hclass Hcontext Hdot)).
    by rewrite ResolveMethodName_split.
Qed.

(** The second entry of the manifest of the order system. *)
Lemma advertised_name_resolves_witness :
  let cmd := Object [("method", Str "OrderManager.GetOrderCount")] in
  In (t_other OrderManager_id, GetOrderCount) (catalog_methods order_system)
  /\ occurs "." (method_name GetOrderCount) = false
  /\ forall P : Platform,
      at_key cmd "method"
      = at_key (entry_json order_system (t_other OrderManager_id, GetOrderCount)) "name"
      /\ Resolve order_system registered cmd
         = Normal (object_value OrderManager_id 0, GetOrderCount).
Proof.
  intros cmd. split; [vm_compute; right; left; reflexivity |].
  split; [reflexivity |]. intros P.
  split; [reflexivity |].
  exact (proj1 (advertised_name_resolves order_system registered cmd
                  (t_other OrderManager_id) GetOrderCount
                  eq_refl eq_refl eq_refl eq_refl)
           (object_value OrderManager_id 0) eq_refl eq_refl eq_refl eq_refl).
Defined.

End Advertised.

(** ** rail.cpp: the callback and the connection *)

Module Bridge.
Import Json JsonText Rttr Dispatcher ManifestGenerator Rail Notions Facts Manifest
  ManifestJson Envelopes Escaping.

Local Arguments String.append : simpl nomatch.

(** *** Texts without NUL *)

Lemma c_str_no_control (s : string) : no_control s = true -> c_str s = s.
Proof.
  induction s as [|c r IH]; [done |]. cbn [no_control c_str].
  intros [Hc Hr]%andb_true_iff. rewrite IH by done.
  destruct (Ascii.eqb_spec c "000") as [->|]; [discriminate | reflexivity].
Qed.

Lemma escape_char_no_control (c : ascii) : no_control (escape_char c) = true.
Proof.
  destruct c as [b0 b1 b2 b3 b4 b5 b6 b7].
  destruct b0, b1, b2, b3, b4, b5, b6, b7; reflexivity.
Qed.

Lemma escape_no_control (s : string) : no_control (escape s) = true.
Proof.
  induction s as [|c r IH]; [reflexivity |].
  cbn [escape]. by rewrite no_control_append, IH, escape_char_no_control.
Qed.

Lemma result_envelope_no_control (s : string) : no_control (result_envelope s) = true.
Proof.
  unfold result_envelope. by rewrite !no_control_append, escape_no_control.
Qed.

Lemma separated_from_no_control (first : bool) (items : list string) :
  Forall (fun item => no_control item = true) items ->
  no_control (separated_from first items) = true.
Proof.
  intros Hitems. revert first.
  induction Hitems as [|item rest Hitem Hrest IH]; intros first; [reflexivity |].
  cbn [separated_from]. rewrite !no_control_append, Hitem, IH. by destruct first.
Qed.

Lemma parameter_entry_no_control (w : world) (p : parameter_info) :
  no_control (parameter_entry w p) = true.
Proof.
  unfold parameter_entry. by rewrite !no_control_append, !EscapeJson_no_control.
Qed.

Lemma GenerateManifest_no_control `{Platform} (w : world) (appName : string) :
  no_control (GenerateManifest w appName) = true.
Proof.
  rewrite GenerateManifest_text, !no_control_append, EscapeJson_no_control.
  unfold separated. rewrite separated_from_no_control; [reflexivity |].
  apply Forall_forall. intros item [[t meth] [-> _]]%list_elem_of_fmap.
  rewrite Function_entry.
  rewrite !no_control_append, !EscapeJson_no_control.
  unfold separated. rewrite separated_from_no_control; [reflexivity |].
  apply Forall_forall. intros ? [p [-> _]]%list_elem_of_fmap.
  apply parameter_entry_no_control.
Qed.


(** *** The callback *)

(** X13.  What [BridgeCallback] answers.  A null command is answered by
    the null_command error, and the globals are untouched.  With a
    custom dispatcher installed the answer is the custom dispatcher's
    alone, whatever the catalog and the registry hold.  Without one the
    callback never lets an exception out; the answer is the response of
    [DispatchCommand], kept in [g_LastResult] and read by the bridge up
    to its first NUL: a response that is not an error envelope is read
    whole, and there is a command whose error response is cut short. *)
Theorem BridgeCallback_answers `{Platform}
    (w : world) (_instances : gmap string variant) (bytes : string) (g : globals) :
  BridgeCallback w _instances None g = inr (cxx "{`error`:`null_command`}", g)
  /\ (forall w' _instances',
        g_CustomDispatcher g <> None ->
        BridgeCallback w _instances (Some bytes) g
        = BridgeCallback w' _instances' (Some bytes) g)
  /\ (g_CustomDispatcher g = None ->
      let response := DispatchCommand w _instances (c_str bytes) in
      BridgeCallback w _instances (Some bytes) g
      = inr (c_str response, set_LastResult response g)
      /\ (c_str response = response \/ is_error response))
  /\ (exists commandJson,
        c_str commandJson = commandJson
        /\ c_str (DispatchCommand w _instances commandJson)
           <> DispatchCommand w _instances commandJson).
Proof.
  split; [reflexivity |]. split; [|split].
  - intros w' _instances' Hcustom. unfold BridgeCallback.
    by destruct (g_CustomDispatcher g).
  - intros Hnone. cbn zeta. split.
    + unfold BridgeCallback. by rewrite Hnone.
    + destruct (DispatchCommand_cases w _instances (c_str bytes))
        as [Herror | [-> | (s & _ & ->)]].
      * by right.
      * by left.
      * left. apply c_str_no_control, result_envelope_no_control.
  - exists (cxx "{`method`:`a\u0000b`}"). split; [reflexivity |].
    assert (DispatchCommand w _instances (cxx "{`method`:`a\u0000b`}")
            = cxx "{`error`: `Invalid JSON command structure: missing class or context, and method name 'a"
              +:+ String "000"
                    (cxx "b' has no dot separator.`}")) as -> by (by vm_compute).
    vm_compute. discriminate.
Qed.

(** *** The connection *)

(** The manifest [Ignite] offers: the custom one unless it is empty. *)
Lemma Ignite_cases `{Platform} (w : world) (h : host)
    (appName version customManifest : string) (g : globals) :
  let jsonManifest :=
    if JsonText.is_empty customManifest then GenerateManifest w appName
    else customManifest in
  let written := if is_open h then [saved jsonManifest] else [] in
  Ignite w h appName version customManifest g
  = match LoadLibraryA h with
    | None => (false, set_hBridgeDll None g, written)
    | Some handle =>
        let g1 := set_exports (GetProcAddress h "Rail_Ignite")
                    (GetProcAddress h "Rail_Disconnect")
                    (set_hBridgeDll (Some handle) g) in
        if GetProcAddress h "Rail_Ignite" && GetProcAddress h "Rail_Disconnect" then
          if (Rail_Ignite h (c_str appName) (c_str jsonManifest) =? 0)%Z then
            (true, set_Connected true g1,
             written ++ [loaded handle]
             ++ [ignited (c_str appName) (c_str jsonManifest)])
          else
            (false, g1,
             written ++ [loaded handle]
             ++ [ignited (c_str appName) (c_str jsonManifest)])
        else (false, g1, written ++ [loaded handle])
    end.
Proof.
  cbn zeta. unfold Ignite.
  destruct (JsonText.is_empty customManifest), (LoadLibraryA h) as [handle|];
    cbn; try reflexivity;
    destruct (GetProcAddress h "Rail_Ignite"), (GetProcAddress h "Rail_Disconnect");
    cbn; try reflexivity;
    destruct (Rail_Ignite h _ _ =? 0)%Z; cbn; by rewrite <- ?app_assoc.
Qed.


(** X14.  [Ignite] returns true exactly when the library loads, both
    exports are found and the bridge returns 0.  The process is
    connected afterwards when it was before or [Ignite] returned true:
    a failed [Ignite] never clears the connection flag.  The custom
    dispatcher and the last result are untouched, and [version] is not
    used. *)
Theorem Ignite_connects `{Platform} (w : world) (h : host)
    (appName version customManifest : string) (g : globals) :
  let jsonManifest :=
    if JsonText.is_empty customManifest then GenerateManifest w appName
    else customManifest in
  let '(connected, g', _) := Ignite w h appName version customManifest g in
  (connected = true
   <-> is_Some (LoadLibraryA h)
       /\ GetProcAddress h "Rail_Ignite" = true
       /\ GetProcAddress h "Rail_Disconnect" = true
       /\ Rail_Ignite h (c_str appName) (c_str jsonManifest) = 0%Z)
  /\ IsConnected g' = connected || IsConnected g
  /\ g_hBridgeDll g' = LoadLibraryA h
  /\ g_CustomDispatcher g' = g_CustomDispatcher g
  /\ g_LastResult g' = g_LastResult g
  /\ forall version',
      Ignite w h appName version' customManifest g
      = Ignite w h appName version customManifest g.
Proof.
  cbn zeta.
  assert (forall version',
             Ignite w h appName version' customManifest g
             = Ignite w h appName version customManifest g) as Hversion by reflexivity.
  revert Hversion.
  rewrite (Ignite_cases w h appName version customManifest g). cbn zeta.
  destruct (LoadLibraryA h) as [handle|] eqn:Hload.
  2: { intros Hversion. split; [|done]. split; [done |]. intros ([? ?] & _). done. }
  destruct (GetProcAddress h "Rail_Ignite") eqn:Hignite,
           (GetProcAddress h "Rail_Disconnect") eqn:Hdisconnect; cbn [andb].
  2-4: intros Hversion; (split; [|done]); (split; [done |]);
       intros (_ & ? & ? & _); done.
  destruct (Rail_Ignite h _ _ =? 0)%Z eqn:Hresult; intros Hversion.
  - apply Z.eqb_eq in Hresult. split; [|done]. split; [|done]. by eauto.
  - apply Z.eqb_neq in Hresult. split; [|done]. split; [done |].
    by intros (_ & _ & _ & ?).
Qed.

(** X15.  The manifest [Ignite] offers is the custom manifest unless it
    is empty, and the generated one otherwise.  When the file opens it
    is saved whole, first, whether or not the connection succeeds; when
    [Ignite] returns true the bridge was handed, last, the name and the
    manifest as C strings.  The generated manifest holds no NUL, so the
    bridge is handed exactly the text that was saved. *)
Theorem manifest_is_handed_over `{Platform} (w : world) (h : host)
    (appName version customManifest : string) (g : globals) :
  let jsonManifest :=
    if JsonText.is_empty customManifest then GenerateManifest w appName
    else customManifest in
  let '(connected, _, events) := Ignite w h appName version customManifest g in
  (is_open h = true -> head events = Some (saved jsonManifest))
  /\ (is_open h = false -> forall text, saved text ∉ events)
  /\ (connected = true ->
      last events = Some (ignited (c_str appName) (c_str jsonManifest)))
  /\ (customManifest = "" ->
      jsonManifest = GenerateManifest w appName
      /\ c_str jsonManifest = jsonManifest).
Proof.
  cbn zeta. rewrite (Ignite_cases w h appName version customManifest g). cbn zeta.
  assert (customManifest = "" ->
          (if JsonText.is_empty customManifest then GenerateManifest w appName
           else customManifest) = GenerateManifest w appName
          /\ c_str (if JsonText.is_empty customManifest then GenerateManifest w appName
                    else customManifest)
             = (if JsonText.is_empty customManifest then GenerateManifest w appName
                else customManifest)) as Hgenerated.
  { intros ->. split; [reflexivity |].
    apply c_str_no_control, GenerateManifest_no_control. }
  set (jsonManifest := if JsonText.is_empty customManifest
                       then GenerateManifest w appName else customManifest) in *.
  destruct (LoadLibraryA h) as [handle|];
    [destruct (GetProcAddress h "Rail_Ignite" && GetProcAddress h "Rail_Disconnect");
     [destruct (Rail_Ignite h _ _ =? 0)%Z |] |];
    (split; [by intros -> |]);
    (split; [intros ->; intros text Hin; cbn in Hin;
             repeat (apply elem_of_cons in Hin as [Hin|Hin]; [done |]);
             by apply elem_of_nil in Hin |]);
    (split; [|exact Hgenerated]); try done.
  intros _. destruct (is_open h); reflexivity.
Qed.

(** X16.  A session.  After an [Ignite] that returned true,
    [Disconnect] calls the bridge's disconnect once and frees the
    library that this [Ignite] loaded, in this order; the process is
    then not connected and holds no library.  In any state, a second
    [Disconnect] does nothing. *)
Theorem connect_then_disconnect `{Platform} (w : world) (h : host)
    (appName version customManifest : string) (g g1 : globals) (events : list event) :
  Ignite w h appName version customManifest g = (true, g1, events) ->
  exists handle,
    LoadLibraryA h = Some handle
    /\ Disconnect g1 = (set_hBridgeDll None (set_Connected false g1),
                        [disconnected; freed handle])
    /\ IsConnected (Disconnect g1).1 = false
    /\ g_hBridgeDll (Disconnect g1).1 = None
    /\ forall g0 : globals, Disconnect (Disconnect g0).1 = ((Disconnect g0).1, []).
Proof.
  rewrite (Ignite_cases w h appName version customManifest g). cbn zeta.
  destruct (LoadLibraryA h) as [handle|]; [|done].
  destruct (GetProcAddress h "Rail_Ignite"), (GetProcAddress h "Rail_Disconnect");
    cbn [andb]; try done.
  destruct (Rail_Ignite h _ _ =? 0)%Z; [|done].
  intros [= <- <-]. exists handle. repeat split.
  intros g0. unfold Disconnect.
  destruct g0 as [[handle0|] fnIgnite fnDisconnect connected lastResult custom];
    reflexivity.
Qed.

(** A bridge that is found and accepts the connection. *)
Lemma connect_then_disconnect_witness :
  let h := {| is_open := true; LoadLibraryA := Some 7;
              GetProcAddress := fun _ => true; Rail_Ignite := fun _ _ => 0%Z |} in
  LoadLibraryA h = Some 7
  /\ forall P : Platform,
      exists handle,
        LoadLibraryA h = Some handle
        /\ Disconnect (Ignite Example.order_system h "Orders" "1.0.0" "" initial).1.2
           = (set_hBridgeDll None
                (set_Connected false
                   (Ignite Example.order_system h "Orders" "1.0.0" "" initial).1.2),
              [disconnected; freed handle])
        /\ IsConnected
             (Disconnect (Ignite Example.order_system h "Orders" "1.0.0" "" initial).1.2).1
           = false
        /\ g_hBridgeDll
             (Disconnect (Ignite Example.order_system h "Orders" "1.0.0" "" initial).1.2).1
           = None
        /\ forall g0 : globals, Disconnect (Disconnect g0).1 = ((Disconnect g0).1, []).
Proof.
  intros h. split; [reflexivity |]. intros P.
  apply (connect_then_disconnect Example.order_system h "Orders" "1.0.0" "" initial
           _ (Ignite Example.order_system h "Orders" "1.0.0" "" initial).2).
  reflexivity.
Defined.

End Bridge.

(** ** The Notepad++ dispatchers *)

Module NotepadDispatch.
Import Json JsonText Notions Facts ParserFuel ManifestJson Envelopes Outcomes.

Local Arguments String.append : simpl nomatch.
Local Arguments dump : simpl never.
Local Arguments after_first_dot : simpl never.
Local Arguments RailNPP.one_of : simpl never.

(** *** The name after the first dot *)





(** *** RailNPP/main.cpp *)

Section Plugin.
Import RailNPP.
Context `{Platform}.

(** An outcome that is a value or a [std::exception]. *)
Lemma raises_bind {A B : Type} (m : outcome A) (f : A -> outcome B) :
  raises m -> (forall a, raises (f a)) -> raises (m ≫= f).
Proof. intros Hm Hf. destruct m as [a|r|e]; simpl; [apply Hf | done | done]. Qed.

Lemma get_string_raises (j : json) : raises (get_string j).
Proof. destruct j; simpl; try done; by eexists. Qed.

Lemma dump_string_raises (s : string) : raises (dump_string s).
Proof. unfold dump_string. destruct (utf8_valid s); simpl; [done | by eexists]. Qed.

Lemma dump_raises (j : json) : raises (dump j).
Proof.
  induction j as [| b | n | n | lexeme | s | elements IH | members IH]
    using json_nested_ind; try done.
  - apply dump_string_raises.
  - unfold dump; fold dump.
    match goal with |- raises (_ ← ?items elements; _) => set (it := items) end.
    apply raises_bind; [|done].
    induction IH as [|x rest Hx Hrest IHrest]; [done |].
    cbn [it]. destruct rest as [|y rest]; [apply Hx |]. fold it.
    apply raises_bind; [exact Hx |]. intros a.
    apply raises_bind; [exact IHrest | done].
  - unfold dump; fold dump.
    match goal with |- raises (_ ← ?items members; _) => set (it := items) end.
    assert (forall k v, raises (dump v) ->
              raises (a ← dump_string k; b ← dump v; Normal (a +:+ ":" +:+ b)))
      as Hmember.
    { intros k v Hv. apply raises_bind; [apply dump_string_raises |]. intros a.
      apply raises_bind; [exact Hv | done]. }
    apply raises_bind; [|done].
    induction IH as [|[k v] rest Hx Hrest IHrest]; [done |].
    cbn [it]. destruct rest as [|y rest]; [by apply Hmember |]. fold it.
    apply raises_bind; [by apply Hmember |]. intros a.
    apply raises_bind; [exact IHrest | done].
Qed.

Lemma text_argument_raises (j : json) : raises (text_argument j).
Proof.
  unfold text_argument.
  repeat case_match; try done; first [apply get_string_raises | apply dump_raises].
Qed.

Lemma filename_argument_raises (j : json) : raises (filename_argument j).
Proof.
  unfold filename_argument. repeat case_match; try done; apply get_string_raises.
Qed.

Lemma dump_selection (selection : string) :
  dump (Object [("result", Str selection)])
  = if utf8_valid selection then Normal (result_envelope selection)
    else Throw (std_exception (what_invalid_utf8 selection)).
Proof.
  unfold dump. simpl.
  unfold dump_string. replace (utf8_valid "result") with true by reflexivity.
  simpl. destruct (utf8_valid selection); [|reflexivity].
  simpl. unfold result_envelope. by rewrite append_assoc.
Qed.



End Plugin.

Local Ltac next_alias :=
  match goal with
  | |- context [if RailNPP.one_of ?name ?names then _ else _] =>
      destruct (RailNPP.one_of name names)
  end.

(** What the [try] block of the plugin comes to. *)
Lemma plugin_Body_outcome `{Platform} (selection cmdJson : string) :
  let block := RailNPP.Body selection cmdJson in
  match RailNPP.went block with
  | Normal response =>
      (RailNPP.calls block = [] /\ exists message, response = npp_error message)
      \/ (RailNPP.calls block = [RailNPP.Npp_GetSelection]
          /\ utf8_valid selection = true /\ response = result_envelope selection)
      \/ (exists c, RailNPP.calls block = [c] /\ c <> RailNPP.Npp_GetSelection
                    /\ response = cxx "{`result`:`Success`}")
  | Return _ => False
  | Throw e =>
      (RailNPP.calls block = [] /\ e <> unknown_exception)
      \/ (RailNPP.calls block = [RailNPP.Npp_GetSelection]
          /\ utf8_valid selection = false
          /\ e = std_exception (what_invalid_utf8 selection))
  end.
Proof.
  cbn zeta. unfold RailNPP.Body, parse.
  destruct (read_text cmdJson) as [j| |token]; simpl; [|by left..].
  destruct (contains j "method").
  2: { left. split; [done |]. by exists "No method specified". }
  destruct (at_key j "method") as [| | | | |method| |]; simpl; try by left.
  set (name := after_first_dot method).
  next_alias.
  { simpl. right; right. by eexists. }
  next_alias.
  { pose proof (text_argument_raises j) as Ht.
    destruct (RailNPP.text_argument j) as [text|r|e]; simpl; try done.
    - right; right. by eexists.
    - left. by destruct Ht as [what ->]. }
  next_alias.
  { pose proof (filename_argument_raises j) as Hf.
    destruct (RailNPP.filename_argument j) as [text|r|e]; simpl; try done.
    - right; right. by eexists.
    - left. by destruct Hf as [what ->]. }
  next_alias.
  { simpl. rewrite dump_selection.
    destruct (utf8_valid selection) eqn:Hvalid; simpl.
    - right; by left.
    - by right. }
  next_alias.
  { pose proof (text_argument_raises j) as Ht.
    destruct (RailNPP.text_argument j) as [text|r|e]; simpl; try done.
    - right; right. by eexists.
    - left. by destruct Ht as [what ->]. }
  simpl. left. split; [done |]. by exists ("Method not found: " +:+ name).
Qed.

(** X17.  The plugin's [ManualDispatch] always answers, whatever the
    command text and the selection: no exception leaves it.  It makes
    at most one call into the editor.  When it makes none, the answer
    is an error text.  When the call is one of the four that change the
    editor ([Npp_New], [Npp_Write], [Npp_Save], [Npp_ReplaceSelection]),
    the answer is Success.  When the call is [Npp_GetSelection], the
    answer is the selection as the JSON text of the object with the one
    member result if the selection is UTF-8, and otherwise the error
    text of the serializer's exception: there the call has been made
    although the answer is an error. *)
Theorem ManualDispatch_answers `{Platform} (selection cmdJson : string) :
  exists calls response,
    RailNPP.ManualDispatch selection cmdJson = inr (calls, response)
    /\ ((calls = [] /\ exists message, response = npp_error message)
        \/ (calls = [RailNPP.Npp_GetSelection]
            /\ ((utf8_valid selection = true
                 /\ response = result_envelope selection
                 /\ parse_text response = Some (Object [("result", Str selection)]))
                \/ (utf8_valid selection = false
                    /\ response
                       = npp_error ("Dispatch Exception: "
                                    +:+ what_invalid_utf8 selection))))
        \/ (exists c, calls = [c] /\ c <> RailNPP.Npp_GetSelection
                      /\ response = cxx "{`result`:`Success`}")).
Proof.
  unfold RailNPP.ManualDispatch. cbn zeta.
  pose proof (plugin_Body_outcome selection cmdJson) as Hbody. cbn zeta in Hbody.
  destruct (RailNPP.went (RailNPP.Body selection cmdJson)) as [response|r|e];
    [| done |].
  - exists (RailNPP.calls (RailNPP.Body selection cmdJson)), response.
    split; [reflexivity |].
    destruct Hbody as [Hnone | [(Hcalls & Hvalid & ->) | Hone]];
      [by left | | by right; right].
    right; left. split; [done |]. left.
    split; [done |]. split; [done |]. by apply parse_result_envelope.
  - destruct Hbody as [[Hcalls He] | (Hcalls & Hvalid & ->)].
    + rewrite Hcalls.
      destruct e as [what|what|]; [| | done];
        (exists [], (npp_error ("Dispatch Exception: " +:+ what));
         split; [reflexivity |]; left; split; [done |]; by eexists).
    + rewrite Hcalls.
      exists [RailNPP.Npp_GetSelection],
        (npp_error ("Dispatch Exception: " +:+ what_invalid_utf8 selection)).
      split; [reflexivity |]. right; left. split; [done |]. by right.
Qed.



(** X19.  The dispatcher of RailExtension.cpp does not read the member
    args: two commands that differ in args only are answered and acted
    on alike, and arguments are taken from the array params alone.  A
    command that carries its text under args, as the commands of the
    SDK's own dispatcher do, writes the empty text. *)
Theorem extension_does_not_read_args `{Platform}
    (text text' : string) (j j' : json) :
  parse_text text = Some j ->
  parse_text text' = Some j' ->
  same_but_args j j' ->
  RailExtension.ManualDispatch text = RailExtension.ManualDispatch text'.
Proof.
  intros Hparse Hparse' Hsame.
  destruct (Hsame "method") as [Hmc Hma]; [done |].
  destruct (Hsame "params") as [Hpc Hpa]; [done |].
  unfold RailExtension.ManualDispatch, RailExtension.Body.
  rewrite (parse_of_text _ _ Hparse), (parse_of_text _ _ Hparse'). simpl. rewrite Hmc, Hma.
  unfold RailExtension.first_param. by rewrite Hpc, Hpa.
Qed.

(** The text hi under args and no args at all: the extension writes the
    empty text for both, where the plugin writes hi for the first. *)
Lemma extension_does_not_read_args_witness :
  let text := cxx "{`method`:`Notepad.writeText`,`args`:[`hi`]}" in
  let text' := cxx "{`method`:`Notepad.writeText`}" in
  parse_text text
  = Some (Object [("args", Array [Str "hi"]); ("method", Str "Notepad.writeText")])
  /\ forall P : Platform,
      RailExtension.ManualDispatch text = RailExtension.ManualDispatch text'
      /\ RailExtension.ManualDispatch text
         = inr ([RailExtension.Npp_Write ""], cxx "{`result`:`Success`}")
      /\ RailNPP.ManualDispatch "" text
         = inr ([RailNPP.Npp_Write "hi"], cxx "{`result`:`Success`}").
Proof.
  assert (parse_text (cxx "{`method`:`Notepad.writeText`,`args`:[`hi`]}")
          = Some (Object [("args", Array [Str "hi"]);
                          ("method", Str "Notepad.writeText")])) as Hparse
    by (by vm_compute).
  assert (parse_text (cxx "{`method`:`Notepad.writeText`}")
          = Some (Object [("method", Str "Notepad.writeText")])) as Hparse'
    by (by vm_compute).
  split; [exact Hparse |]. intros P.
  split; [|split; by vm_compute].
  apply (extension_does_not_read_args _ _ _ _ Hparse Hparse').
  intros key Hne. simpl.
  destruct (String.eqb_spec key "args"); [done |].
  by destruct (String.eqb key "method").
Defined.

End NotepadDispatch.

(** ** The Doom agent *)

Module Agent.
Import Doom Notions Facts.

Local Arguments String.append : simpl nomatch.

Section Game.
Context `{Game}.

(** *** The hook *)

Lemma in_force_next (k : nat) (tics : Z) :
  in_force k (if (0 <? tics)%Z then tics - 1 else tics)%Z = in_force (S k) tics.
Proof.
  unfold in_force. destruct (0 <? tics)%Z eqn:Hpos.
  - apply Z.ltb_lt in Hpos.
    destruct (Z.ltb_spec (Z.of_nat k) (tics - 1)), (Z.ltb_spec (Z.of_nat (S k)) tics);
      try reflexivity; lia.
  - apply Z.ltb_ge in Hpos.
    destruct (Z.ltb_spec (Z.of_nat k) tics), (Z.ltb_spec (Z.of_nat (S k)) tics);
      try reflexivity; lia.
Qed.

Lemma counted_down_next (n : nat) (tics : Z) :
  counted_down n (if (0 <? tics)%Z then tics - 1 else tics)%Z = counted_down (S n) tics.
Proof.
  unfold counted_down. destruct (0 <? tics)%Z eqn:Hpos.
  - apply Z.ltb_lt in Hpos. destruct (Z.ltb_spec 0 (tics - 1)); lia.
  - by rewrite Hpos.
Qed.

(** One call of the hook. *)
Lemma Rail_OverrideInput_step (cmd : ticcmd_t) (a : AgentState) :
  Rail_OverrideInput cmd a
  = (held a 0 cmd,
     {| move_tics := if (0 <? move_tics a)%Z then move_tics a - 1 else move_tics a;
        forward_move := forward_move a;
        side_move := side_move a;
        turn_tics := if (0 <? turn_tics a)%Z then turn_tics a - 1 else turn_tics a;
        angle_turn := angle_turn a;
        fire_tics := if (0 <? fire_tics a)%Z then fire_tics a - 1 else fire_tics a;
        use_tics := if (0 <? use_tics a)%Z then use_tics a - 1 else use_tics a |}).
Proof.
  unfold Rail_OverrideInput, held, in_force.
  destruct a as [mt fm sm tt at_ ft ut], cmd as [f s t b].
  change (Z.of_nat 0) with 0%Z. cbn.
  destruct (0 <? mt)%Z; cbn; destruct (0 <? tt)%Z; cbn;
    destruct (0 <? ft)%Z; cbn; destruct (0 <? ut)%Z; reflexivity.
Qed.

Lemma run_held (cmds : list ticcmd_t) (a : AgentState) :
  run cmds a = (imap (held a) cmds, elapsed (length cmds) a).
Proof.
  revert a. induction cmds as [|cmd rest IH]; intros a.
  - simpl. f_equal. destruct a as [mt fm sm tt at_ ft ut].
    unfold elapsed, counted_down. simpl.
    f_equal; case_match; lia.
  - cbn [run]. rewrite Rail_OverrideInput_step, IH. cbn [imap length]. f_equal.
    + f_equal. apply imap_ext. intros k x _. unfold held, compose. simpl.
      by rewrite !in_force_next.
    + unfold elapsed. simpl. by rewrite !counted_down_next.
Qed.

(** *** The dispatcher *)

Lemma tolower_idempotent (c : ascii) : tolower (tolower c) = tolower c.
Proof.
  destruct c as [b0 b1 b2 b3 b4 b5 b6 b7].
  destruct b0, b1, b2, b3, b4, b5, b6, b7; reflexivity.
Qed.

Lemma lower_idempotent (s : string) : lower (lower s) = lower s.
Proof.
  induction s as [|c r IH]; [reflexivity |]. simpl. by rewrite tolower_idempotent, IH.
Qed.

End Game.

(** X20.  An override lasts exactly as many tics as its counter says.
    When the hook is called once per tic, the command of tic k, counted
    from 0, has its moves replaced while k is below [move_tics], its
    turn while k is below [turn_tics], and the attack and use buttons
    added while k is below [fire_tics] and [use_tics]; once k has
    reached every counter the command passes unchanged.  A positive
    counter goes down by one per tic and stops at 0; a counter that is
    not positive never changes.  After [Doom_Use] the use button is
    held for the next five tics and no longer. *)
Theorem override_lasts_its_tics `{Game} (cmds : list ticcmd_t) (a : AgentState) :
  (run cmds a).1 = imap (held a) cmds
  /\ (run cmds a).2 = elapsed (length cmds) a
  /\ (forall k cmd,
        cmds !! k = Some cmd ->
        (move_tics a <= Z.of_nat k)%Z -> (turn_tics a <= Z.of_nat k)%Z ->
        (fire_tics a <= Z.of_nat k)%Z -> (use_tics a <= Z.of_nat k)%Z ->
        (run cmds a).1 !! k = Some cmd)
  /\ (forall k cmd,
        cmds !! k = Some cmd ->
        (fire_tics a <= 0)%Z ->
        buttons <$> (run cmds (Doom_Use a)).1 !! k
        = Some (if k <? 5 then to_buttons (Z.lor (buttons cmd) BT_USE)
                else buttons cmd)).
Proof.
  split; [by rewrite run_held |]. split; [by rewrite run_held |]. split.
  - intros k cmd Hk Hmove Hturn Hfire Huse. rewrite run_held. cbn [fst].
    rewrite list_lookup_imap, Hk. simpl. f_equal.
    unfold held, in_force.
    rewrite !(proj2 (Z.ltb_ge _ _)) by assumption. by destruct cmd.
  - intros k cmd Hk Hfire. rewrite run_held. cbn [fst].
    rewrite list_lookup_imap, Hk. simpl. f_equal.
    unfold in_force.
    rewrite (proj2 (Z.ltb_ge (Z.of_nat k) (fire_tics a))) by lia.
    destruct (Nat.ltb_spec k 5), (Z.ltb_spec (Z.of_nat k) 5); try reflexivity; lia.
Qed.

(** X21.  [DoomDispatch] looks for five words in the lower-cased text
    of the command, anywhere in it, and nothing else of the text
    decides the answer: the answer is the success text when the text
    mentions godmode, move, rotate, shoot or use, and the error unknown
    command otherwise, in which case nothing has changed.  Two texts
    that differ in the case of their letters only are answered and
    acted on alike. *)
Theorem DoomDispatch_answers `{Game} (command command' : string) (st : state) :
  let known :=
    mentions "godmode" command || mentions "move" command
    || mentions "rotate" command || mentions "shoot" command
    || mentions "use" command in
  (DoomDispatch command st).1
  = (if known then cxx "{`result`: `success`}" else cxx "{`error`: `unknown command`}")
  /\ (known = false -> (DoomDispatch command st).2 = st)
  /\ (lower command = lower command' ->
      DoomDispatch command st = DoomDispatch command' st)
  /\ DoomDispatch (lower command) st = DoomDispatch command st.
Proof.
  cbn zeta. unfold mentions, DoomDispatch.
  split; [|split; [|split]].
  - by repeat (case_match; simpl).
  - by repeat (case_match; simpl).
  - by intros ->.
  - by rewrite lower_idempotent.
Qed.

(** X22.  A command that mentions godmode does nothing but toggle god
    mode, whatever else it says: the agent is untouched, the cheat flag
    of the console player is flipped, and the same command a second
    time restores the flags. *)
Theorem godmode_comes_first `{Game} (command : string) (st : state) :
  mentions "godmode" command = true ->
  let st' := (DoomDispatch command st).2 in
  g_agent st' = g_agent st
  /\ cheats (player st') = Z.lxor (cheats (player st)) CF_GODMODE
  /\ cheats (player (DoomDispatch command st').2) = cheats (player st).
Proof.
  unfold mentions, DoomDispatch. intros ->. simpl.
  split; [reflexivity |]. split; [reflexivity |].
  by rewrite Z.lxor_assoc, Z.lxor_nilpotent, Z.lxor_0_r.
Qed.

(** A move command whose direction is the word GodMode. *)
Lemma godmode_comes_first_witness :
  let command := cxx "{`method`: `Doom.Move`, `args`: {`direction`: `GodMode`}}" in
  mentions "godmode" command = true
  /\ mentions "move" command = true
  /\ forall (G : Game) (st : state),
      g_agent (DoomDispatch command st).2 = g_agent st
      /\ cheats (player (DoomDispatch command st).2)
         = Z.lxor (cheats (player st)) CF_GODMODE.
Proof.
  intros command. split; [reflexivity |]. split; [reflexivity |]. intros G st.
  destruct (godmode_comes_first command st eq_refl) as (Hagent & Hcheats & _).
  by split.
Defined.

(** *** The number after a key *)

Lemma find_first_of_here (chars sep : string) (c : ascii) (rest : string) :
  free_of chars sep = true -> member c chars = true ->
  find_first_of chars (sep +:+ String c rest) 0 = Some (String.length sep).
Proof.
  intros Hsep Hc. induction sep as [|a r IH]; simpl.
  - by rewrite Hc.
  - simpl in Hsep. apply andb_true_iff in Hsep as [Ha Hr].
    apply negb_true_iff in Ha. rewrite Ha, IH by done. reflexivity.
Qed.

Lemma find_first_of_from (chars s : string) (p : nat) (sep : string) (c : ascii)
    (rest : string) :
  substr_from s p = sep +:+ String c rest ->
  free_of chars sep = true -> member c chars = true ->
  exists start,
    find_first_of chars s p = Some start
    /\ substr_from s start = String c rest.
Proof.
  intros Hfrom Hsep Hc. revert p Hfrom. induction s as [|a s IH]; intros p Hfrom.
  - destruct p, sep; discriminate.
  - destruct p as [|p].
    + simpl in Hfrom. rewrite Hfrom. exists (String.length sep).
      split; [by apply find_first_of_here |].
      clear. induction sep as [|b r IH]; [reflexivity | exact IH].
    + simpl in Hfrom. destruct (IH p Hfrom) as (start & Hfind & Hstart).
      exists (S start). simpl. rewrite Hfind. by split.
Qed.

Lemma skip_space_c_str (s : string) :
  Std.skip_space (Rail.c_str s) = Rail.c_str (Std.skip_space s).
Proof.
  induction s as [|c r IH]; [reflexivity |]. simpl.
  destruct (Ascii.eqb_spec c "000") as [->|Hc]; [reflexivity |].
  simpl. destruct (Std.isspace c); [exact IH |].
  simpl. by rewrite (proj2 (Ascii.eqb_neq _ _) Hc).
Qed.

Lemma digits_c_str (s : string) (acc : Z) :
  Std.digits acc (Rail.c_str s) = Std.digits acc s.
Proof.
  revert acc. induction s as [|c r IH]; intros acc; [reflexivity |]. simpl.
  destruct (Ascii.eqb_spec c "000") as [->|Hc]; [reflexivity |].
  simpl. destruct (is_digit c); [apply IH | reflexivity].
Qed.

(** [strtol] reads a C string: it stops at a NUL anyway. *)
Lemma strtol_c_str (s : string) : Std.strtol (Rail.c_str s) = Std.strtol s.
Proof.
  unfold Std.strtol. rewrite skip_space_c_str.
  destruct (Std.skip_space s) as [|c r]; [reflexivity |].
  assert (forall s2 : string,
             match Rail.c_str s2 with
             | String d _ => if is_digit d then Some (Std.digits 0 (Rail.c_str s2)) else None
             | EmptyString => None
             end
             = match s2 with
               | String d _ => if is_digit d then Some (Std.digits 0 s2) else None
               | EmptyString => None
               end) as Hpos.
  { intros s2. rewrite digits_c_str. destruct s2 as [|d s2]; [reflexivity |].
    simpl. by destruct (Ascii.eqb_spec d "000") as [->|]. }
  assert (forall s2 : string,
             match Rail.c_str s2 with
             | String d _ =>
                 if is_digit d then Some (- Std.digits 0 (Rail.c_str s2))%Z else None
             | EmptyString => None
             end
             = match s2 with
               | String d _ => if is_digit d then Some (- Std.digits 0 s2)%Z else None
               | EmptyString => None
               end) as Hneg.
  { intros s2. rewrite digits_c_str. destruct s2 as [|d s2]; [reflexivity |].
    simpl. by destruct (Ascii.eqb_spec d "000") as [->|]. }
  destruct c as [b0 b1 b2 b3 b4 b5 b6 b7].
  destruct b0, b1, b2, b3, b4, b5, b6, b7;
    match goal with
    | |- context [Rail.c_str (String ?c r)] =>
        first [ reflexivity | exact (Hpos r) | exact (Hneg r)
              | exact (Hpos (String c r)) ]
    end.
Qed.

Lemma of_Z_head (n : Z) :
  (0 <= n)%Z ->
  exists c r, of_Z n = String c r /\ member c "0123456789" = true.
Proof.
  intros Hn. destruct n as [|p|p]; [by eexists _, _ | | lia].
  unfold of_Z. simpl. unfold NilZero.string_of_uint.
  pose proof (DecimalPos.Unsigned.to_uint_nonnil p) as Hnil.
  destruct (Pos.to_uint p); [congruence |..]; by eexists _, _.
Qed.


(** X23.  A move command reads its duration without its sign.  When the
    command mentions move and not godmode, and the text from the first
    "ms" key on holds no digit before the decimal text of a number n
    that fits an [int] and is not followed by a digit, the player moves
    for [MsToTics(n)] tics: whatever stands between the key and the
    digits is skipped, a minus sign included, so a negative duration is
    read as its absolute value. *)
Theorem move_reads_ms_without_its_sign `{Game}
    (command : string) (st : state) (p : nat) (sep tail : string) (n : Z) :
  mentions "godmode" command = false ->
  mentions "move" command = true ->
  find (cxx "`ms`") (lower command) = Some p ->
  substr_from (lower command) p = sep +:+ of_Z n +:+ tail ->
  free_of "0123456789" sep = true ->
  (0 <= n <= Std.INT_MAX)%Z ->
  digit_head tail = false ->
  move_tics (g_agent (DoomDispatch command st).2) = MsToTics n.
Proof.
  unfold mentions, DoomDispatch. intros -> -> Hkey Hfrom Hsep Hn Htail.
  cbn [snd g_agent]. unfold Doom_Move, number_after. rewrite Hkey.
  destruct (of_Z_head n ltac:(lia)) as (c & r & Hhead & Hc).
  rewrite Hhead in Hfrom.
  destruct (find_first_of_from "0123456789" (lower command) p sep c (r +:+ tail)
              Hfrom Hsep Hc) as (start & -> & ->).
  assert (atoi (Rail.c_str (String c (r +:+ tail))) = n) as ->.
  { unfold atoi. rewrite strtol_c_str.
    change (String c (r +:+ tail)) with (String c r +:+ tail). rewrite <- Hhead.
    rewrite (Coercion.strtol_append (of_Z n) tail n
               (IntegerCoercion.strtol_of_Z n) Htail).
    unfold Std.INT_MIN, Std.INT_MAX in *.
    by rewrite (proj2 (Z.leb_le _ _)), (proj2 (Z.leb_le _ _)) by lia. }
  by repeat case_match.
Qed.

(** Half a second to the left, given as -500. *)
Lemma move_reads_ms_without_its_sign_witness :
  let command := cxx "{`method`: `Doom.Move`, `args`: {`direction`: `left`, `ms`: -500}}" in
  mentions "move" command = true
  /\ find (cxx "`ms`") (lower command) = Some 54
  /\ substr_from (lower command) 54 = (cxx "`ms`: -") +:+ of_Z 500 +:+ "}}"
  /\ forall (G : Game) (st : state),
      move_tics (g_agent (DoomDispatch command st).2) = tics_of_ms 500.
Proof.
  intros command. split; [reflexivity |]. split; [reflexivity |].
  split; [reflexivity |]. intros G st.
  exact (move_reads_ms_without_its_sign command st 54 (cxx "`ms`: -") "}}" 500
           eq_refl eq_refl eq_refl eq_refl eq_refl ltac:(by vm_compute) eq_refl).
Defined.

End Agent.

(** ** The order manager of the example *)

Module OrderBook.
Import Orders Notions.

(** The order created [k] calls of [CreateOrder] after the identifier
    [first] was due. *)
Lemma order_steps_from (calls : list order_call) (m m' : OrderManager) :
  (_nextId m <= Std.INT_MAX)%Z ->
  order_steps calls m = Some m' ->
  _nextId m' = (_nextId m + Z.of_nat (length (created calls)))%Z
  /\ _orders m'
     = _orders m
       ++ imap (fun k cq =>
                  {| id := _nextId m + Z.of_nat k; client := cq.1; quantity := cq.2 |})
            (created calls)
  /\ (_nextId m' <= Std.INT_MAX)%Z.
Proof.
  revert m. induction calls as [|c rest IH]; intros m Hmax.
  - intros [= <-]. simpl. by rewrite Z.add_0_r, app_nil_r.
  - destruct c as [clientName quantity| |orderId]; cbn [order_steps order_step created].
    + unfold CreateOrder. destruct (_nextId m <? Std.INT_MAX)%Z eqn:Hroom; [|done].
      apply Z.ltb_lt in Hroom. simpl. intros Hrest.
      apply IH in Hrest as (Hnext & Horders & Hmax'); [|simpl; lia].
      simpl in *. split; [rewrite Hnext; lia |]. split; [|exact Hmax'].
      rewrite Horders, <- app_assoc. simpl.
      rewrite Z.add_0_r. do 2 f_equal. apply imap_ext. intros k cq _. simpl.
      f_equal. lia.
    + simpl. by apply IH.
    + simpl. by apply IH.
Qed.

Lemma order_steps_defined (calls : list order_call) (m : OrderManager) :
  (_nextId m + Z.of_nat (length (created calls)) <= Std.INT_MAX)%Z ->
  is_Some (order_steps calls m).
Proof.
  revert m. induction calls as [|c rest IH]; intros m Hroom; [by eexists |].
  destruct c as [clientName quantity| |orderId]; cbn [order_steps order_step created] in *.
  - unfold CreateOrder. simpl in Hroom.
    rewrite (proj2 (Z.ltb_lt _ _)) by lia. simpl. apply IH. simpl. lia.
  - simpl. by apply IH.
  - simpl. by apply IH.
Qed.

(** X24.  The order manager of the example numbers its orders.  A
    sequence of calls on a new manager that creates at most 2147482647
    orders is defined, and after it the orders are those the calls of
    [CreateOrder] asked for, in order, the k-th with the identifier
    1000 + k; no two orders have the same identifier; [GetOrderCount]
    is the number of calls of [CreateOrder]; and [CancelOrder] removes
    nothing: the manager is the same after it, whatever the
    identifier. *)
Theorem orders_are_numbered (calls : list order_call) :
  (Z.of_nat (length (created calls)) <= 2147482647)%Z ->
  exists m,
    order_steps calls fresh = Some m
    /\ _orders m
       = imap (fun k cq =>
                 {| id := 1000 + Z.of_nat k; client := cq.1; quantity := cq.2 |})
           (created calls)
    /\ NoDup (id <$> _orders m)
    /\ GetOrderCount m = Z.of_nat (length (created calls))
    /\ forall orderId,
        CancelOrder orderId m = m
        /\ order_steps (calls ++ [cancel_order orderId]) fresh = Some m.
Proof.
  intros Hroom.
  destruct (order_steps_defined calls fresh) as [m Hsteps].
  { unfold Std.INT_MAX. simpl. lia. }
  exists m. split; [exact Hsteps |].
  destruct (order_steps_from calls fresh m ltac:(by vm_compute) Hsteps)
    as (Hnext & Horders & Hmax).
  simpl in Hnext, Horders. split; [exact Horders |]. split; [|split].
  - rewrite Horders, fmap_imap.
    rewrite (imap_ext _ (fun k _ => (1000 + Z.of_nat k)%Z)) by done.
    rewrite imap_seq_0. apply NoDup_fmap_2; [|apply NoDup_seq].
    intros i j Hij. lia.
  - unfold GetOrderCount. rewrite Horders, length_imap.
    apply IntegerCoercion.to_int_in_range. unfold Std.INT_MIN, Std.INT_MAX in *. lia.
  - intros orderId. split; [reflexivity |].
    clear -Hsteps. revert Hsteps. generalize fresh as m0.
    induction calls as [|c rest IH]; intros m0; simpl.
    + by intros [= <-].
    + destruct (order_step c m0) as [m1|]; simpl; [apply IH | done].
Qed.

(** The calls of the example's test, and a cancellation between them. *)
Lemma orders_are_numbered_witness :
  let calls := [create_order "TEST-ORDER-1" 5; cancel_order 1000; get_order_count] in
  (Z.of_nat (length (created calls)) <= 2147482647)%Z
  /\ exists m,
      order_steps calls fresh = Some m
      /\ _orders m = [{| id := 1000; client := "TEST-ORDER-1"; quantity := 5 |}]
      /\ GetOrderCount m = 1%Z.
Proof.
  intros calls.
  assert (Z.of_nat (length (created calls)) <= 2147482647)%Z as Hroom by (simpl; lia).
  split; [exact Hroom |].
  destruct (orders_are_numbered calls Hroom) as (m & Hsteps & Horders & _ & Hcount & _).
  exists m. by repeat split.
Defined.

End OrderBook.
